(** * NobleBooksFactory: pipeline orchestration, agents and provider fallback

    A shallow embedding of the Python backend
    ([app/agents/base_agent.py], [app/agents/research_agent.py],
    [app/services/llm_service.py], [app/services/book_generation_service.py],
    [app/models/*.py]) together with the properties the specification states
    about it.

    Conventions of the embedding.
    - Python [int] is [Z]; Python [float] is modelled by exact rationals [Q]
      (decimal literals are the corresponding fractions), so arithmetic
      statements hold up to [Qeq] unless the two sides are the same term.
    - [datetime] is a number of microseconds ([Z]); [total_seconds] of a
      difference is that number divided by 10^6.  Every [datetime.utcnow()]
      is an input of the function that reads the clock.
    - [str] is [string], one character of the 8-bit alphabet per code point.
    - [dict]s keyed by job ids are [gmap string _]; the provider tables, whose
      iteration order decides the order of fallback, are association lists
      with Python's insertion-order semantics.
    - Exceptions are explicit: a function that can raise returns a sum, and
      each [try ... except] is written out.
    - Calls to the outside (the LLM client library, the agents seen from the
      orchestrator) are inputs: oracles that give the outcome of each call. *)

From stdpp Require Import gmap strings list pretty.
From Stdlib Require Import Ascii QArith Qminmax Lqa.

#[local] Set Warnings "-clear-no-such-hyp".

Local Open Scope string_scope.
Local Open Scope list_scope.
Local Open Scope Z_scope.

(** ** Common types *)

Definition datetime := Z.

Definition total_seconds (delta : Z) : Q := delta # 1000000.

(** Python truthiness of an optional string ([None] and the empty string are
    false). *)
Definition truthy_str (o : option string) : bool :=
  match o with
  | Some s => negb (String.eqb s "")
  | None => false
  end.

(** ** app/models/agent.py *)

Inductive AgentType := RESEARCH | CONTENT_GENERATION | EDITORIAL | COORDINATOR.

Inductive AgentState := IDLE | WORKING | ERROR | MAINTENANCE.

Definition AgentState_eqb (a b : AgentState) : bool :=
  match a, b with
  | IDLE, IDLE | WORKING, WORKING | ERROR, ERROR | MAINTENANCE, MAINTENANCE => true
  | _, _ => false
  end.

Record AgentMetrics := mkAgentMetrics {
  tasks_completed : Z;
  tasks_failed : Z;
  average_task_duration : option Q;
  success_rate : Q;
  last_task_completed : option datetime;
  total_uptime : option Q;
}.

(** [AgentMetrics()] with the defaults of the model class. *)
Definition AgentMetrics_default : AgentMetrics :=
  {| tasks_completed := 0; tasks_failed := 0; average_task_duration := None;
     success_rate := 0%Q; last_task_completed := None; total_uptime := None |}.

Record AgentConfiguration := mkAgentConfiguration {
  cfg_name : string;
  cfg_agent_type : AgentType;
  llm_provider : string;
  model_name : string;
  temperature : Q;
  max_tokens : Z;
  timeout : Z;
  max_concurrent_tasks : Z;
}.

Record AgentStatus := mkAgentStatus {
  st_name : string;
  st_agent_type : AgentType;
  st_state : AgentState;
  st_current_task : option string;
  st_current_task_progress : Z;
  st_last_activity : option datetime;
  st_error_message : option string;
  st_metrics : AgentMetrics;
  st_configuration : AgentConfiguration;
  health_score : Q;
}.

(** The [Field(ge=..., le=...)] constraints that pydantic checks when an
    [AgentStatus] is built. *)
Definition AgentStatus_fields_ok (progress : Z) (health : Q) : bool :=
  (0 <=? progress) && (progress <=? 100) &&
  Qle_bool 0 health && Qle_bool health 1.

(** ** app/core/config.py (the settings the core reads) *)

Record Settings := mkSettings {
  OPENAI_API_KEY : option string;
  OPENAI_MODEL : string;
  OPENAI_BASE_URL : string;
  ANTHROPIC_API_KEY : option string;
  ANTHROPIC_MODEL : string;
  SERPER_API_KEY : option string;
  TAVILY_API_KEY : option string;
}.

(** ** app/services/llm_service.py *)

Module LLMService.

Inductive LLMProvider := OPENAI | ANTHROPIC | HUGGINGFACE | LOCAL.

#[export] Instance LLMProvider_eq_dec : EqDecision LLMProvider.
Proof. solve_decision. Defined.

Definition value (p : LLMProvider) : string :=
  match p with
  | OPENAI => "openai" | ANTHROPIC => "anthropic"
  | HUGGINGFACE => "huggingface" | LOCAL => "local"
  end.


(** [repr] of a member, which is what [str(KeyError(member))] shows. *)
Definition repr (p : LLMProvider) : string :=
  match p with
  | OPENAI => "<LLMProvider.OPENAI: 'openai'>"
  | ANTHROPIC => "<LLMProvider.ANTHROPIC: 'anthropic'>"
  | HUGGINGFACE => "<LLMProvider.HUGGINGFACE: 'huggingface'>"
  | LOCAL => "<LLMProvider.LOCAL: 'local'>"
  end.

(** A provider handle: the chat client object with the attributes the
    service sets. *)
Record client := mkClient {
  cl_provider : LLMProvider;
  cl_api_key : option string;
  cl_model : string;
  cl_base_url : option string;
  cl_temperature : Q;
  cl_max_tokens : Z;
  cl_timeout : option Z;
}.

Inductive message :=
  | SystemMessage (content : string)
  | HumanMessage (content : string).

Record ai_result := mkAiResult {
  content : string;
  usage_total_tokens : option Z;
}.

(** The client library, an external collaborator: whether a constructor call
    returns or raises, what a call of [ainvoke] on a handle yields (a result
    or the text of the exception), and the handle's [model_name] attribute
    if it has one. *)
Record Library := mkLibrary {
  construct : client -> bool;
  ainvoke : client -> list message -> ai_result + string;
  get_model_name : client -> option string;
}.

(** Python dictionaries keep insertion order; assigning to a present key
    keeps its position. *)
Fixpoint dict_get {V} (d : list (LLMProvider * V)) (k : LLMProvider) : option V :=
  match d with
  | [] => None
  | (k', v) :: rest => if decide (k' = k) then Some v else dict_get rest k
  end.

Fixpoint dict_set {V} (k : LLMProvider) (v : V) (d : list (LLMProvider * V))
  : list (LLMProvider * V) :=
  match d with
  | [] => [(k, v)]
  | (k', v') :: rest =>
      if decide (k' = k) then (k, v) :: rest else (k', v') :: dict_set k v rest
  end.

Record t := mk {
  providers : list (LLMProvider * client);
  provider_health : list (LLMProvider * bool);
}.

Definition ChatOpenAI_init (settings : Settings) : client :=
  {| cl_provider := OPENAI; cl_api_key := OPENAI_API_KEY settings;
     cl_model := OPENAI_MODEL settings;
     cl_base_url := Some (OPENAI_BASE_URL settings);
     cl_temperature := 7 # 10; cl_max_tokens := 4000; cl_timeout := Some 30 |}.

Definition ChatAnthropic_init (settings : Settings) : client :=
  {| cl_provider := ANTHROPIC; cl_api_key := ANTHROPIC_API_KEY settings;
     cl_model := ANTHROPIC_MODEL settings; cl_base_url := None;
     cl_temperature := 7 # 10; cl_max_tokens := 4000; cl_timeout := Some 30 |}.

(** The handles [_reinitialize_provider] builds carry no base URL and no
    timeout. *)
Definition ChatOpenAI_reinit (settings : Settings) : client :=
  {| cl_provider := OPENAI; cl_api_key := OPENAI_API_KEY settings;
     cl_model := OPENAI_MODEL settings; cl_base_url := None;
     cl_temperature := 7 # 10; cl_max_tokens := 4000; cl_timeout := None |}.

Definition ChatAnthropic_reinit (settings : Settings) : client :=
  {| cl_provider := ANTHROPIC; cl_api_key := ANTHROPIC_API_KEY settings;
     cl_model := ANTHROPIC_MODEL settings; cl_base_url := None;
     cl_temperature := 7 # 10; cl_max_tokens := 4000; cl_timeout := None |}.

(** One provider block of [_initialize_providers]: with a key configured,
    register the handle and mark it healthy, or mark the provider unhealthy
    when the constructor raises. *)
Definition init_one (lib : Library) (key : option string) (p : LLMProvider)
  (c : client) (svc : t) : t :=
  if truthy_str key then
    if construct lib c
    then {| providers := dict_set p c (providers svc);
            provider_health := dict_set p true (provider_health svc) |}
    else {| providers := providers svc;
            provider_health := dict_set p false (provider_health svc) |}
  else svc.

(** [__init__] with [_initialize_providers]; [None] is the [LLMError] raised
    when no provider could be registered. *)
Definition _initialize_providers (settings : Settings) (lib : Library) : option t :=
  let s0 := {| providers := []; provider_health := [] |} in
  let s1 := init_one lib (OPENAI_API_KEY settings) OPENAI (ChatOpenAI_init settings) s0 in
  let s2 := init_one lib (ANTHROPIC_API_KEY settings) ANTHROPIC
              (ChatAnthropic_init settings) s1 in
  match providers s2 with
  | [] => None
  | _ :: _ => Some s2
  end.

Definition get_available_providers (svc : t) : list LLMProvider :=
  map fst (List.filter snd (provider_health svc)).

(** [get_provider]; [None] is the [LLMError] / [KeyError] it can raise. *)
Definition get_provider (preferred_provider : option LLMProvider) (svc : t)
  : option (LLMProvider * client) :=
  let available_providers := get_available_providers svc in
  let pick p := option_map (pair p) (dict_get (providers svc) p) in
  let fallback :=
    match List.filter (fun q => bool_decide (q ∈ available_providers))
            [OPENAI; ANTHROPIC; HUGGINGFACE; LOCAL], available_providers with
    | q :: _, _ => pick q
    | [], first :: _ => pick first
    | [], [] => None
    end in
  match available_providers, preferred_provider with
  | [], _ => None
  | _ :: _, Some p =>
      if bool_decide (p ∈ available_providers) then pick p else fallback
  | _ :: _, None => fallback
  end.

(** [_reinitialize_provider]: a fresh handle from the stored credentials and
    the provider healthy again; nothing changes when the provider has no key
    or the constructor raises. *)
Definition _reinitialize_provider (settings : Settings) (lib : Library)
  (provider : LLMProvider) (svc : t) : t :=
  match provider with
  | OPENAI =>
      if truthy_str (OPENAI_API_KEY settings) then
        if construct lib (ChatOpenAI_reinit settings)
        then {| providers := dict_set OPENAI (ChatOpenAI_reinit settings) (providers svc);
                provider_health := dict_set OPENAI true (provider_health svc) |}
        else svc
      else svc
  | ANTHROPIC =>
      if truthy_str (ANTHROPIC_API_KEY settings) then
        if construct lib (ChatAnthropic_reinit settings)
        then {| providers := dict_set ANTHROPIC (ChatAnthropic_reinit settings) (providers svc);
                provider_health := dict_set ANTHROPIC true (provider_health svc) |}
        else svc
      else svc
  | _ => svc
  end.

(** The dictionary [generate_completion] returns. *)
Record completion := mkCompletion {
  c_content : string;
  c_provider : string;
  c_model : string;
  c_tokens_used : Z;
}.

Inductive LLMError := LLMError_msg (msg : string).

(** What a call of [generate_completion] does besides returning: the
    [ainvoke] calls it makes and the providers whose [except] branch ran
    (with the text of the exception), in order. *)
Inductive event :=
  | Invoked (p : LLMProvider) (c : client)
  | Failed (p : LLMProvider) (err : string).

Record gen_result := mkGen {
  outcome : completion + LLMError;
  service : t;
  events : list event;
}.

Definition configure (temperature : option Q) (max_tokens : option Z) (c : client)
  : client :=
  {| cl_provider := cl_provider c; cl_api_key := cl_api_key c;
     cl_model := cl_model c; cl_base_url := cl_base_url c;
     cl_temperature := default (cl_temperature c) temperature;
     cl_max_tokens := default (cl_max_tokens c) max_tokens;
     cl_timeout := cl_timeout c |}.

Definition make_completion (lib : Library) (p : LLMProvider) (c : client)
  (res : ai_result) : completion :=
  {| c_content := content res; c_provider := value p;
     c_model := default "unknown" (get_model_name lib c);
     c_tokens_used := default 0 (usage_total_tokens res) |}.

(** Lines 178-184: the [except] branch of one attempt. *)
Definition on_failure (settings : Settings) (lib : Library) (p : LLMProvider)
  (svc : t) : t :=
  _reinitialize_provider settings lib p
    {| providers := providers svc;
       provider_health := dict_set p false (provider_health svc) |}.

(** Lines 155-186: the loop over [providers_to_try] and the final raise. *)
Fixpoint try_providers (settings : Settings) (lib : Library)
  (messages : list message) (temperature : option Q) (max_tokens : option Z)
  (providers_to_try : list LLMProvider) (last_error : option string)
  (svc : t) (log : list event) : gen_result :=
  match providers_to_try with
  | [] =>
      {| outcome := inr (LLMError_msg ("All providers failed. Last error: "
                                        ++ default "None" last_error)%string);
         service := svc; events := log |}
  | provider_name :: rest =>
      match dict_get (providers svc) provider_name with
      | None =>
          let e := repr provider_name in
          try_providers settings lib messages temperature max_tokens rest (Some e)
            (on_failure settings lib provider_name svc)
            (log ++ [Failed provider_name e])%list
      | Some c =>
          let provider := configure temperature max_tokens c in
          let svc1 := {| providers := dict_set provider_name provider (providers svc);
                         provider_health := provider_health svc |} in
          match ainvoke lib provider messages with
          | inl result =>
              {| outcome := inl (make_completion lib provider_name provider result);
                 service := svc1;
                 events := (log ++ [Invoked provider_name provider])%list |}
          | inr e =>
              try_providers settings lib messages temperature max_tokens rest (Some e)
                (on_failure settings lib provider_name svc1)
                (log ++ [Invoked provider_name provider; Failed provider_name e])%list
          end
      end
  end.

(** Lines 137-140. *)
Definition build_messages (prompt : string) (system_message : option string)
  : list message :=
  ((if truthy_str system_message
    then [SystemMessage (default "" system_message)] else [])
   ++ [HumanMessage prompt])%list.

(** Lines 142-153: the preferred provider first when it is healthy, then the
    other healthy providers in the order of the health table. *)
Definition providers_to_try (preferred_provider : option LLMProvider) (svc : t)
  : list LLMProvider :=
  let available_providers := get_available_providers svc in
  let first :=
    match preferred_provider with
    | Some p => if bool_decide (p ∈ available_providers) then [p] else []
    | None => []
    end in
  fold_left (fun acc provider =>
               if bool_decide (provider ∈ acc) then acc else (acc ++ [provider])%list)
            available_providers first.

(** [generate_completion].  The call is taken as a whole: what other tasks
    do to the two tables while it is suspended in [ainvoke] or in the pause
    before a re-initialisation is not part of this model.  The optional
    callback handler, which the agents never pass, is left out. *)
Definition generate_completion (settings : Settings) (lib : Library)
  (prompt : string) (system_message : option string)
  (preferred_provider : option LLMProvider)
  (temperature : option Q) (max_tokens : option Z) (svc : t) : gen_result :=
  try_providers settings lib (build_messages prompt system_message)
    temperature max_tokens (providers_to_try preferred_provider svc) None svc [].

(** [health_check]: one probe per registered handle, the health table
    refreshed from the outcomes; returned are the counts of the summary. *)
Definition health_check (lib : Library) (svc : t) : (Z * Z) * t :=
  let svc' :=
    fold_left
      (fun acc pc =>
         {| providers := providers acc;
            provider_health :=
              dict_set (fst pc)
                (match ainvoke lib (snd pc) [HumanMessage "Hello"] with
                 | inl _ => true | inr _ => false end)
                (provider_health acc) |})
      (providers svc) svc in
  ((Z.of_nat (length (List.filter snd (provider_health svc'))),
    Z.of_nat (length (providers svc'))), svc').

(** *** Reading the trace of a call *)

Definition ev_invoked (evs : list event) : list LLMProvider :=
  omap (fun ev => match ev with Invoked p _ => Some p | Failed _ _ => None end) evs.

Definition ev_failed (evs : list event) : list LLMProvider :=
  omap (fun ev => match ev with Failed p _ => Some p | Invoked _ _ => None end) evs.

Definition ev_texts (evs : list event) : list string :=
  omap (fun ev => match ev with Failed _ e => Some e | Invoked _ _ => None end) evs.

(** The providers whose handle was called, the providers that failed, and
    the texts of their exceptions, for one call of [generate_completion]. *)
Definition invoked_providers (r : gen_result) : list LLMProvider :=
  ev_invoked (events r).

Definition failed_providers (r : gen_result) : list LLMProvider :=
  ev_failed (events r).


(** The error the loop has in hand after the events [evs], when it entered
    with [last_error]. *)
Definition error_after (last_error : option string) (evs : list event)
  : option string :=
  match last (ev_texts evs) with
  | Some e => Some e
  | None => last_error
  end.


Definition is_healthy (svc : t) (p : LLMProvider) : bool :=
  default false (dict_get (provider_health svc) p).

(** *** The statements of the specification, as written *)



(** *** Test vectors *)

Definition sample_settings : Settings :=
  {| OPENAI_API_KEY := Some "sk-openai"; OPENAI_MODEL := "gpt-4-turbo-preview";
     OPENAI_BASE_URL := "https://api.openai.com/v1";
     ANTHROPIC_API_KEY := Some "sk-anthropic";
     ANTHROPIC_MODEL := "claude-3-sonnet-20240229";
     SERPER_API_KEY := None; TAVILY_API_KEY := None |}.

(** A library in which the providers listed in [down] raise on every call
    and the others answer. *)
Definition lib_with_down (down : list LLMProvider) : Library :=
  {| construct := fun _ => true;
     ainvoke := fun c _ =>
       if bool_decide (cl_provider c ∈ down)
       then inr ("Connection error: " ++ value (cl_provider c))%string
       else inl {| content := ("OK from " ++ value (cl_provider c))%string;
                   usage_total_tokens := Some 12 |};
     get_model_name := fun c => Some (cl_model c) |}.

(** The service as constructed at start-up with both keys configured. *)
Definition sample_service : t :=
  default {| providers := []; provider_health := [] |}
    (_initialize_providers sample_settings (lib_with_down [])).

(** The same service after a [health_check] during which OpenAI was down. *)
Definition sample_service_probed : t :=
  snd (health_check (lib_with_down [OPENAI]) sample_service).

(** A call during which OpenAI is down, and the next call, with every
    provider up again. *)
Definition sample_prior_call : gen_result :=
  generate_completion sample_settings (lib_with_down [OPENAI])
    "Create a detailed research plan" (Some "You are a professional researcher.")
    (Some OPENAI) (Some (3 # 10)) (Some 6000) sample_service.


(** *** The states a service goes through *)

(** A service is well formed when each table has one entry per provider and
    every provider marked healthy has a handle. *)
Definition wf (svc : t) : Prop :=
  NoDup (map fst (providers svc)) /\
  NoDup (map fst (provider_health svc)) /\
  forall p, dict_get (provider_health svc) p = Some true ->
            is_Some (dict_get (providers svc) p).

(** The states of the service object: built by [__init__], then changed by
    calls of [generate_completion] and of [health_check]. *)
Inductive reachable (settings : Settings) : t -> Prop :=
  | reach_init lib svc :
      _initialize_providers settings lib = Some svc -> reachable settings svc
  | reach_generate lib prompt system_message preferred_provider temperature
      max_tokens svc :
      reachable settings svc ->
      reachable settings
        (service (generate_completion settings lib prompt system_message
                    preferred_provider temperature max_tokens svc))
  | reach_health_check lib svc :
      reachable settings svc -> reachable settings (snd (health_check lib svc)).

(** The loop of [health_check] over the handles [l]. *)
Definition probe_all (lib : Library) (l : list (LLMProvider * client)) (svc : t) : t :=
  fold_left
    (fun acc pc =>
       {| providers := providers acc;
          provider_health :=
            dict_set (fst pc)
              (match ainvoke lib (snd pc) [HumanMessage "Hello"] with
               | inl _ => true | inr _ => false end)
              (provider_health acc) |})
    l svc.

(** The providers a state knows about. *)
Definition known_by (svc : t) (p : LLMProvider) : Prop :=
  p ∈ map fst (provider_health svc) \/ p ∈ map fst (providers svc).

Definition only_two (svc : t) : Prop :=
  forall p, known_by svc p -> p = OPENAI \/ p = ANTHROPIC.

(** A library whose OpenAI calls fail while every constructor works. *)
Definition sample_openai_down : Library := lib_with_down [OPENAI].

End LLMService.

(** ** app/agents/base_agent.py *)

Module BaseAgent.

Record t := mk {
  name : string;
  agent_type : AgentType;
  config : AgentConfiguration;
  state : AgentState;
  current_task : option string;
  current_task_progress : Z;
  last_activity : option datetime;
  error_message : option string;
  metrics : AgentMetrics;
  start_time : datetime;
}.

Definition _get_default_config (name : string) (agent_type : AgentType)
  : AgentConfiguration :=
  {| cfg_name := name; cfg_agent_type := agent_type;
     llm_provider := "openai"; model_name := "gpt-4-turbo-preview";
     temperature := 7 # 10; max_tokens := 4000; timeout := 300;
     max_concurrent_tasks := 1 |}.

(** [__init__]; [now] is the clock read for [start_time]. *)
Definition init (name : string) (agent_type : AgentType)
  (config : option AgentConfiguration) (now : datetime) : t :=
  {| name := name; agent_type := agent_type;
     config := default (_get_default_config name agent_type) config;
     state := IDLE; current_task := None; current_task_progress := 0;
     last_activity := None; error_message := None;
     metrics := AgentMetrics_default; start_time := now |}.

Definition set_metrics (m : AgentMetrics) (a : t) : t :=
  {| name := name a; agent_type := agent_type a; config := config a;
     state := state a; current_task := current_task a;
     current_task_progress := current_task_progress a;
     last_activity := last_activity a; error_message := error_message a;
     metrics := m; start_time := start_time a |}.

(** [update_progress]: clamps to 0..100 and stamps the activity time. *)
Definition update_progress (progress : Z) (now : datetime) (a : t) : t :=
  {| name := name a; agent_type := agent_type a; config := config a;
     state := state a; current_task := current_task a;
     current_task_progress := Z.max 0 (Z.min 100 progress);
     last_activity := Some now; error_message := error_message a;
     metrics := metrics a; start_time := start_time a |}.

(** The exceptions that reach the [except Exception] of [execute_task]:
    whatever [process_task] raised, or a division by zero in the metrics
    update. *)
Inductive exn :=
  | Raised (msg : string)
  | ZeroDivisionError (msg : string).

Definition str (e : exn) : string :=
  match e with Raised m => m | ZeroDivisionError m => m end.

(** What one call of the variant's [process_task] does, seen from the
    wrapper: a sequence of [update_progress] calls, then a result or an
    exception. *)
Record process_run (R : Type) := mkRun {
  progress_updates : list (Z * datetime);
  outcome : R + string;
}.
Arguments mkRun {R} _ _.
Arguments progress_updates {R} _.
Arguments outcome {R} _.

(** The dictionary [execute_task] returns. *)
Inductive task_response (R : Type) :=
  | TaskSuccess (result : R) (duration : Q) (agent : string) (completed_at : datetime)
  | TaskFailure (error : string) (agent : string) (failed_at : datetime).
Arguments TaskSuccess {R} _ _ _ _.
Arguments TaskFailure {R} _ _ _.

Definition success {R} (r : task_response R) : bool :=
  match r with TaskSuccess _ _ _ _ => true | TaskFailure _ _ _ => false end.

(** Lines 68-73: the prologue of [execute_task]. *)
Definition task_begin (task_id : string) (task_start_time : datetime) (a : t) : t :=
  {| name := name a; agent_type := agent_type a; config := config a;
     state := WORKING; current_task := Some task_id;
     current_task_progress := 0;
     last_activity := Some task_start_time; error_message := None;
     metrics := metrics a; start_time := start_time a |}.

Definition apply_updates (us : list (Z * datetime)) (a : t) : t :=
  fold_left (fun acc u => update_progress (fst u) (snd u) acc) us a.

(** Lines 82-101, the success branch after [process_task] returned.  The
    counters are bumped first; a zero [total_tasks] makes either division
    raise, with the metrics written so far kept. *)
Definition task_succeed (task_start_time now : datetime) (a : t) : (Q + exn) * t :=
  let m := metrics a in
  let task_duration := total_seconds (now - task_start_time) in
  let completed := tasks_completed m + 1 in
  let m1 := {| tasks_completed := completed; tasks_failed := tasks_failed m;
               average_task_duration := average_task_duration m;
               success_rate := success_rate m;
               last_task_completed := Some now;
               total_uptime := total_uptime m |} in
  let total_tasks := completed + tasks_failed m in
  let avg_step : option Q :=
    match average_task_duration m with
    | None => Some task_duration
    | Some avg =>
        if total_tasks =? 0 then None
        else Some ((avg * inject_Z (total_tasks - 1) + task_duration)
                   / inject_Z total_tasks)%Q
    end in
  match avg_step with
  | None => (inr (ZeroDivisionError "float division by zero"), set_metrics m1 a)
  | Some avg' =>
      let m2 := {| tasks_completed := completed; tasks_failed := tasks_failed m;
                   average_task_duration := Some avg';
                   success_rate := success_rate m;
                   last_task_completed := Some now;
                   total_uptime := total_uptime m |} in
      if total_tasks =? 0
      then (inr (ZeroDivisionError "division by zero"), set_metrics m2 a)
      else
        let m3 := {| tasks_completed := completed; tasks_failed := tasks_failed m;
                     average_task_duration := Some avg';
                     success_rate := (inject_Z completed / inject_Z total_tasks)%Q;
                     last_task_completed := Some now;
                     total_uptime := total_uptime m |} in
        (inl task_duration,
         {| name := name a; agent_type := agent_type a; config := config a;
            state := IDLE; current_task := None; current_task_progress := 100;
            last_activity := last_activity a; error_message := error_message a;
            metrics := m3; start_time := start_time a |})
  end.

(** Lines 113-129, the [except Exception as e] branch. *)
Definition task_fail (e : exn) (a : t) : t :=
  let m := metrics a in
  let failed := tasks_failed m + 1 in
  let total_tasks := tasks_completed m + failed in
  {| name := name a; agent_type := agent_type a; config := config a;
     state := ERROR; current_task := current_task a;
     current_task_progress := current_task_progress a;
     last_activity := last_activity a; error_message := Some (str e);
     metrics := {| tasks_completed := tasks_completed m; tasks_failed := failed;
                   average_task_duration := average_task_duration m;
                   success_rate :=
                     if 0 <? total_tasks
                     then (inject_Z (tasks_completed m) / inject_Z total_tasks)%Q
                     else 0%Q;
                   last_task_completed := last_task_completed m;
                   total_uptime := total_uptime m |};
     start_time := start_time a |}.

(** The part of [execute_task] that follows [process_task]: the success
    branch, or the handler when [process_task] (or the success branch itself)
    raised.  [t0] is [task_start_time], [t1] the clock at that point. *)
Definition task_end {R} (o : R + string) (t0 t1 : datetime) (a : t)
  : task_response R * t :=
  match o with
  | inl result =>
      match task_succeed t0 t1 a with
      | (inl task_duration, a2) => (TaskSuccess result task_duration (name a2) t1, a2)
      | (inr e, a2) => let a3 := task_fail e a2 in (TaskFailure (str e) (name a3) t1, a3)
      end
  | inr msg =>
      let a2 := task_fail (Raised msg) a in
      (TaskFailure msg (name a2) t1, a2)
  end.

(** [execute_task] when nothing else uses the agent while [process_task] is
    suspended: [t0] is the clock at entry, [t1] the clock when
    [process_task] has returned or raised.  The call itself consists of the
    steps [task_begin], [update_progress] and [task_end]; on an agent that
    several jobs share, the steps of other executions come between them (see
    [reachable] below), and what holds then is stated for [task_end] on the
    state the agent is in at that moment. *)
Definition execute_task {R} (task_id : string) (run : process_run R)
  (t0 t1 : datetime) (a : t) : task_response R * t :=
  task_end (outcome run) t0 t1
    (apply_updates (progress_updates run) (task_begin task_id t0 a)).

(** The health score computed inside [get_status]. *)
Definition stale (now : datetime) (a : t) : bool :=
  match last_activity a with
  | Some t => negb (Qle_bool (total_seconds (now - t)) 3600)
  | None => false
  end.

Definition compute_health_score (now : datetime) (a : t) : Q :=
  let h0 := success_rate (metrics a) in
  let h1 := if AgentState_eqb (state a) ERROR then (h0 * (1 # 2))%Q else h0 in
  if stale now a then (h1 * (4 # 5))%Q else h1.

(** [get_status]: refreshes [total_uptime], then builds the [AgentStatus],
    whose two constrained fields pydantic validates; [None] stands for its
    [ValidationError]. *)
Definition get_status (now : datetime) (a : t) : option AgentStatus * t :=
  let m := metrics a in
  let m' := {| tasks_completed := tasks_completed m; tasks_failed := tasks_failed m;
               average_task_duration := average_task_duration m;
               success_rate := success_rate m;
               last_task_completed := last_task_completed m;
               total_uptime := Some (total_seconds (now - start_time a)) |} in
  let a' := set_metrics m' a in
  let h := compute_health_score now a' in
  (if AgentStatus_fields_ok (current_task_progress a') h
   then Some {| st_name := name a'; st_agent_type := agent_type a';
                st_state := state a'; st_current_task := current_task a';
                st_current_task_progress := current_task_progress a';
                st_last_activity := last_activity a';
                st_error_message := error_message a';
                st_metrics := m'; st_configuration := config a';
                health_score := h |}
   else None, a').

(** [reset]: transient fields only, the metrics stay. *)
Definition reset (now : datetime) (a : t) : t :=
  {| name := name a; agent_type := agent_type a; config := config a;
     state := IDLE; current_task := None; current_task_progress := 0;
     last_activity := Some now; error_message := None;
     metrics := metrics a; start_time := start_time a |}.

(** The failure branch of [health_check]. *)
Definition health_check_failed (msg : string) (a : t) : t :=
  {| name := name a; agent_type := agent_type a; config := config a;
     state := ERROR; current_task := current_task a;
     current_task_progress := current_task_progress a;
     last_activity := last_activity a;
     error_message := Some ("Health check failed: " ++ msg)%string;
     metrics := metrics a; start_time := start_time a |}.




(** *** Executions of an agent *)

(** One call of [execute_task]: its arguments, what [process_task] did and
    the two clock readings. *)
Record task_exec (R : Type) := mkExec {
  te_task_id : string;
  te_run : process_run R;
  te_t0 : datetime;
  te_t1 : datetime;
}.
Arguments mkExec {R} _ _ _ _.
Arguments te_task_id {R} _.
Arguments te_run {R} _.
Arguments te_t0 {R} _.
Arguments te_t1 {R} _.

Definition exec_one {R} (a : t) (e : task_exec R) : t :=
  snd (execute_task (te_task_id e) (te_run e) (te_t0 e) (te_t1 e) a).

(** A sequence of task executions, one after the other. *)
Definition run_tasks {R} (execs : list (task_exec R)) (a : t) : t :=
  fold_left exec_one execs a.

Definition succeeded {R} (e : task_exec R) : bool :=
  match outcome (te_run e) with inl _ => true | inr _ => false end.

(** The duration [execute_task] measures for an execution. *)
Definition exec_duration {R} (e : task_exec R) : Q :=
  total_seconds (te_t1 e - te_t0 e).

(** The naive recomputation of the specification: the durations of the
    successfully completed tasks, and their arithmetic mean. *)
Definition completed_durations {R} (execs : list (task_exec R)) : list Q :=
  map exec_duration (filter (fun e => succeeded e = true) execs).

Definition Qsum (l : list Q) : Q := fold_right Qplus 0%Q l.

Definition mean (l : list Q) : Q := (Qsum l / inject_Z (Z.of_nat (length l)))%Q.

(** Every state an agent object can be in: the wrapper's steps can interleave
    between jobs that share the agent, so each step is closed separately. *)
Inductive reachable : t -> Prop :=
  | reach_init nm ty cfg now : reachable (init nm ty cfg now)
  | reach_task_begin task_id t0 a :
      reachable a -> reachable (task_begin task_id t0 a)
  | reach_update_progress p now a :
      reachable a -> reachable (update_progress p now a)
  | reach_task_end (R : Type) (o : R + string) t0 t1 a :
      reachable a -> reachable (snd (task_end o t0 t1 a))
  | reach_get_status now a :
      reachable a -> reachable (snd (get_status now a))
  | reach_reset now a :
      reachable a -> reachable (reset now a)
  | reach_health_check_failed msg a :
      reachable a -> reachable (health_check_failed msg a).

(** Three executions used as a test vector: a 10 s success, a failure, a
    20 s success. *)
Definition sample_execs : list (task_exec unit) :=
  [ mkExec "job-research" (mkRun [] (inl tt)) 0 10000000;
    mkExec "job-content" (mkRun [] (inr "provider down")) 10000000 11000000;
    mkExec "job-research" (mkRun [] (inl tt)) 20000000 40000000 ].

Definition sample_agent : t :=
  run_tasks (firstn 2 sample_execs) (init "research-agent" RESEARCH None 0).

(** The invariant behind the metrics: counters never negative, the stored
    success rate is the quotient of the counters (0 before the first task),
    and the progress is a percentage. *)
Definition metrics_ok (a : t) : Prop :=
  let m := metrics a in
  0 <= tasks_completed m /\ 0 <= tasks_failed m /\
  success_rate m =
    (if tasks_completed m + tasks_failed m =? 0 then 0%Q
     else (inject_Z (tasks_completed m)
           / inject_Z (tasks_completed m + tasks_failed m))%Q) /\
  0 <= current_task_progress a <= 100.

(** *** The health score in the words of the specification *)

(** "The last activity is more than one hour old": there is a last
    activity, and more than 3600 seconds, counted in microseconds, lie
    between it and [now]. *)
Definition older_than_one_hour (now : datetime) (last : option datetime) : bool :=
  match last with
  | Some t => 3600 * 1000000 <? now - t
  | None => false
  end.

(** "The success rate multiplied by 0.5 when the current state is Error and
    multiplied by 0.8 when the last activity is more than one hour old". *)
Definition health_spec (rate : Q) (st : AgentState) (now : datetime)
  (last : option datetime) : Q :=
  (rate
   * (match st with ERROR => 1 # 2 | _ => 1 end)
   * (if older_than_one_hour now last then 4 # 5 else 1))%Q.

End BaseAgent.

(** ** The operations of Python's [str] that the agents use *)

Module PyStr.

Definition newline : string := String "010"%char "".
Definition double_quote : string := String "034"%char "".

(** [s.split(sep)] for a non-empty separator: cut at each occurrence, left to
    right, occurrences not overlapping.  [skip] counts the characters of a
    matched separator still to be dropped, [cur] is the piece being read,
    last character first. *)
Fixpoint split_go (sep s : string) (skip : nat) (cur : list ascii) : list string :=
  match s with
  | EmptyString => [String.string_of_list_ascii (rev cur)]
  | String c s' =>
      match skip with
      | S k => split_go sep s' k cur
      | O =>
          if String.prefix sep s
          then String.string_of_list_ascii (rev cur)
               :: split_go sep s' (String.length sep - 1) []
          else split_go sep s' 0 (c :: cur)
      end
  end.

Definition split (sep s : string) : list string := split_go sep s 0 [].

(** [needle in s]. *)
Fixpoint contains (needle s : string) : bool :=
  String.prefix needle s ||
  match s with
  | EmptyString => false
  | String _ s' => contains needle s'
  end.

Definition lower_char (c : ascii) : ascii :=
  let n := nat_of_ascii c in
  if (65 <=? n)%nat && (n <=? 90)%nat then ascii_of_nat (n + 32) else c.

Fixpoint lower (s : string) : string :=
  match s with
  | EmptyString => EmptyString
  | String c s' => String (lower_char c) (lower s')
  end.

Fixpoint lstrip_chars (chars : list ascii) (s : list ascii) : list ascii :=
  match s with
  | [] => []
  | c :: s' => if bool_decide (c ∈ chars) then lstrip_chars chars s' else s
  end.

(** [s.strip(chars)]. *)
Definition strip_chars (chars s : string) : string :=
  let cs := String.list_ascii_of_string chars in
  String.string_of_list_ascii
    (rev (lstrip_chars cs (rev (lstrip_chars cs (String.list_ascii_of_string s))))).

Definition whitespace : string :=
  String.string_of_list_ascii
    (map ascii_of_nat [9; 10; 11; 12; 13; 28; 29; 30; 31; 32; 133; 160]%nat).

(** [s.strip()]. *)
Definition strip (s : string) : string := strip_chars whitespace s.

Definition startswith (s pre : string) : bool := String.prefix pre s.

Definition is_space (c : ascii) : bool :=
  bool_decide (c ∈ String.list_ascii_of_string whitespace).

(** [len(s.split())]: the number of maximal runs of characters that are not
    whitespace. *)
Fixpoint count_words_go (s : list ascii) (in_word : bool) : nat :=
  match s with
  | [] => 0
  | c :: s' =>
      if is_space c then count_words_go s' false
      else ((if in_word then 0 else 1) + count_words_go s' true)%nat
  end.

Definition count_words (s : string) : Z :=
  Z.of_nat (count_words_go (String.list_ascii_of_string s) false).

(** [any(x in s for x in xs)]. *)
Definition contains_any (xs : list string) (s : string) : bool :=
  existsb (fun x => contains x s) xs.

End PyStr.

(** ** app/agents/research_agent.py *)

Module ResearchAgent.

(** One gathered snippet. *)
Record source_entry := mkSource {
  title : string;
  url : string;
  snippet : string;
  source : string;
  relevance_score : Q;
}.

Record labelled := mkLabelled { text : string; label : string }.

(** The research bundle, the dictionary [_create_research_summary] builds. *)
Record research_summary := mkSummary {
  topic : string;
  sources : list source_entry;
  key_findings : list string;
  statistics : list labelled;
  expert_quotes : list labelled;
  trends : list string;
  research_completed_at : datetime;
  quality_score : Q;
}.

(** What [process_task] returns. *)
Record research_result := mkResult {
  research_data : research_summary;
  sources_count : Z;
  key_findings_count : Z;
  research_quality_score : Q;
}.

Record organized_findings := mkOrganized {
  organized_content : string;
  source_count : Z;
  research_depth : string;
}.

Record task_input := mkInput {
  in_task_type : option string;
  in_topic : option string;
  in_depth : option string;
}.

(** The outside as seen in one call of [process_task]: the content of the
    three completions (or the text of the exception [generate_llm_completion]
    raised), and what each search backend collected before the cut to 15
    entries (both backends swallow their own exceptions). *)
Record world := mkWorld {
  plan_answer : string + string;
  simulation_answer : string + string;
  organize_answer : string + string;
  serper_results : list source_entry;
  tavily_results : list source_entry;
}.


(** [__init__]: the base agent with the research settings. *)
Definition init (name : string) (now : datetime) : BaseAgent.t :=
  let a := BaseAgent.init name RESEARCH None now in
  let c := BaseAgent.config a in
  {| BaseAgent.name := BaseAgent.name a; BaseAgent.agent_type := BaseAgent.agent_type a;
     BaseAgent.config :=
       {| cfg_name := cfg_name c; cfg_agent_type := cfg_agent_type c;
          llm_provider := llm_provider c; model_name := model_name c;
          temperature := 3 # 10; max_tokens := 6000; timeout := timeout c;
          max_concurrent_tasks := max_concurrent_tasks c |};
     BaseAgent.state := BaseAgent.state a;
     BaseAgent.current_task := BaseAgent.current_task a;
     BaseAgent.current_task_progress := BaseAgent.current_task_progress a;
     BaseAgent.last_activity := BaseAgent.last_activity a;
     BaseAgent.error_message := BaseAgent.error_message a;
     BaseAgent.metrics := BaseAgent.metrics a;
     BaseAgent.start_time := BaseAgent.start_time a |}.


(** [_parse_simulated_research]: one entry per blank-line separated section
    longer than 50 characters, numbered by the position of the section. *)
Definition parse_section (i : nat) (section : string) : option source_entry :=
  if (50 <? String.length section)%nat then
    Some {| title := "Research Source " ++ pretty (i + 1)%nat;
            url := "https://example-source-" ++ pretty (i + 1)%nat ++ ".com";
            snippet := String.substring 0 200 section ++ "...";
            source := "llm_simulation";
            relevance_score := 7 # 10 |}%string
  else None.

Definition _parse_simulated_research (content : string) : list source_entry :=
  omap (fun p => parse_section (fst p) (snd p))
       (imap pair (PyStr.split (PyStr.newline ++ PyStr.newline)%string content)).

(** [_simulate_web_research]: the completion parsed, or its exception. *)
Definition _simulate_web_research (w : world) : list source_entry + string :=
  match simulation_answer w with
  | inl content => inl (_parse_simulated_research content)
  | inr e => inr e
  end.

(** [_conduct_web_research]: Serper when its key is set, else Tavily when its
    key is set, else the simulation. *)
Definition _conduct_web_research (settings : Settings) (w : world)
  : list source_entry + string :=
  if truthy_str (SERPER_API_KEY settings) then inl (firstn 15 (serper_results w))
  else if truthy_str (TAVILY_API_KEY settings) then inl (firstn 15 (tavily_results w))
  else _simulate_web_research w.

Definition _organize_findings (w : world) (web_results : list source_entry)
  : organized_findings + string :=
  match organize_answer w with
  | inl content =>
      inl {| organized_content := content;
             source_count := Z.of_nat (length web_results);
             research_depth :=
               if 10 <=? Z.of_nat (length web_results)
               then "comprehensive" else "moderate" |}
  | inr e => inr e
  end.

(** The text of a list item: [line.strip('- ').strip()]. *)
Definition item_text (line : string) : string :=
  PyStr.strip (PyStr.strip_chars "- " line).

(** The loop shared by [_extract_key_findings] and [_extract_trends]: a
    header line opens the section, a line naming another heading closes it,
    and dashed lines inside it are collected. *)
Definition section_items (opening : string) (closing : list string)
  (lines : list string) : list string :=
  snd (fold_left
         (fun st line =>
            let '(in_section, acc) := st in
            if PyStr.contains opening (PyStr.lower line) then (true, acc)
            else if PyStr.contains_any closing (PyStr.lower line) then (false, acc)
            else if in_section && PyStr.startswith (PyStr.strip line) "-"
                 then (in_section, acc ++ [item_text line])
                 else (in_section, acc))
         lines (false, [])).

Definition _extract_key_findings (content : string) : list string :=
  firstn 8 (section_items "key finding"
              ["statistics"; "expert"; "trends"; "research"]
              (PyStr.split PyStr.newline content)).

Definition _extract_statistics (content : string) : list labelled :=
  firstn 5
    (map (fun line => {| text := item_text line; label := "research" |})
       (List.filter
          (PyStr.contains_any
             ["%"; "percent"; "billion"; "million"; "increase"; "decrease"])
          (PyStr.split PyStr.newline content))).

Definition _extract_quotes (content : string) : list labelled :=
  firstn 3
    (map (fun line => {| text := item_text line; label := "expert" |})
       (List.filter
          (fun line => PyStr.contains PyStr.double_quote line
                       || PyStr.contains "expert" (PyStr.lower line))
          (PyStr.split PyStr.newline content))).

Definition _extract_trends (content : string) : list string :=
  firstn 5 (section_items "trend"
              ["finding"; "statistics"; "expert"; "research"]
              (PyStr.split PyStr.newline content)).

Definition _calculate_quality_score (o : organized_findings) : Q :=
  let base_score := (6 # 10)%Q in
  let base_score :=
    if 10 <=? source_count o then (base_score + (2 # 10))%Q
    else if 5 <=? source_count o then (base_score + (1 # 10))%Q
    else base_score in
  let base_score :=
    if String.eqb (research_depth o) "comprehensive"
    then (base_score + (1 # 10))%Q else base_score in
  Qmin 1 base_score.

(** [_create_research_summary]: the source list is the empty placeholder of
    the code ("would contain actual sources"). *)
Definition _create_research_summary (topic : string) (o : organized_findings)
  (now : datetime) : research_summary :=
  {| topic := topic;
     sources := [];
     key_findings := _extract_key_findings (organized_content o);
     statistics := _extract_statistics (organized_content o);
     expert_quotes := _extract_quotes (organized_content o);
     trends := _extract_trends (organized_content o);
     research_completed_at := now;
     quality_score := _calculate_quality_score o |}.

(** [process_task], as the run the wrapper sees: the progress milestones
    reached, then the result or the exception.  [clock k] is the [k]-th
    reading of the clock during the call. *)
Definition process_task (settings : Settings) (w : world) (input : task_input)
  (clock : nat -> datetime) : BaseAgent.process_run research_result :=
  let topic := default "" (in_topic input) in
  if String.eqb topic "" then
    BaseAgent.mkRun [] (inr "Topic is required for research")
  else
    match plan_answer w with
    | inr e => BaseAgent.mkRun [(5, clock 0%nat)] (inr e)
    | inl _ =>
        match _conduct_web_research settings w with
        | inr e => BaseAgent.mkRun [(5, clock 0%nat); (20, clock 1%nat)] (inr e)
        | inl web_results =>
            match _organize_findings w web_results with
            | inr e =>
                BaseAgent.mkRun
                  [(5, clock 0%nat); (20, clock 1%nat); (50, clock 2%nat)] (inr e)
            | inl organized =>
                let research_data :=
                  _create_research_summary topic organized (clock 4%nat) in
                BaseAgent.mkRun
                  [(5, clock 0%nat); (20, clock 1%nat); (50, clock 2%nat);
                   (75, clock 3%nat); (100, clock 5%nat)]
                  (inl {| research_data := research_data;
                          sources_count := Z.of_nat (length (sources research_data));
                          key_findings_count :=
                            Z.of_nat (length (key_findings research_data));
                          research_quality_score := quality_score research_data |})
            end
        end
    end.

(** A Research-agent execution: the wrapper around [process_task]. *)
Definition execute (settings : Settings) (w : world) (task_id : string)
  (input : task_input) (clock : nat -> datetime) (t0 t1 : datetime)
  (a : BaseAgent.t) : BaseAgent.task_response research_result * BaseAgent.t :=
  BaseAgent.execute_task task_id (process_task settings w input clock) t0 t1 a.

(** *** The scenario of the specification, as written *)


(** *** Test vector: no search backend, a model that answers every prompt *)

Definition sample_simulation : string :=
  ("Title: Soil health in home gardens. Healthy soil holds water and feeds roots."
   ++ PyStr.newline ++ PyStr.newline
   ++ "Title: Composting at home. About 30% of household waste can be composted."
   ++ PyStr.newline ++ PyStr.newline ++ "Sources above.")%string.

Definition sample_world : world :=
  {| plan_answer := inl "1. What is healthy soil?";
     simulation_answer := inl sample_simulation;
     organize_answer :=
       inl ("Key Findings:" ++ PyStr.newline ++ "- Soil health drives yield"
            ++ PyStr.newline ++ "Statistics:" ++ PyStr.newline
            ++ "- 30% of waste is compostable")%string;
     serper_results := [];
     tavily_results := [] |}.

Definition sample_input : task_input :=
  {| in_task_type := Some "comprehensive_research";
     in_topic := Some "Gardening"; in_depth := Some "medium" |}.

Definition sample_clock (k : nat) : datetime := Z.of_nat k * 1000000.

(** The synthesis of [sample_world]. *)
Definition sample_findings : string :=
  ("Key Findings:" ++ PyStr.newline ++ "- Soil health drives yield"
   ++ PyStr.newline ++ "Statistics:" ++ PyStr.newline
   ++ "- 30% of waste is compostable")%string.

(** Settings with both search backends configured, and a world in which the
    model refuses the simulation and Tavily has a result. *)
Definition sample_serper_settings : Settings :=
  {| OPENAI_API_KEY := Some "sk-openai"; OPENAI_MODEL := "gpt-4-turbo-preview";
     OPENAI_BASE_URL := "https://api.openai.com/v1";
     ANTHROPIC_API_KEY := None;
     ANTHROPIC_MODEL := "claude-3-sonnet-20240229";
     SERPER_API_KEY := Some "serper-key"; TAVILY_API_KEY := Some "tavily-key" |}.

Definition sample_world_offline : world :=
  {| plan_answer := plan_answer sample_world;
     simulation_answer := inr "All providers failed. Last error: None";
     organize_answer := organize_answer sample_world;
     serper_results := [];
     tavily_results :=
       [ {| title := "Soil"; url := "https://example.org/soil";
            snippet := "Soil..."; source := "tavily"; relevance_score := 7 # 10 |} ] |}.

End ResearchAgent.

(** ** app/models/book.py *)

Inductive BookStatus :=
  | PENDING | RESEARCHING | GENERATING_OUTLINE | WRITING_CONTENT | REVIEWING
  | COMPLETED | FAILED | CANCELLED.

#[export] Instance BookStatus_eq_dec : EqDecision BookStatus.
Proof. solve_decision. Defined.

Inductive BookLength := SHORT | MEDIUM | LONG.
Inductive WritingStyle := PROFESSIONAL | CASUAL | ACADEMIC | CONVERSATIONAL | TECHNICAL.
Inductive TargetAudience := GENERAL | BEGINNER | INTERMEDIATE | ADVANCED | EXPERT.

Record BookGenerationRequest := mkRequest {
  id : string;
  req_topic : string;
  target_audience : TargetAudience;
  writing_style : WritingStyle;
  book_length : BookLength;
  chapter_count : Z;
  include_examples : bool;
  include_exercises : bool;
  req_status : BookStatus;
  created_at : datetime;
}.

(** ** The artifact of app/agents/content_agent.py, as the orchestrator reads it *)

Record chapter := mkChapter {
  chapter_number : Z;
  ch_title : string;
  ch_content : string;
  ch_word_count : Z;
  ch_sections : list string;
  key_takeaways : list string;
  ch_generated_at : datetime;
}.

(** The book dictionary of [_assemble_book].  The four keys the quality
    review reads with [.get] are optional here, so that a missing key, [None]
    and an empty value can be told apart as Python does. *)
Record book_dict := mkBook {
  bk_title : string;
  bk_subtitle : string;
  bk_description : string;
  table_of_contents : list (string * Z);
  introduction : option string;
  chapters : option (list chapter);
  conclusion : option string;
  word_count : option Z;
  page_count : Z;
  generated_at : datetime;
}.

Record outline_dict := mkOutline {
  ol_title : string;
  ol_subtitle : string;
  ol_description : string;
  ol_chapters : list (string * list string);
}.

(** What the Content agent's [process_task] returns for a full book. *)
Record content_result := mkContent {
  book_content : book_dict;
  outline : outline_dict;
  cr_word_count : Z;
  cr_chapter_count : Z;
}.

(** ** app/agents/content_agent.py: the assembly of the artifact *)

Module ContentAgent.

(** [_generate_toc]: page numbers accumulate 250 words per page, at least
    one page per part, starting after the introduction. *)
Definition _generate_toc (introduction : string) (chs : list chapter)
  : list (string * Z) :=
  let start := Z.max 1 (PyStr.count_words introduction / 250) in
  let '(entries, current_page) :=
    fold_left
      (fun st ch =>
         let '(acc, page) := st in
         (acc ++ [("Chapter " ++ pretty (chapter_number ch) ++ ": "
                   ++ ch_title ch, page + 1)%string],
          page + 1 + Z.max 1 (ch_word_count ch / 250)))
      chs ([("Introduction", 1)], start) in
  entries ++ [("Conclusion", current_page + 1)].

(** [_assemble_book]. *)
Definition _assemble_book (ol : outline_dict) (intro : string)
  (chs : list chapter) (concl : string) (now : datetime) : book_dict :=
  let total_word_count :=
    PyStr.count_words intro
    + fold_right Z.add 0 (map ch_word_count chs)
    + PyStr.count_words concl in
  {| bk_title := ol_title ol; bk_subtitle := ol_subtitle ol;
     bk_description := ol_description ol;
     table_of_contents := _generate_toc intro chs;
     introduction := Some intro; chapters := Some chs;
     conclusion := Some concl;
     word_count := Some total_word_count;
     page_count := Z.max 1 (total_word_count / 250);
     generated_at := now |}.

(** The dictionary [_generate_complete_book] returns once the parts are
    written. *)
Definition complete_book (ol : outline_dict) (intro : string)
  (chs : list chapter) (concl : string) (now : datetime) : content_result :=
  let bc := _assemble_book ol intro chs concl now in
  {| book_content := bc; outline := ol;
     cr_word_count := default 0 (word_count bc);
     cr_chapter_count := Z.of_nat (length chs) |}.

(** [ContentGenerationAgent.__init__]: the base agent with the writing
    settings. *)
Definition init (name : string) (now : datetime) : BaseAgent.t :=
  let a := BaseAgent.init name CONTENT_GENERATION None now in
  let c := BaseAgent.config a in
  {| BaseAgent.name := BaseAgent.name a; BaseAgent.agent_type := BaseAgent.agent_type a;
     BaseAgent.config :=
       {| cfg_name := cfg_name c; cfg_agent_type := cfg_agent_type c;
          llm_provider := llm_provider c; model_name := model_name c;
          temperature := 7 # 10; max_tokens := 6000; timeout := timeout c;
          max_concurrent_tasks := max_concurrent_tasks c |};
     BaseAgent.state := BaseAgent.state a;
     BaseAgent.current_task := BaseAgent.current_task a;
     BaseAgent.current_task_progress := BaseAgent.current_task_progress a;
     BaseAgent.last_activity := BaseAgent.last_activity a;
     BaseAgent.error_message := BaseAgent.error_message a;
     BaseAgent.metrics := BaseAgent.metrics a;
     BaseAgent.start_time := BaseAgent.start_time a |}.

(** *** [_parse_outline] *)

(** [s.split(':', 1)[1]]: what follows the first colon; [None] is the
    [IndexError] on a string without a colon. *)
Fixpoint after_colon (s : string) : option string :=
  match s with
  | EmptyString => None
  | String c s' => if Ascii.eqb c ":"%char then Some s' else after_colon s'
  end.

(** [s.split(':', 1)[1].strip()] where the code has checked for a colon. *)
Definition colon_value (s : string) : string :=
  PyStr.strip (default "" (after_colon s)).

(** An entry of the outline's chapter list. *)
Record chapter_outline := mkChapterOutline {
  co_title : string;
  co_description : string;
  co_key_points : list string;
  estimated_word_count : Z;
}.

(** The dictionary [_parse_outline] returns. *)
Record parsed_outline := mkParsed {
  po_title : string;
  po_subtitle : string;
  po_description : string;
  po_chapters : list chapter_outline;
  estimated_page_count : Z;
}.

(** Lines 296-302: one of the first ten lines, read for title, subtitle and
    description, in this order of tests. *)
Definition header_step (st : string * string * string) (line : string)
  : string * string * string :=
  let '(title, subtitle, description) := st in
  if PyStr.contains "title:" (PyStr.lower line)
  then (colon_value line, subtitle, description)
  else if PyStr.contains "subtitle:" (PyStr.lower line)
  then (title, colon_value line, description)
  else if PyStr.contains "description:" (PyStr.lower line)
  then (title, subtitle, colon_value line)
  else st.

(** [s.startswith(tuple('12345678910'))]: the first character is a digit. *)
Definition starts_with_digit (s : string) : bool :=
  match s with
  | EmptyString => false
  | String c _ => let n := nat_of_ascii c in (48 <=? n)%nat && (n <=? 57)%nat
  end.

(** Lines 307-309, on the stripped line. *)
Definition is_chapter_line (chapter_match : string) : bool :=
  PyStr.startswith chapter_match "Chapter"
  || PyStr.startswith chapter_match "chapter"
  || (starts_with_digit chapter_match && PyStr.contains ":" chapter_match).

(** Lines 305-330: one line of the chapter loop; the state is the list
    [chapters] and [current_chapter]. *)
Definition chapter_step (st : list chapter_outline * option chapter_outline)
  (line : string) : list chapter_outline * option chapter_outline :=
  let '(chs, current_chapter) := st in
  let chapter_match := PyStr.strip line in
  if is_chapter_line chapter_match then
    let chs := match current_chapter with
               | Some c => chs ++ [c]
               | None => chs
               end in
    let chapter_title :=
      if PyStr.contains ":" chapter_match then colon_value chapter_match
      else chapter_match in
    (chs, Some {| co_title := chapter_title; co_description := "";
                  co_key_points := []; estimated_word_count := 3000 |})
  else
    match current_chapter with
    | Some c =>
        if PyStr.startswith (PyStr.strip line) "-" then
          let point := PyStr.strip (PyStr.strip_chars "- " line) in
          if (10 <? String.length point)%nat
          then (chs, Some {| co_title := co_title c;
                             co_description := co_description c;
                             co_key_points := co_key_points c ++ [point];
                             estimated_word_count := estimated_word_count c |})
          else st
        else st
    | None => st
    end.

Definition _parse_outline (outline_text topic : string) : parsed_outline :=
  let lines := PyStr.split PyStr.newline outline_text in
  let '(title, subtitle, description) :=
    fold_left header_step (firstn 10 lines) (topic, "", "") in
  let '(chs, current_chapter) := fold_left chapter_step lines ([], None) in
  let chs := match current_chapter with
             | Some c => chs ++ [c]
             | None => chs
             end in
  {| po_title := title; po_subtitle := subtitle;
     po_description :=
       if String.eqb description ""
       then ("A comprehensive guide to " ++ topic)%string else description;
     po_chapters := chs;
     estimated_page_count := Z.of_nat (length chs) * 12 |}.

(** An outline as a model writes it. *)
Definition sample_outline_text : string :=
  ("Title: The Living Garden" ++ PyStr.newline
   ++ "Subtitle: Soil, Water and Light" ++ PyStr.newline
   ++ "Description: How a garden works." ++ PyStr.newline
   ++ "Chapter 1: Soil" ++ PyStr.newline
   ++ "- Why soil structure matters" ++ PyStr.newline
   ++ "- Compost" ++ PyStr.newline
   ++ "2. Water: how much and when")%string.

End ContentAgent.

(** ** app/services/book_generation_service.py *)

Module BookGenerationService.

(** An entry of [active_generations]. *)
Record gen_data := mkGen {
  request : BookGenerationRequest;
  status : BookStatus;
  progress : Z;
  current_stage : string;
  started_at : datetime;
  estimated_completion : datetime;
  stages_completed : list string;
  errors : list string;
  updated_at : option datetime;
  error : option string;
  message : option string;
}.

(** An entry of [completed_books]. *)
Record book_data := mkBookData {
  bd_request : BookGenerationRequest;
  bd_research_data : ResearchAgent.research_summary;
  bd_book_content : book_dict;
  bd_outline : outline_dict;
  quality_score : Q;
  completed_at : datetime;
  generation_time : Q;
}.

(** The two job tables.  [status_log] is a history variable, not a field of
    the Python object: it records, in order, every assignment to the status
    key of an entry of [active_generations]. *)
Record t := mk {
  active_generations : gmap string gen_data;
  completed_books : gmap string book_data;
  status_log : list (string * BookStatus);
}.

(** [__init__]. *)
Definition init : t :=
  {| active_generations := ∅; completed_books := ∅; status_log := [] |}.

(** [_update_book_status]: only an entry of the active table is updated;
    [progress] is written when it is not [None]. *)
Definition _update_book_status (book_id : string) (new_status : BookStatus)
  (new_progress : option Z) (msg : string) (now : datetime) (s : t) : t :=
  match active_generations s !! book_id with
  | Some g =>
      {| active_generations :=
           <[book_id :=
               {| request := request g; status := new_status;
                  progress := default (progress g) new_progress;
                  current_stage := msg; started_at := started_at g;
                  estimated_completion := estimated_completion g;
                  stages_completed := stages_completed g; errors := errors g;
                  updated_at := Some now; error := error g;
                  message := message g |}]> (active_generations s);
         completed_books := completed_books s;
         status_log := status_log s ++ [(book_id, new_status)] |}
  | None => s
  end.

(** Python truthiness of an optional list. *)
Definition truthy_list {A} (o : option (list A)) : bool :=
  match o with Some (_ :: _) => true | _ => false end.

(** [_perform_quality_review].  The result of the Content agent always
    carries the book dictionary, so the default of the first [.get] is never
    taken; the defaults of the inner [.get]s are kept. *)
Definition _perform_quality_review (cr : content_result) : Q :=
  let bc := book_content cr in
  let wc := default 0 (word_count bc) in
  let cc := Z.of_nat (length (default [] (chapters bc))) in
  let quality_score := (7 # 10)%Q in
  let quality_score :=
    if 15000 <=? wc then (quality_score + (15 # 100))%Q
    else if 8000 <=? wc then (quality_score + (1 # 10))%Q
    else quality_score in
  let quality_score :=
    if (5 <=? cc) && (cc <=? 12) then (quality_score + (1 # 10))%Q
    else quality_score in
  let quality_score :=
    if truthy_str (introduction bc) && truthy_list (chapters bc)
       && truthy_str (conclusion bc)
    then (quality_score + (5 # 100))%Q else quality_score in
  Qmin 1 quality_score.

(** Lines 37-50: the entry is created with status Pending and the first
    status update follows at once. *)
Definition start_generation (req : BookGenerationRequest) (now : datetime) (s : t) : t :=
  let book_id := id req in
  _update_book_status book_id RESEARCHING (Some 5) "Starting research phase" now
    {| active_generations :=
         <[book_id :=
             {| request := req; status := PENDING; progress := 0;
                current_stage := "initializing"; started_at := now;
                estimated_completion := now + 15 * 60 * 1000000;
                stages_completed := []; errors := [];
                updated_at := None; error := None; message := None |}]>
           (active_generations s);
       completed_books := completed_books s;
       status_log := status_log s ++ [(book_id, PENDING)] |}.

(** Lines 113-118: the handler of [generate_book_async]. *)
Definition on_exception (book_id : string) (e : string) (now : datetime) (s : t) : t :=
  let s1 := _update_book_status book_id FAILED None
              ("Generation failed: " ++ e)%string now s in
  match active_generations s1 !! book_id with
  | Some g =>
      {| active_generations :=
           <[book_id :=
               {| request := request g; status := status g;
                  progress := progress g; current_stage := current_stage g;
                  started_at := started_at g;
                  estimated_completion := estimated_completion g;
                  stages_completed := stages_completed g; errors := errors g;
                  updated_at := updated_at g; error := Some e;
                  message := message g |}]> (active_generations s1);
         completed_books := completed_books s1;
         status_log := status_log s1 |}
  | None => s1
  end.

(** Lines 62-65: what follows the return of the Research agent. *)
Definition after_research (req : BookGenerationRequest)
  (research_result : BaseAgent.task_response ResearchAgent.research_result)
  (now : datetime) (s : t) : t :=
  match research_result with
  | BaseAgent.TaskFailure err _ _ =>
      on_exception (id req) ("Research failed: " ++ err)%string now s
  | BaseAgent.TaskSuccess _ _ _ _ =>
      _update_book_status (id req) GENERATING_OUTLINE (Some 30)
        "Research completed, generating outline" now s
  end.

(** Lines 85-118: what follows the return of the Content agent.  The lookup
    of [started_at] raises [KeyError] when the entry has left the active
    table; the handler then finds nothing to update. *)
Definition after_content (req : BookGenerationRequest)
  (research : ResearchAgent.research_result)
  (content_res : BaseAgent.task_response content_result)
  (now : datetime) (s : t) : t :=
  let book_id := id req in
  match content_res with
  | BaseAgent.TaskFailure err _ _ =>
      on_exception book_id ("Content generation failed: " ++ err)%string now s
  | BaseAgent.TaskSuccess cr _ _ _ =>
      let s1 := _update_book_status book_id REVIEWING (Some 85)
                  "Content generated, reviewing quality" now s in
      let q := _perform_quality_review cr in
      let s2 := _update_book_status book_id COMPLETED (Some 100)
                  "Book generation completed" now s1 in
      match active_generations s2 !! book_id with
      | None => on_exception book_id ("'" ++ book_id ++ "'")%string now s2
      | Some g =>
          {| active_generations := delete book_id (active_generations s2);
             completed_books :=
               <[book_id :=
                   {| bd_request := req;
                      bd_research_data := ResearchAgent.research_data research;
                      bd_book_content := book_content cr;
                      bd_outline := outline cr;
                      quality_score := q;
                      completed_at := now;
                      generation_time := total_seconds (now - started_at g) |}]>
                 (completed_books s2);
             status_log := status_log s2 |}
      end
  end.

(** [generate_book_async] when nothing else runs in between: [t0], [t1],
    [t2] are the clock at entry and at the return of each agent. *)
Definition generate_book_async (req : BookGenerationRequest)
  (research_result : BaseAgent.task_response ResearchAgent.research_result)
  (content_res : BaseAgent.task_response content_result)
  (t0 t1 t2 : datetime) (s : t) : t :=
  let s1 := after_research req research_result t1 (start_generation req t0 s) in
  match research_result with
  | BaseAgent.TaskFailure _ _ _ => s1
  | BaseAgent.TaskSuccess research _ _ _ => after_content req research content_res t2 s1
  end.

(** [delete_book]. *)
Definition delete_book (book_id : string) (s : t) : bool * t :=
  match active_generations s !! book_id with
  | Some _ =>
      (true, {| active_generations := delete book_id (active_generations s);
                completed_books := completed_books s;
                status_log := status_log s |})
  | None =>
      match completed_books s !! book_id with
      | Some _ =>
          (true, {| active_generations := active_generations s;
                    completed_books := delete book_id (completed_books s);
                    status_log := status_log s |})
      | None => (false, s)
      end
  end.

(** [cancel_generation]. *)
Definition cancel_generation (book_id : string) (s : t) : bool * t :=
  match active_generations s !! book_id with
  | Some g =>
      (true,
       {| active_generations :=
            <[book_id :=
                {| request := request g; status := CANCELLED;
                   progress := progress g; current_stage := current_stage g;
                   started_at := started_at g;
                   estimated_completion := estimated_completion g;
                   stages_completed := stages_completed g; errors := errors g;
                   updated_at := updated_at g; error := error g;
                   message := Some "Generation cancelled by user" |}]>
              (active_generations s);
          completed_books := completed_books s;
          status_log := status_log s ++ [(book_id, CANCELLED)] |})
  | None => (false, s)
  end.

(** The [BookGenerationResponse] of app/models/book.py as the service fills
    it; the four detail fields (outline, research data, content, review) are
    never set. *)
Record BookGenerationResponse := mkResponse {
  rsp_id : string;
  rsp_topic : string;
  rsp_status : BookStatus;
  rsp_progress : Z;
  rsp_created_at : datetime;
  rsp_started_at : option datetime;
  rsp_completed_at : option datetime;
  rsp_estimated_completion : option datetime;
  rsp_message : option string;
  rsp_error_message : option string;
}.

(** What a call of [get_book] yields: a response, [None], or the
    [ValidationError] pydantic raises for a progress outside 0..100. *)
Inductive get_book_result :=
  | Found (r : BookGenerationResponse)
  | NotFound
  | ValidationError.

(** [get_book]: the active table is looked up first. *)
Definition get_book (book_id : string) (s : t) : get_book_result :=
  match active_generations s !! book_id with
  | Some g =>
      if (0 <=? progress g) && (progress g <=? 100) then
        Found {| rsp_id := book_id; rsp_topic := req_topic (request g);
                 rsp_status := status g; rsp_progress := progress g;
                 rsp_created_at := created_at (request g);
                 rsp_started_at := Some (started_at g);
                 rsp_completed_at := None;
                 rsp_estimated_completion := Some (estimated_completion g);
                 rsp_message := Some (current_stage g);
                 rsp_error_message := error g |}
      else ValidationError
  | None =>
      match completed_books s !! book_id with
      | Some b =>
          Found {| rsp_id := book_id; rsp_topic := req_topic (bd_request b);
                   rsp_status := COMPLETED; rsp_progress := 100;
                   rsp_created_at := created_at (bd_request b);
                   rsp_started_at := None;
                   rsp_completed_at := Some (completed_at b);
                   rsp_estimated_completion := None;
                   rsp_message := Some "Book generation completed successfully";
                   rsp_error_message := None |}
      | None => NotFound
      end
  end.

(** [get_book_content]. *)
Definition get_book_content (book_id : string) (s : t) : option book_dict :=
  option_map bd_book_content (completed_books s !! book_id).

(** What an entry of the active table looks like whenever a client can read
    it, that is between two segments of the pipelines. *)
Definition visible (g : gen_data) : Prop :=
  (status g = RESEARCHING /\ progress g = 5) \/
  (status g = GENERATING_OUTLINE /\ progress g = 30) \/
  (status g = FAILED /\ (progress g = 5 \/ progress g = 30) /\ is_Some (error g)) \/
  (status g = CANCELLED /\ (progress g = 5 \/ progress g = 30)).

Definition entries_visible (s : t) : Prop :=
  forall book_id g, active_generations s !! book_id = Some g -> visible g.

(** The status [get_book] reports. *)
Definition book_status (book_id : string) (s : t) : option BookStatus :=
  match active_generations s !! book_id with
  | Some g => Some (status g)
  | None =>
      match completed_books s !! book_id with
      | Some _ => Some COMPLETED
      | None => None
      end
  end.

(** The statuses written for one job, oldest first. *)
Definition statuses_of (book_id : string) (s : t) : list BookStatus :=
  map snd (List.filter (fun e => String.eqb (fst e) book_id) (status_log s)).

(** The position of a status in the lifecycle
    Pending, Researching, GeneratingOutline, WritingContent, Reviewing,
    then the terminal states. *)
Definition rank (st : BookStatus) : Z :=
  match st with
  | PENDING => 0 | RESEARCHING => 1 | GENERATING_OUTLINE => 2
  | WRITING_CONTENT => 3 | REVIEWING => 4
  | COMPLETED => 5 | FAILED => 5 | CANCELLED => 5
  end.

Fixpoint strictly_forward (l : list BookStatus) : bool :=
  match l with
  | a :: (b :: _) as rest => (rank a <? rank b) && strictly_forward rest
  | _ => true
  end.

(** *** The orchestrator under cooperative scheduling

    Each job runs [generate_book_async] as a background task that is
    suspended twice, while an agent works.  Between two suspension points a
    task runs alone, so the tables change by whole segments
    ([start_generation], [after_research], [after_content]) interleaved with
    the calls of [delete_book] and [cancel_generation] made by clients. *)

Inductive stage :=
  | AwaitingResearch
  | AwaitingContent (research : ResearchAgent.research_result)
  | Finished.

Record task := mkTask {
  task_request : BookGenerationRequest;
  task_stage : stage;
}.

Record system := mkSystem {
  svc : t;
  tasks : list task;
}.

Inductive event :=
  | Submit (req : BookGenerationRequest) (now : datetime)
  | ResearchReturns (k : nat)
      (res : BaseAgent.task_response ResearchAgent.research_result) (now : datetime)
  | ContentReturns (k : nat)
      (res : BaseAgent.task_response content_result) (now : datetime)
  | Delete (book_id : string)
  | Cancel (book_id : string).

Definition initial : system := {| svc := init; tasks := [] |}.

(** One scheduling step.  An event for a task that is not waiting for it does
    nothing. *)
Definition apply_event (sys : system) (ev : event) : system :=
  match ev with
  | Submit req now =>
      {| svc := start_generation req now (svc sys);
         tasks := tasks sys ++ [mkTask req AwaitingResearch] |}
  | ResearchReturns k res now =>
      match tasks sys !! k with
      | Some (mkTask req AwaitingResearch) =>
          {| svc := after_research req res now (svc sys);
             tasks :=
               <[k := mkTask req
                        match res with
                        | BaseAgent.TaskSuccess r _ _ _ => AwaitingContent r
                        | BaseAgent.TaskFailure _ _ _ => Finished
                        end]> (tasks sys) |}
      | _ => sys
      end
  | ContentReturns k res now =>
      match tasks sys !! k with
      | Some (mkTask req (AwaitingContent r)) =>
          {| svc := after_content req r res now (svc sys);
             tasks := <[k := mkTask req Finished]> (tasks sys) |}
      | _ => sys
      end
  | Delete book_id =>
      {| svc := snd (delete_book book_id (svc sys)); tasks := tasks sys |}
  | Cancel book_id =>
      {| svc := snd (cancel_generation book_id (svc sys)); tasks := tasks sys |}
  end.

Definition run (events : list event) (sys : system) : system :=
  fold_left apply_event events sys.

(** The job ids handed to the orchestrator.  Its only caller,
    [create_book] of app/api/books.py, draws each one with [uuid4()], so the
    properties of runs are stated for ids that do not repeat. *)
Definition submitted (events : list event) : list string :=
  omap (fun ev => match ev with Submit req _ => Some (id req) | _ => None end) events.

Definition holds {A} (m : gmap string A) (book_id : string) : bool :=
  match m !! book_id with Some _ => true | None => false end.

(** The step from [before] to [after] puts [book_id] into the completed
    table. *)
Definition enters_completed (book_id : string) (before after : system) : bool :=
  negb (holds (completed_books (svc before)) book_id)
  && holds (completed_books (svc after)) book_id.

(** How many steps of a run put [book_id] into the completed table. *)
Fixpoint completions (book_id : string) (events : list event) (sys : system) : nat :=
  match events with
  | [] => 0
  | ev :: rest =>
      ((if enters_completed book_id sys (apply_event sys ev) then 1 else 0)
       + completions book_id rest (apply_event sys ev))%nat
  end.

(** A step that puts [book_id] into the completed table is the last segment
    of that job's own task, after a successful Content agent: it finds the
    entry in the active table, has just set it Completed, and removes it. *)
Definition move_at_success (book_id : string) (before : system) (ev : event)
  (after : system) : Prop :=
  enters_completed book_id before after = true ->
  holds (active_generations (svc before)) book_id = true /\
  holds (active_generations (svc after)) book_id = false /\
  last (statuses_of book_id (svc after)) = Some COMPLETED /\
  exists k req cr d a c now r,
    ev = ContentReturns k (BaseAgent.TaskSuccess cr d a c) now /\
    tasks before !! k = Some (mkTask req (AwaitingContent r)) /\
    id req = book_id.

Definition task_ids (sys : system) : list string :=
  map (fun tk => id (task_request tk)) (tasks sys).

(** The job's own task has run to its end. *)
Definition finished (book_id : string) (sys : system) : Prop :=
  exists k tk,
    tasks sys !! k = Some tk /\ id (task_request tk) = book_id /\
    task_stage tk = Finished.

(** The invariant of the job store: no id in both tables, and every stored
    id is the id of a submitted job. *)
Definition store_ok (sys : system) : Prop :=
  dom (active_generations (svc sys)) ## dom (completed_books (svc sys)) /\
  forall book_id,
    book_id ∈ dom (active_generations (svc sys))
    \/ book_id ∈ dom (completed_books (svc sys)) ->
    book_id ∈ task_ids sys.

(** A property of every step of a run. *)
Fixpoint every_step (P : system -> event -> system -> Prop)
  (events : list event) (sys : system) : Prop :=
  match events with
  | [] => True
  | ev :: rest =>
      P sys ev (apply_event sys ev) /\ every_step P rest (apply_event sys ev)
  end.

(** A request as the HTTP layer builds it. *)
Definition sample_request (book_id : string) : BookGenerationRequest :=
  {| id := book_id; req_topic := "Gardening"; target_audience := GENERAL;
     writing_style := PROFESSIONAL; book_length := MEDIUM; chapter_count := 8;
     include_examples := true; include_exercises := false;
     req_status := PENDING; created_at := 0 |}.

Definition sample_research : ResearchAgent.research_result :=
  {| ResearchAgent.research_data :=
       ResearchAgent._create_research_summary "Gardening"
         {| ResearchAgent.organized_content := "";
            ResearchAgent.source_count := 0;
            ResearchAgent.research_depth := "moderate" |} 0;
     ResearchAgent.sources_count := 0;
     ResearchAgent.key_findings_count := 0;
     ResearchAgent.research_quality_score := 6 # 10 |}.

Definition sample_chapter (n : Z) : chapter :=
  {| chapter_number := n; ch_title := "Soil"; ch_content := "Soil matters.";
     ch_word_count := 2000; ch_sections := []; key_takeaways := [];
     ch_generated_at := 3 |}.

Definition sample_content : content_result :=
  {| book_content :=
       {| bk_title := "Gardening"; bk_subtitle := ""; bk_description := "";
          table_of_contents := [];
          introduction := Some "Welcome.";
          chapters := Some (map sample_chapter [1; 2; 3; 4; 5; 6; 7; 8]);
          conclusion := Some "Goodbye.";
          word_count := Some 16004; page_count := 64; generated_at := 4 |};
     outline := {| ol_title := "Gardening"; ol_subtitle := "";
                   ol_description := ""; ol_chapters := [] |};
     cr_word_count := 16004; cr_chapter_count := 8 |}.

(** Two jobs: the first is cancelled while the Content agent works and still
    completes; the second fails in research and is deleted. *)
Definition sample_events : list event :=
  [ Submit (sample_request "job-1") 0;
    Submit (sample_request "job-2") 1;
    ResearchReturns 0 (BaseAgent.TaskSuccess sample_research 1 "research-agent" 2) 2;
    ResearchReturns 1 (BaseAgent.TaskFailure "provider down" "research-agent" 3) 3;
    Cancel "job-1";
    ContentReturns 0 (BaseAgent.TaskSuccess sample_content 1 "content-agent" 4) 4;
    Delete "job-2" ].

(** The same job id handed to the orchestrator a second time, after the
    first job has completed. *)
Definition reuse_events : list event :=
  [ Submit (sample_request "job-1") 0;
    ResearchReturns 0 (BaseAgent.TaskSuccess sample_research 1 "research-agent" 1) 1;
    ContentReturns 0 (BaseAgent.TaskSuccess sample_content 1 "content-agent" 2) 2;
    Submit (sample_request "job-1") 3 ].

(** The statuses the pipeline itself wrote for a job: every status write
    except the Cancelled that [cancel_generation] writes for a client. *)
Definition pipeline_statuses (book_id : string) (s : t) : list BookStatus :=
  List.filter (fun st => negb (bool_decide (st = CANCELLED))) (statuses_of book_id s).

(** The sequences of statuses a pipeline can have written. *)
Definition pipeline_paths : list (list BookStatus) :=
  [ [];
    [PENDING; RESEARCHING];
    [PENDING; RESEARCHING; FAILED];
    [PENDING; RESEARCHING; GENERATING_OUTLINE];
    [PENDING; RESEARCHING; GENERATING_OUTLINE; FAILED];
    [PENDING; RESEARCHING; GENERATING_OUTLINE; REVIEWING; COMPLETED] ].

(** What the stage of a job's task says about the statuses written so far. *)
Definition stage_statuses (book_id : string) (sys : system) (st : stage) : Prop :=
  let l := pipeline_statuses book_id (svc sys) in
  match st with
  | AwaitingResearch => l = [PENDING; RESEARCHING]
  | AwaitingContent _ =>
      (book_id ∈ dom (active_generations (svc sys)) ->
       l = [PENDING; RESEARCHING; GENERATING_OUTLINE]) /\
      (l = [PENDING; RESEARCHING] \/ l = [PENDING; RESEARCHING; GENERATING_OUTLINE])
  | Finished => l ∈ pipeline_paths /\ l <> []
  end.

Definition statuses_ok (book_id : string) (sys : system) : Prop :=
  (book_id ∉ task_ids sys -> statuses_of book_id (svc sys) = []) /\
  forall k tk,
    tasks sys !! k = Some tk -> id (task_request tk) = book_id ->
    stage_statuses book_id sys (task_stage tk).

(** *** The statement of the specification, as written *)

(** "The status sequence moves strictly forward [...]: it never transitions
    backward and never skips the Researching or WritingContent stages before
    reaching Completed." *)
Definition success_path_as_specified (l : list BookStatus) : Prop :=
  strictly_forward l = true /\ last l = Some COMPLETED /\
  RESEARCHING ∈ l /\ WRITING_CONTENT ∈ l.

(** The score of the quality review in the words of the specification. *)
Definition quality_spec (words chapter_count : Z)
  (has_introduction has_chapters has_conclusion : bool) : Q :=
  Qmin 1
    ((7 # 10)
     + (if 15000 <=? words then 15 # 100
        else if 8000 <=? words then 1 # 10 else 0)
     + (if (5 <=? chapter_count) && (chapter_count <=? 12) then 1 # 10 else 0)
     + (if has_introduction && has_chapters && has_conclusion
        then 5 # 100 else 0))%Q.

(** "Introduction, chapters, and conclusion are all non-empty": a text of
    at least one character, a list of at least one chapter; a part that the
    artifact does not have counts as empty. *)
Definition nonempty_text (o : option string) : bool :=
  match o with
  | Some s => (0 <? String.length s)%nat
  | None => false
  end.

Definition nonempty_chapters (o : option (list chapter)) : bool :=
  match o with
  | Some l => (0 <? length l)%nat
  | None => false
  end.

(** "At every reachable state of the orchestrator, each job id is held by
    at most one of the active table and the completed table", the reachable
    states being those of all runs. *)
Definition one_table_per_job : Prop :=
  forall events book_id,
    holds (active_generations (svc (run events initial))) book_id
    && holds (completed_books (svc (run events initial))) book_id = false.

(** The job has reached its terminal success: the status Completed has been
    written for it. *)
Definition reached_completed (book_id : string) (s : t) : bool :=
  bool_decide (COMPLETED ∈ statuses_of book_id s).

(** The converse of [move_at_success]: the successful return of the Content
    agent to the job's own pipeline, with the entry still in the active
    table, is the terminal success, and it moves the record to the completed
    table. *)
Definition success_moves (book_id : string) (before : system) (ev : event)
  (after : system) : Prop :=
  forall k req cr d a c now r,
    ev = ContentReturns k (BaseAgent.TaskSuccess cr d a c) now ->
    tasks before !! k = Some (mkTask req (AwaitingContent r)) ->
    id req = book_id ->
    holds (active_generations (svc before)) book_id = true ->
    enters_completed book_id before after = true /\
    holds (active_generations (svc after)) book_id = false /\
    option_map bd_book_content (completed_books (svc after) !! book_id)
    = Some (book_content cr) /\
    reached_completed book_id (svc after) = true.

End BookGenerationService.

(** ** app/agents/agent_coordinator.py *)

Module AgentCoordinator.

(** The coordinator owns agents of its own: they are not the agents of the
    orchestrator, which builds a second pair. *)
Record t := mk {
  agents : list (string * BaseAgent.t);
  system_start_time : datetime;
  total_books_generated : Z;
}.

(** [__init__] with [_initialize_agents]; the clock is read once by the
    coordinator and once by each agent's constructor. *)
Definition init (now now_research now_content : datetime) : t :=
  {| agents := [("research", ResearchAgent.init "research-agent" now_research);
                ("content", ContentAgent.init "content-agent" now_content)];
     system_start_time := now; total_books_generated := 0 |}.

Definition set_agents (l : list (string * BaseAgent.t)) (c : t) : t :=
  {| agents := l; system_start_time := system_start_time c;
     total_books_generated := total_books_generated c |}.

(** The loop [for agent in self.agents.values(): agent.get_status()] of
    [get_all_agent_statuses], [get_system_stats] and [get_detailed_metrics]:
    the statuses that could be built ([None] where [get_status] raised), and
    the agents with their uptime refreshed.  [clock k] is the clock read for
    the [k]-th agent. *)
Fixpoint poll (clock : nat -> datetime) (k : nat) (l : list (string * BaseAgent.t))
  : list (option AgentStatus) * list (string * BaseAgent.t) :=
  match l with
  | [] => ([], [])
  | (agent_name, agent) :: rest =>
      let r := BaseAgent.get_status (clock k) agent in
      let rs := poll clock (S k) rest in
      (fst r :: fst rs, (agent_name, snd r) :: snd rs)
  end.

(** Line 118: an agent counts as healthy when its status could be built,
    its state is not ERROR and its health score exceeds 0.5. *)
Definition counts_as_healthy (st : option AgentStatus) : bool :=
  match st with
  | Some status =>
      negb (AgentState_eqb (st_state status) ERROR)
      && negb (Qle_bool (health_score status) (1 # 2))
  | None => false
  end.

(** The dictionary of [get_system_stats]; [uptime] holds the whole seconds
    given to [timedelta], whose [str] is what the code returns. *)
Record system_stats := mkStats {
  ss_status : string;
  total_books : Z;
  active_generations : Z;
  uptime : Z;
  healthy_agents : Z;
  total_agents : Z;
}.

Definition get_system_stats (now : datetime) (clock : nat -> datetime) (c : t)
  : system_stats * t :=
  let polled := poll clock 0 (agents c) in
  let healthy := Z.of_nat (length (List.filter counts_as_healthy (fst polled))) in
  let total := Z.of_nat (length (agents c)) in
  ({| ss_status :=
        if healthy =? total then "healthy"
        else if 0 <? healthy then "degraded" else "critical";
      total_books := total_books_generated c;
      active_generations := 0;
      uptime := Z.quot (now - system_start_time c) 1000000;
      healthy_agents := healthy;
      total_agents := total |},
   set_agents (snd polled) c).

(** [get_agent_status]: the status of one agent, [None] when there is no
    such agent or [get_status] raised. *)
Definition get_agent_status (agent_name : string) (now : datetime) (c : t)
  : option AgentStatus * t :=
  match List.find (fun p => String.eqb (fst p) agent_name) (agents c) with
  | Some (_, agent) =>
      (fst (BaseAgent.get_status now agent),
       set_agents
         (map (fun p => if String.eqb (fst p) agent_name
                        then (fst p, snd (BaseAgent.get_status now (snd p))) else p)
            (agents c)) c)
  | None => (None, c)
  end.

(** [reset_agent]. *)
Definition reset_agent (agent_name : string) (now : datetime) (c : t) : bool * t :=
  match List.find (fun p => String.eqb (fst p) agent_name) (agents c) with
  | Some _ =>
      (true,
       set_agents
         (map (fun p => if String.eqb (fst p) agent_name
                        then (fst p, BaseAgent.reset now (snd p)) else p)
            (agents c)) c)
  | None => (false, c)
  end.

(** [reset_all_agents]: returned are the reset count and the agent count. *)
Definition reset_all_agents (clock : nat -> datetime) (c : t) : (Z * Z) * t :=
  ((Z.of_nat (length (agents c)), Z.of_nat (length (agents c))),
   set_agents (imap (fun k p => (fst p, BaseAgent.reset (clock k) (snd p))) (agents c)) c).

(** What [get_system_health] does to the agents: each agent's
    [health_check] either leaves the agent as it is or, when its request to
    the registry raised, records the failure.  The outcomes of the requests
    come from outside: [None] for an answer, the text of the exception
    otherwise. *)
Fixpoint health_checks (outcomes : list (option string))
  (l : list (string * BaseAgent.t)) : list (string * BaseAgent.t) :=
  match l, outcomes with
  | (agent_name, agent) :: rest, Some msg :: os =>
      (agent_name, BaseAgent.health_check_failed msg agent) :: health_checks os rest
  | p :: rest, None :: os => p :: health_checks os rest
  | _, _ => l
  end.

(** [increment_books_generated]. *)
Definition increment_books_generated (c : t) : t :=
  {| agents := agents c; system_start_time := system_start_time c;
     total_books_generated := total_books_generated c + 1 |}.

(** The states of the coordinator: built by [__init__], then changed by its
    own methods.  Nothing in the program hands a task to its agents. *)
Inductive reachable : t -> Prop :=
  | reach_init now now_research now_content :
      reachable (init now now_research now_content)
  | reach_poll clock c :
      reachable c -> reachable (set_agents (snd (poll clock 0 (agents c))) c)
  | reach_get_agent_status agent_name now c :
      reachable c -> reachable (snd (get_agent_status agent_name now c))
  | reach_reset_agent agent_name now c :
      reachable c -> reachable (snd (reset_agent agent_name now c))
  | reach_reset_all_agents clock c :
      reachable c -> reachable (snd (reset_all_agents clock c))
  | reach_get_system_health outcomes c :
      length outcomes = length (agents c) ->
      reachable c -> reachable (set_agents (health_checks outcomes (agents c)) c)
  | reach_increment c :
      reachable c -> reachable (increment_books_generated c).

(** The agents of the coordinator have never run a task. *)
Definition idle_agents (c : t) : Prop :=
  map fst (agents c) = ["research"; "content"] /\
  Forall (fun p => success_rate (BaseAgent.metrics (snd p)) = 0%Q
                   /\ tasks_completed (BaseAgent.metrics (snd p)) = 0
                   /\ tasks_failed (BaseAgent.metrics (snd p)) = 0)
         (agents c).

End AgentCoordinator.

(** * Properties *)

(** ** The task-execution contract ([BaseAgent]) *)

Section BaseAgentFacts.
Import BaseAgent.

Lemma metrics_ok_init nm ty cfg now : metrics_ok (init nm ty cfg now).
Proof. repeat split; simpl; lia. Qed.

Lemma metrics_ok_update_progress p now a :
  metrics_ok a -> metrics_ok (update_progress p now a).
Proof.
  intros (Hc & Hf & Hs & Hp). repeat split; simpl; try assumption; lia.
Qed.

Lemma metrics_ok_task_begin task_id t0 a :
  metrics_ok a -> metrics_ok (task_begin task_id t0 a).
Proof.
  intros (Hc & Hf & Hs & Hp). repeat split; simpl; try assumption; lia.
Qed.

Lemma metrics_ok_apply_updates us a :
  metrics_ok a -> metrics_ok (apply_updates us a).
Proof.
  unfold apply_updates. revert a.
  induction us as [|u us IH]; intros a Ha; simpl; [assumption|].
  apply IH, metrics_ok_update_progress, Ha.
Qed.

Lemma metrics_apply_updates us a : metrics (apply_updates us a) = metrics a.
Proof.
  unfold apply_updates. revert a.
  induction us as [|u us IH]; intros a; simpl; [reflexivity|].
  rewrite IH. reflexivity.
Qed.

(** On a state that satisfies the invariant the success branch never divides
    by zero: it returns the measured duration and bumps the completed
    counter. *)
Lemma task_succeed_ok t0 t1 a :
  metrics_ok a ->
  exists a',
    task_succeed t0 t1 a = (inl (total_seconds (t1 - t0)), a') /\
    metrics_ok a' /\
    tasks_completed (metrics a') = tasks_completed (metrics a) + 1 /\
    tasks_failed (metrics a') = tasks_failed (metrics a) /\
    state a' = IDLE.
Proof.
  intros (Hc & Hf & Hs & Hp). unfold task_succeed.
  assert (Hne : (tasks_completed (metrics a) + 1 + tasks_failed (metrics a) =? 0) = false)
    by (apply Z.eqb_neq; lia).
  destruct (average_task_duration (metrics a)) as [avg|]; rewrite Hne;
    eexists; (split; [reflexivity|]); simpl;
    (repeat split; simpl; try lia); rewrite Hne; reflexivity.
Qed.

Lemma task_fail_ok e a :
  metrics_ok a ->
  metrics_ok (task_fail e a) /\
  tasks_completed (metrics (task_fail e a)) = tasks_completed (metrics a) /\
  tasks_failed (metrics (task_fail e a)) = tasks_failed (metrics a) + 1 /\
  state (task_fail e a) = ERROR.
Proof.
  intros (Hc & Hf & Hs & Hp). unfold task_fail; simpl.
  assert (Hne : (tasks_completed (metrics a) + (tasks_failed (metrics a) + 1) =? 0) = false)
    by (apply Z.eqb_neq; lia).
  assert (Hlt : (0 <? tasks_completed (metrics a) + (tasks_failed (metrics a) + 1)) = true)
    by (apply Z.ltb_lt; lia).
  repeat split; simpl; try lia. rewrite Hne, Hlt. reflexivity.
Qed.

Lemma metrics_ok_task_end {R} (o : R + string) t0 t1 a :
  metrics_ok a -> metrics_ok (snd (task_end o t0 t1 a)).
Proof.
  intros Ha. unfold task_end. destruct o as [r|msg].
  - destruct (task_succeed_ok t0 t1 a Ha) as (a' & -> & Ha' & _). exact Ha'.
  - simpl. apply task_fail_ok, Ha.
Qed.

Lemma metrics_ok_get_status now a :
  metrics_ok a -> metrics_ok (snd (get_status now a)).
Proof. intros (Hc & Hf & Hs & Hp). repeat split; simpl; try assumption; lia. Qed.

Lemma metrics_ok_reachable a : reachable a -> metrics_ok a.
Proof.
  induction 1.
  - apply metrics_ok_init.
  - apply metrics_ok_task_begin; assumption.
  - apply metrics_ok_update_progress; assumption.
  - apply metrics_ok_task_end; assumption.
  - apply metrics_ok_get_status; assumption.
  - destruct IHreachable as (Hc & Hf & Hs & Hp).
    repeat split; simpl; try assumption; lia.
  - destruct IHreachable as (Hc & Hf & Hs & Hp).
    repeat split; simpl; try assumption; lia.
Qed.

Lemma exec_one_counts {R} (e : task_exec R) a :
  metrics_ok a ->
  metrics_ok (exec_one a e) /\
  tasks_completed (metrics (exec_one a e)) =
    tasks_completed (metrics a) + (if succeeded e then 1 else 0) /\
  tasks_failed (metrics (exec_one a e)) =
    tasks_failed (metrics a) + (if succeeded e then 0 else 1).
Proof.
  intros Ha. unfold exec_one, execute_task, succeeded.
  set (a1 := apply_updates _ _).
  assert (Ha1 : metrics_ok a1)
    by (apply metrics_ok_apply_updates, metrics_ok_task_begin, Ha).
  assert (Hm : metrics a1 = metrics a)
    by (unfold a1; rewrite metrics_apply_updates; reflexivity).
  unfold task_end. destruct (outcome (te_run e)) as [r|msg].
  - destruct (task_succeed_ok (te_t0 e) (te_t1 e) a1 Ha1)
      as (a' & -> & Ha' & Hc & Hf & _).
    simpl. rewrite Hc, Hf, Hm. split; [exact Ha'|split; lia].
  - simpl snd. destruct (task_fail_ok (Raised msg) a1 Ha1) as (Ha' & Hc & Hf & _).
    rewrite Hc, Hf, Hm. split; [exact Ha'|split; lia].
Qed.

Lemma run_tasks_counts {R} (execs : list (task_exec R)) a :
  metrics_ok a ->
  metrics_ok (run_tasks execs a) /\
  tasks_completed (metrics (run_tasks execs a)) =
    tasks_completed (metrics a)
    + Z.of_nat (length (filter (fun e => succeeded e = true) execs)) /\
  tasks_failed (metrics (run_tasks execs a)) =
    tasks_failed (metrics a)
    + Z.of_nat (length (filter (fun e => succeeded e = false) execs)).
Proof.
  unfold run_tasks. revert a.
  induction execs as [|e execs IH]; intros a Ha; simpl.
  - split; [exact Ha|split; lia].
  - destruct (exec_one_counts e a Ha) as (Ha' & Hc & Hf).
    destruct (IH _ Ha') as (Hok & Hc' & Hf'). split; [exact Hok|].
    rewrite Hc', Hf', Hc, Hf.
    rewrite !filter_cons. destruct (succeeded e) eqn:Hs; simpl.
    + destruct (decide (true = false)) as [?|_]; [discriminate|].
      destruct (decide (true = true)) as [_|?]; [|congruence].
      simpl length. lia.
    + destruct (decide (false = true)) as [?|_]; [discriminate|].
      destruct (decide (false = false)) as [_|?]; [|congruence].
      simpl length. lia.
Qed.

Lemma filter_succeeded_split {R} (execs : list (task_exec R)) :
  (length (filter (fun e => succeeded e = true) execs)
   + length (filter (fun e => succeeded e = false) execs))%nat = length execs.
Proof.
  induction execs as [|e execs IH]; [reflexivity|].
  rewrite !filter_cons. destruct (succeeded e); simpl.
  - destruct (decide (true = false)) as [?|_]; [discriminate|].
    destruct (decide (true = true)) as [_|?]; [|congruence]. simpl. lia.
  - destruct (decide (false = true)) as [?|_]; [discriminate|].
    destruct (decide (false = false)) as [_|?]; [|congruence]. simpl. lia.
Qed.

(** C5.  After any sequence of N task executions on a fresh agent the
    counters count the successes and the failures (N in total) and the
    stored success rate is completed / (completed + failed); it is 0 when
    N = 0. *)
Theorem success_rate_after_tasks {R} nm ty cfg now (execs : list (task_exec R)) :
  let m := metrics (run_tasks execs (init nm ty cfg now)) in
  tasks_completed m
    = Z.of_nat (length (filter (fun e => succeeded e = true) execs)) /\
  tasks_failed m
    = Z.of_nat (length (filter (fun e => succeeded e = false) execs)) /\
  tasks_completed m + tasks_failed m = Z.of_nat (length execs) /\
  success_rate m =
    if Z.of_nat (length execs) =? 0 then 0%Q
    else (inject_Z (tasks_completed m)
          / inject_Z (tasks_completed m + tasks_failed m))%Q.
Proof.
  intros m.
  destruct (run_tasks_counts execs (init nm ty cfg now) (metrics_ok_init _ _ _ _))
    as ((_ & _ & Hs & _) & Hc & Hf).
  fold m in Hs, Hc, Hf. simpl in Hc, Hf.
  pose proof (filter_succeeded_split execs) as Hlen.
  assert (Htot : tasks_completed m + tasks_failed m = Z.of_nat (length execs)) by lia.
  repeat split; try assumption.
  rewrite Hs, Htot. reflexivity.
Qed.

(** The quotient of the counters is a proportion. *)
Lemma success_rate_bounds a :
  metrics_ok a -> (0 <= success_rate (metrics a) <= 1)%Q.
Proof.
  intros (Hc & Hf & Hs & _). rewrite Hs.
  destruct (Z.eqb_spec (tasks_completed (metrics a) + tasks_failed (metrics a)) 0)
    as [_|Hne]; [split; discriminate|].
  set (c := tasks_completed (metrics a)) in *.
  set (f := tasks_failed (metrics a)) in *.
  assert (Hpos : (0 < inject_Z (c + f))%Q)
    by (change 0%Q with (inject_Z 0); rewrite <- Zlt_Qlt; lia).
  split.
  - apply Qle_shift_div_l; [exact Hpos|].
    rewrite Qmult_0_l. change 0%Q with (inject_Z 0). rewrite <- Zle_Qle. exact Hc.
  - apply Qle_shift_div_r; [exact Hpos|].
    rewrite Qmult_1_l. rewrite <- Zle_Qle. lia.
Qed.

(** The staleness test of the code, on seconds as a float, is the
    comparison of the specification. *)
Lemma stale_older_than_one_hour now a :
  stale now a = older_than_one_hour now (last_activity a).
Proof.
  unfold stale, older_than_one_hour. destruct (last_activity a) as [t|]; [|reflexivity].
  unfold Qle_bool, total_seconds. cbn [Qnum Qden].
  change (Z.pos 1000000) with 1000000. change (Z.pos 1) with 1.
  rewrite Z.mul_1_r. symmetry. apply Z.ltb_antisym.
Qed.

Lemma error_state_eqb st :
  AgentState_eqb st ERROR = match st with ERROR => true | _ => false end.
Proof. destruct st; reflexivity. Qed.

(** C8.  For every reachable agent and every clock reading, [get_status]
    builds a status whose health score is the success rate, times 0.5 when
    the state is Error, times 0.8 when there is a last activity and it is
    more than one hour (3600 s) old (both factors when both hold), and the
    score is in [0,1]. *)
Theorem health_score_formula (a : BaseAgent.t) (now : datetime) :
  reachable a ->
  exists s,
    fst (get_status now a) = Some s /\
    (health_score s ==
       success_rate (metrics a)
       * (match state a with ERROR => 1 # 2 | _ => 1 end)
       * (match last_activity a with
          | Some t => if 3600 * 1000000 <? now - t then 4 # 5 else 1
          | None => 1
          end))%Q /\
    (health_score s
     == health_spec (success_rate (metrics a)) (state a) now (last_activity a))%Q /\
    (0 <= health_score s <= 1)%Q.
Proof.
  intros Hr. pose proof (metrics_ok_reachable a Hr) as Hok.
  pose proof (success_rate_bounds a Hok) as [Hlo Hhi].
  destruct Hok as (_ & _ & _ & Hp).
  set (h := compute_health_score now (snd (get_status now a))).
  assert (Hspec : (h == health_spec (success_rate (metrics a)) (state a) now
                          (last_activity a))%Q).
  { unfold h, compute_health_score, health_spec.
    change (stale now (snd (get_status now a))) with (stale now a).
    rewrite stale_older_than_one_hour. cbn [get_status snd set_metrics metrics state
      success_rate]. rewrite error_state_eqb.
    destruct (state a); destruct (older_than_one_hour now (last_activity a)); ring. }
  assert (Hform : (h == success_rate (metrics a)
                       * (match state a with ERROR => 1 # 2 | _ => 1 end)
                       * (match last_activity a with
                          | Some t => if 3600 * 1000000 <? now - t then 4 # 5 else 1
                          | None => 1
                          end))%Q).
  { rewrite Hspec. unfold health_spec, older_than_one_hour.
    destruct (last_activity a); reflexivity. }
  assert (Hb : (0 <= h <= 1)%Q).
  { rewrite Hspec. unfold health_spec.
    destruct (state a); destruct (older_than_one_hour now (last_activity a)); lra. }
  assert (Hv : AgentStatus_fields_ok (current_task_progress a) h = true).
  { unfold AgentStatus_fields_ok. rewrite !andb_true_iff, !Qle_bool_iff.
    repeat split; try (apply Z.leb_le; lia); apply Hb. }
  unfold get_status. cbn zeta.
  match goal with
  | |- context [AgentStatus_fields_ok ?p ?x] =>
      assert (Hv' : AgentStatus_fields_ok p x = true) by exact Hv; rewrite Hv'
  end.
  eexists. split; [reflexivity|]. split; [exact Hform|]. split; [exact Hspec|exact Hb].
Qed.

Lemma reachable_apply_updates us a : reachable a -> reachable (apply_updates us a).
Proof.
  unfold apply_updates. revert a.
  induction us as [|u us IH]; intros a Ha; simpl; [assumption|].
  apply IH, reach_update_progress, Ha.
Qed.

Lemma reachable_run_tasks {R} (execs : list (task_exec R)) a :
  reachable a -> reachable (run_tasks execs a).
Proof.
  unfold run_tasks. revert a.
  induction execs as [|e execs IH]; intros a Ha; simpl; [assumption|].
  apply IH. unfold exec_one, execute_task.
  apply reach_task_end, reachable_apply_updates, reach_task_begin, Ha.
Qed.

Lemma health_score_formula_witness :
  exists s,
    fst (get_status 7200000000%Z sample_agent) = Some s /\
    (health_score s ==
       success_rate (metrics sample_agent)
       * (match state sample_agent with ERROR => 1 # 2 | _ => 1 end)
       * (match last_activity sample_agent with
          | Some t => if (3600 * 1000000 <? 7200000000 - t)%Z then 4 # 5 else 1
          | None => 1
          end))%Q /\
    (health_score s
     == health_spec (success_rate (metrics sample_agent)) (state sample_agent)
          7200000000%Z (last_activity sample_agent))%Q /\
    (0 <= health_score s <= 1)%Q.
Proof.
  apply (health_score_formula sample_agent 7200000000%Z).
  apply reachable_run_tasks, reach_init.
Defined.

(** The boundary of the staleness test: exactly one hour is not yet stale,
    one microsecond more is. *)
Example one_hour_is_not_stale :
  older_than_one_hour 3600000000 (Some 0) = false /\
  older_than_one_hour 3600000001 (Some 0) = true /\
  older_than_one_hour 7200000000 None = false.
Proof. repeat split. Qed.

(** After one success and one failure, two hours idle: 1/2 * 1/2 * 4/5. *)
Example health_score_sample :
  (compute_health_score 7200000000%Z sample_agent == 1 # 5)%Q.
Proof. vm_compute. reflexivity. Qed.

Lemma Qsum_app l1 l2 : (Qsum (l1 ++ l2) == Qsum l1 + Qsum l2)%Q.
Proof.
  induction l1 as [|x l1 IH]; simpl.
  - ring.
  - rewrite IH. ring.
Qed.

Lemma run_tasks_snoc {R} (execs : list (task_exec R)) e a :
  run_tasks (execs ++ [e]) a = exec_one (run_tasks execs a) e.
Proof. unfold run_tasks. rewrite fold_left_app. reflexivity. Qed.

(** Without failures the incremental formula is the running mean: the
    stored average times the number of completed tasks is the sum of their
    durations. *)
Lemma average_sum_without_failures {R} (execs : list (task_exec R)) nm ty cfg now :
  Forall (fun e => succeeded e = true) execs ->
  let m := metrics (run_tasks execs (init nm ty cfg now)) in
  tasks_failed m = 0 /\
  tasks_completed m = Z.of_nat (length execs) /\
  match average_task_duration m with
  | None => execs = []
  | Some avg =>
      (avg * inject_Z (Z.of_nat (length execs))
       == Qsum (map exec_duration execs))%Q
  end.
Proof.
  induction execs as [|e execs IH] using rev_ind; intros Hall m.
  - repeat split.
  - apply Forall_app in Hall as [Hall He]. apply Forall_inv in He.
    specialize (IH Hall). cbn zeta in IH. destruct IH as (Hf & Hc & Havg).
    subst m. rewrite run_tasks_snoc.
    set (a := run_tasks execs (init nm ty cfg now)) in *.
    unfold exec_one, execute_task, task_end.
    unfold succeeded in He. destruct (outcome (te_run e)) as [r|msg]; [|discriminate].
    set (a1 := apply_updates _ _).
    assert (Hm : metrics a1 = metrics a)
      by (unfold a1; rewrite metrics_apply_updates; reflexivity).
    unfold task_succeed. rewrite Hm, Hf, Hc.
    assert (Hne : (Z.of_nat (length execs) + 1 + 0 =? 0) = false)
      by (apply Z.eqb_neq; lia).
    rewrite length_app, map_app. simpl length.
    replace (Z.of_nat (length execs + 1)) with (Z.of_nat (length execs) + 1 + 0) by lia.
    destruct (average_task_duration (metrics a)) as [avg|]; rewrite Hne; simpl.
    + repeat split; try lia.
      replace (Z.of_nat (length execs) + 1 + 0 - 1) with (Z.of_nat (length execs)) by lia.
      rewrite Qsum_app, <- Havg. simpl Qsum. unfold exec_duration. field.
      change 0%Q with (inject_Z 0). rewrite inject_Z_injective. lia.
    + repeat split; try lia. subst execs. simpl. unfold exec_duration.
      replace (Z.of_nat 0 + 1 + 0) with 1 by reflexivity. ring.
Qed.

Corollary average_is_mean_without_failures {R} (e : task_exec R) execs nm ty cfg now :
  Forall (fun e => succeeded e = true) (e :: execs) ->
  exists avg,
    average_task_duration (metrics (run_tasks (e :: execs) (init nm ty cfg now)))
      = Some avg /\
    (avg == mean (completed_durations (e :: execs)))%Q.
Proof.
  intros Hall.
  pose proof (average_sum_without_failures (e :: execs) nm ty cfg now Hall) as H.
  cbn zeta in H. destruct H as (_ & _ & Havg).
  destruct (average_task_duration _) as [avg|]; [|discriminate].
  exists avg. split; [reflexivity|].
  unfold mean, completed_durations.
  assert (Hfil : filter (fun e0 : task_exec R => succeeded e0 = true) (e :: execs)
                 = e :: execs).
  { clear Havg. induction Hall as [|x l Hx Hl IHl]; [reflexivity|].
    rewrite filter_cons. destruct (decide (succeeded x = true)); [|contradiction].
    rewrite IHl. reflexivity. }
  rewrite Hfil, length_map, <- Havg. field.
  change 0%Q with (inject_Z 0). rewrite inject_Z_injective. simpl length. lia.
Qed.

(** C4 (divergence).  The stored average divides by completed + failed:
    after a 10 s success, a failure and a 20 s success it holds 40/3 s,
    while the mean of the two completed durations is 15 s. *)
Theorem average_duration_counts_failures :
  exists avg,
    average_task_duration
      (metrics (run_tasks sample_execs (init "research-agent" RESEARCH None 0)))
      = Some avg /\
    (avg == 40 # 3)%Q /\
    (mean (completed_durations sample_execs) == 15)%Q /\
    ~ (avg == mean (completed_durations sample_execs))%Q.
Proof.
  eexists. split; [vm_compute; reflexivity|].
  split; [reflexivity|]. split; [reflexivity|].
  vm_compute. discriminate.
Qed.

End BaseAgentFacts.

(** ** The provider registry ([LLMService]) *)

Section LLMServiceFacts.
Import LLMService.

Lemma ev_failed_app l1 l2 : ev_failed (l1 ++ l2) = ev_failed l1 ++ ev_failed l2.
Proof. apply omap_app. Qed.

Lemma ev_texts_app l1 l2 : ev_texts (l1 ++ l2) = ev_texts l1 ++ ev_texts l2.
Proof. apply omap_app. Qed.

Lemma ev_invoked_app l1 l2 : ev_invoked (l1 ++ l2) = ev_invoked l1 ++ ev_invoked l2.
Proof. apply omap_app. Qed.

Lemma error_after_app last_error evs1 evs2 :
  error_after last_error (evs1 ++ evs2)
  = error_after (error_after last_error evs1) evs2.
Proof.
  unfold error_after. rewrite ev_texts_app.
  destruct (ev_texts evs2) as [|x l] using rev_ind.
  - rewrite app_nil_r. simpl. destruct (last (ev_texts evs1)); reflexivity.
  - rewrite app_assoc, !last_snoc. reflexivity.
Qed.

Lemma error_after_invoked last_error p c evs :
  error_after last_error (Invoked p c :: evs) = error_after last_error evs.
Proof. reflexivity. Qed.

Lemma error_after_failed last_error p e evs :
  error_after last_error (Failed p e :: evs) = error_after (Some e) evs.
Proof. apply (error_after_app last_error [Failed p e] evs). Qed.

(** The loop, characterised by what it appends to the trace: on failure every
    provider to try has failed, in order, and the message carries the last
    exception; on success the providers before the answering one have
    failed and the answer is that of its handle. *)
Lemma try_providers_spec settings lib messages temperature max_tokens ps :
  forall last_error svc log,
  let r := try_providers settings lib messages temperature max_tokens ps
             last_error svc log in
  exists evs,
    events r = log ++ evs /\
    ev_invoked evs ⊆ ps /\
    match outcome r with
    | inr (LLMError_msg msg) =>
        ev_failed evs = ps /\
        msg = ("All providers failed. Last error: "
               ++ default "None" (error_after last_error evs))%string
    | inl c =>
        exists before p after cl res,
          ps = before ++ p :: after /\
          ev_failed evs = before /\
          last evs = Some (Invoked p cl) /\
          ainvoke lib cl messages = inl res /\
          c = make_completion lib p cl res
    end.
Proof.
  induction ps as [|p ps IH]; intros last_error svc log r.
  - exists []. subst r; simpl. rewrite app_nil_r.
    split; [reflexivity|]. split; [set_solver|]. split; reflexivity.
  - subst r. simpl.
    destruct (dict_get (providers svc) p) as [c|] eqn:Hget.
    + destruct (ainvoke lib (configure temperature max_tokens c) messages)
        as [res|e] eqn:Hcall.
      * exists [Invoked p (configure temperature max_tokens c)]. simpl.
        split; [reflexivity|]. split; [set_solver|].
        exists [], p, ps, (configure temperature max_tokens c), res.
        repeat split; try reflexivity. exact Hcall.
      * match goal with
        | |- context [try_providers _ _ _ _ _ ps ?le ?s ?l] =>
            destruct (IH le s l) as (evs & Hev & Hinv & Hout)
        end.
        cbn zeta in Hev, Hout.
        exists ([Invoked p (configure temperature max_tokens c); Failed p e] ++ evs).
        split; [rewrite Hev, <- app_assoc; reflexivity|].
        split; [rewrite ev_invoked_app; simpl; clear -Hinv; set_solver|].
        destruct (outcome _) as [cmp|[msg]].
        -- destruct Hout as (before & q & after & cl & res & Hps & Hf & Hl & Ha & Hc).
           exists (p :: before), q, after, cl, res.
           rewrite ev_failed_app. simpl.
           repeat split; try assumption; try congruence.
           destruct evs as [|x evs]; [discriminate|]. exact Hl.
        -- destruct Hout as (Hf & Hm). rewrite ev_failed_app. simpl.
           split; [congruence|].
           rewrite Hm, error_after_invoked, error_after_failed. reflexivity.
    + match goal with
      | |- context [try_providers _ _ _ _ _ ps ?le ?s ?l] =>
          destruct (IH le s l) as (evs & Hev & Hinv & Hout)
      end.
      cbn zeta in Hev, Hout.
      exists ([Failed p (repr p)] ++ evs).
      split; [rewrite Hev, <- app_assoc; reflexivity|].
      split; [rewrite ev_invoked_app; simpl; clear -Hinv; set_solver|].
      destruct (outcome _) as [cmp|[msg]].
      * destruct Hout as (before & q & after & cl & res & Hps & Hf & Hl & Ha & Hc).
        exists (p :: before), q, after, cl, res.
        rewrite ev_failed_app. simpl.
        repeat split; try assumption; try congruence.
        destruct evs as [|x evs]; [discriminate|]. exact Hl.
      * destruct Hout as (Hf & Hm). rewrite ev_failed_app. simpl.
        split; [congruence|]. rewrite Hm, error_after_failed. reflexivity.
Qed.

Lemma add_missing_elem (l acc : list LLMProvider) p :
  p ∈ fold_left (fun acc provider =>
                   if bool_decide (provider ∈ acc) then acc else acc ++ [provider])
                l acc
  <-> p ∈ acc \/ p ∈ l.
Proof.
  revert acc. induction l as [|x l IH]; intros acc; simpl.
  - rewrite elem_of_nil. tauto.
  - rewrite IH, elem_of_cons. case_bool_decide as Hx.
    + split; [tauto|]. intros [?|[->|?]]; tauto.
    + rewrite elem_of_app, list_elem_of_singleton. tauto.
Qed.

Lemma providers_to_try_available preferred_provider svc p :
  p ∈ providers_to_try preferred_provider svc <-> p ∈ get_available_providers svc.
Proof.
  unfold providers_to_try. rewrite add_missing_elem.
  destruct preferred_provider as [q|].
  - case_bool_decide as Hq.
    + rewrite list_elem_of_singleton. split; [intros [->|?]; assumption|tauto].
    + rewrite elem_of_nil. tauto.
  - rewrite elem_of_nil. tauto.
Qed.









End LLMServiceFacts.

(** ** The orchestrator ([BookGenerationService]) *)

Section BookGenerationServiceFacts.
Import BookGenerationService.

(** C10.  A status update for a job id that is not in the active table
    changes nothing: both tables, every stored record and the history of
    status writes stay as they are. *)
Theorem update_of_absent_job_is_noop book_id new_status new_progress msg now (s : t) :
  active_generations s !! book_id = None ->
  _update_book_status book_id new_status new_progress msg now s = s.
Proof. intros Hnone. unfold _update_book_status. rewrite Hnone. reflexivity. Qed.

(** A late update for a job that has already been moved to the completed
    table. *)
Lemma update_of_absent_job_is_noop_witness :
  _update_book_status "job-1" FAILED None "Generation failed: late" 3
    (generate_book_async (sample_request "job-1")
       (BaseAgent.TaskSuccess sample_research 1 "research-agent" 1)
       (BaseAgent.TaskSuccess sample_content 1 "content-agent" 2) 0 1 2 init)
  = generate_book_async (sample_request "job-1")
      (BaseAgent.TaskSuccess sample_research 1 "research-agent" 1)
      (BaseAgent.TaskSuccess sample_content 1 "content-agent" 2) 0 1 2 init.
Proof.
  apply (update_of_absent_job_is_noop "job-1" FAILED None
           "Generation failed: late" 3).
  vm_compute. reflexivity.
Defined.

Lemma truthy_str_nonempty o : truthy_str o = nonempty_text o.
Proof. destruct o as [[|c s]|]; reflexivity. Qed.

Lemma truthy_list_nonempty o : truthy_list o = nonempty_chapters o.
Proof. destruct o as [[|c l]|]; reflexivity. Qed.

(** C7.  The quality score is the function of the artifact that the
    specification describes: 0.7, plus 0.15 from 15000 words or else 0.1 from
    8000 words, plus 0.1 for 5 to 12 chapters, plus 0.05 when introduction,
    chapters and conclusion are all non-empty (a text of at least one
    character, at least one chapter), capped at 1. *)
Theorem quality_review_score (cr : content_result) :
  let bc := book_content cr in
  let words := default 0 (word_count bc) in
  let chapter_count := Z.of_nat (length (default [] (chapters bc))) in
  (_perform_quality_review cr ==
     quality_spec words chapter_count
       (nonempty_text (introduction bc)) (nonempty_chapters (chapters bc))
       (nonempty_text (conclusion bc)))%Q /\
  (7 # 10 <= _perform_quality_review cr <= 1)%Q.
Proof.
  intros bc words chapter_count.
  unfold _perform_quality_review, quality_spec.
  fold bc. fold words. fold chapter_count.
  rewrite !truthy_str_nonempty, truthy_list_nonempty.
  destruct (15000 <=? words); [|destruct (8000 <=? words)];
    destruct ((5 <=? chapter_count) && (chapter_count <=? 12));
    destruct (nonempty_text (introduction bc) && nonempty_chapters (chapters bc)
              && nonempty_text (conclusion bc));
    (split; [reflexivity|split; discriminate]).
Qed.

(** The bonus for complete books is lost by an empty introduction, an empty
    chapter list or an empty conclusion, and by a part that is missing. *)
Example quality_without_introduction :
  let with_intro (i : option string) :=
    {| book_content :=
         {| bk_title := "Gardening"; bk_subtitle := ""; bk_description := "";
            table_of_contents := []; introduction := i;
            chapters := Some [sample_chapter 1]; conclusion := Some "Goodbye.";
            word_count := Some 2000; page_count := 8; generated_at := 4 |};
       outline := outline sample_content;
       cr_word_count := 2000; cr_chapter_count := 1 |} in
  (_perform_quality_review (with_intro (Some "Welcome.")) == 75 # 100)%Q /\
  (_perform_quality_review (with_intro (Some "")) == 7 # 10)%Q /\
  (_perform_quality_review (with_intro None) == 7 # 10)%Q.
Proof. repeat split. Qed.

(** A book assembled by the Content agent from six chapters of 2000 words:
    12004 words in all, so 0.7 + 0.1 + 0.1 + 0.05. *)
Example quality_of_assembled_book :
  let cr := ContentAgent.complete_book (outline sample_content)
              "Welcome, dear reader." (map sample_chapter [1; 2; 3; 4; 5; 6])
              "Goodbye." 5 in
  word_count (book_content cr) = Some 12004 /\
  (_perform_quality_review cr == 95 # 100)%Q.
Proof. split; vm_compute; reflexivity. Qed.

(** The segments of a run on which both agents succeed. *)
Lemma update_of_present_job book_id new_status new_progress msg now (s : t) g :
  active_generations s !! book_id = Some g ->
  exists g',
    active_generations (_update_book_status book_id new_status new_progress msg now s)
      !! book_id = Some g' /\
    status g' = new_status /\ started_at g' = started_at g /\
    request g' = request g /\
    completed_books (_update_book_status book_id new_status new_progress msg now s)
      = completed_books s /\
    status_log (_update_book_status book_id new_status new_progress msg now s)
      = status_log s ++ [(book_id, new_status)].
Proof.
  intros Hg. unfold _update_book_status. rewrite Hg. simpl.
  rewrite lookup_insert_eq. eexists. repeat split.
Qed.

Lemma start_generation_spec req now (s : t) :
  exists g,
    active_generations (start_generation req now s) !! id req = Some g /\
    status g = RESEARCHING /\ started_at g = now /\ request g = req /\
    completed_books (start_generation req now s) = completed_books s /\
    status_log (start_generation req now s)
      = status_log s ++ [(id req, PENDING); (id req, RESEARCHING)].
Proof.
  unfold start_generation.
  match goal with
  | |- context [_update_book_status ?b ?st ?p ?m ?n ?s0] =>
      destruct (update_of_present_job b st p m n s0
                  {| request := req; status := PENDING; progress := 0;
                     current_stage := "initializing"; started_at := now;
                     estimated_completion := now + 15 * 60 * 1000000;
                     stages_completed := []; errors := [];
                     updated_at := None; error := None; message := None |})
        as (g' & Hg' & Hst & Hsa & Hrq & Hcb & Hlog)
  end.
  { simpl. apply lookup_insert_eq. }
  exists g'. repeat split; try assumption.
  rewrite Hlog. simpl. rewrite <- app_assoc. reflexivity.
Qed.

(** The pipeline run in one go is the run of its three segments under the
    scheduler, with nothing in between. *)
Lemma generate_book_async_as_run req research_result content_res t0 t1 t2 :
  svc (run [Submit req t0; ResearchReturns 0 research_result t1;
            ContentReturns 0 content_res t2] initial)
  = generate_book_async req research_result content_res t0 t1 t2 init.
Proof.
  unfold generate_book_async. destruct research_result; reflexivity.
Qed.

(** The success path taken alone: when both agents succeed and nothing
    interferes, the statuses written for the job are exactly Pending,
    Researching, GeneratingOutline, Reviewing, Completed, and the job ends in
    the completed table only. *)
Lemma success_path_statuses req research d1 a1 c1 cr d2 a2 c2 t0 t1 t2 (s : t) :
  let s' := generate_book_async req
              (BaseAgent.TaskSuccess research d1 a1 c1)
              (BaseAgent.TaskSuccess cr d2 a2 c2) t0 t1 t2 s in
  let written := [PENDING; RESEARCHING; GENERATING_OUTLINE; REVIEWING; COMPLETED] in
  status_log s' = status_log s ++ map (pair (id req)) written /\
  strictly_forward written = true /\
  RESEARCHING ∈ written /\
  (WRITING_CONTENT ∉ written) /\
  book_status (id req) s' = Some COMPLETED /\
  holds (active_generations s') (id req) = false /\
  holds (completed_books s') (id req) = true.
Proof.
  intros s' written.
  destruct (start_generation_spec req t0 s) as (g0 & Hg0 & _ & Hsa0 & _ & _ & Hlog0).
  set (s0 := start_generation req t0 s) in *.
  destruct (update_of_present_job (id req) GENERATING_OUTLINE (Some 30)
              "Research completed, generating outline" t1 s0 g0 Hg0)
    as (g1 & Hg1 & _ & Hsa1 & _ & _ & Hlog1).
  set (s1 := _update_book_status _ GENERATING_OUTLINE _ _ _ s0) in *.
  destruct (update_of_present_job (id req) REVIEWING (Some 85)
              "Content generated, reviewing quality" t2 s1 g1 Hg1)
    as (g2 & Hg2 & _ & Hsa2 & _ & _ & Hlog2).
  set (s2 := _update_book_status _ REVIEWING _ _ _ s1) in *.
  destruct (update_of_present_job (id req) COMPLETED (Some 100)
              "Book generation completed" t2 s2 g2 Hg2)
    as (g3 & Hg3 & _ & Hsa3 & _ & _ & Hlog3).
  set (s3 := _update_book_status _ COMPLETED _ _ _ s2) in *.
  assert (Hs' : s' =
    {| active_generations := delete (id req) (active_generations s3);
       completed_books :=
         <[id req :=
             {| bd_request := req;
                bd_research_data := ResearchAgent.research_data research;
                bd_book_content := book_content cr;
                bd_outline := outline cr;
                quality_score := _perform_quality_review cr;
                completed_at := t2;
                generation_time := total_seconds (t2 - started_at g3) |}]>
           (completed_books s3);
       status_log := status_log s3 |}).
  { subst s'. unfold generate_book_async, after_research, after_content.
    fold s0. fold s1. fold s2. fold s3. rewrite Hg3. reflexivity. }
  rewrite Hs'. unfold book_status, holds. simpl.
  rewrite lookup_delete_eq, lookup_insert_eq.
  repeat split.
  - rewrite Hlog3, Hlog2, Hlog1, Hlog0. rewrite <- !app_assoc. reflexivity.
  - apply list_elem_of_further, list_elem_of_here.
  - unfold written. intros Hin.
    repeat (apply elem_of_cons in Hin as [Hin|Hin]; [discriminate|]).
    apply elem_of_nil in Hin. exact Hin.
Qed.

(** C1, the statement as written fails: on a successful run the job is never
    given the status WritingContent. *)
Lemma success_path_skips_writing_content :
  ~ success_path_as_specified
      (statuses_of "job-1"
         (generate_book_async (sample_request "job-1")
            (BaseAgent.TaskSuccess sample_research 1 "research-agent" 1)
            (BaseAgent.TaskSuccess sample_content 1 "content-agent" 2)
            0 1 2 init)).
Proof.
  intros (_ & _ & _ & Hin). vm_compute in Hin.
  repeat (apply elem_of_cons in Hin as [Hin|Hin]; [discriminate|]).
  apply elem_of_nil in Hin. exact Hin.
Qed.

(** *** What each operation does to the two tables *)

Lemma holds_dom {A} (m : gmap string A) book_id :
  holds m book_id = true <-> book_id ∈ dom m.
Proof.
  unfold holds. rewrite elem_of_dom. destruct (m !! book_id).
  - split; [intros _; eexists; reflexivity|reflexivity].
  - split; [discriminate|intros [x Hx]; discriminate].
Qed.

Lemma holds_not_dom {A} (m : gmap string A) book_id :
  holds m book_id = false <-> book_id ∉ dom m.
Proof.
  rewrite <- holds_dom. destruct (holds m book_id); split; congruence.
Qed.

Lemma update_tables book_id new_status new_progress msg now (s : t) :
  dom (active_generations (_update_book_status book_id new_status new_progress msg now s))
    = dom (active_generations s) /\
  completed_books (_update_book_status book_id new_status new_progress msg now s)
    = completed_books s.
Proof.
  unfold _update_book_status.
  destruct (active_generations s !! book_id) as [g|] eqn:Hg; simpl; [|split; reflexivity].
  split; [|reflexivity]. rewrite dom_insert_L.
  apply elem_of_dom_2 in Hg. set_solver.
Qed.

Lemma on_exception_tables book_id e now (s : t) :
  dom (active_generations (on_exception book_id e now s)) = dom (active_generations s) /\
  completed_books (on_exception book_id e now s) = completed_books s.
Proof.
  unfold on_exception.
  destruct (update_tables book_id FAILED None ("Generation failed: " ++ e)%string now s)
    as [Hd Hc].
  set (s1 := _update_book_status _ _ _ _ _ s) in *.
  destruct (active_generations s1 !! book_id) as [g|] eqn:Hg; simpl;
    [|split; assumption].
  split; [|exact Hc]. rewrite dom_insert_L, <- Hd.
  apply elem_of_dom_2 in Hg. set_solver.
Qed.

Lemma start_generation_tables req now (s : t) :
  dom (active_generations (start_generation req now s))
    = {[id req]} ∪ dom (active_generations s) /\
  completed_books (start_generation req now s) = completed_books s.
Proof.
  unfold start_generation.
  match goal with
  | |- context [_update_book_status ?b ?st ?p ?m ?n ?s0] =>
      destruct (update_tables b st p m n s0) as [Hd Hc]
  end.
  rewrite Hd, Hc. simpl. rewrite dom_insert_L. split; reflexivity.
Qed.

Lemma after_research_tables req res now (s : t) :
  dom (active_generations (after_research req res now s)) = dom (active_generations s) /\
  completed_books (after_research req res now s) = completed_books s.
Proof.
  unfold after_research. destruct res.
  - apply update_tables.
  - apply on_exception_tables.
Qed.

(** The last segment either leaves the table domains as they are, or it is
    the move: the entry was active, is deleted there and inserted in the
    completed table, the last status written for it being Completed. *)
Lemma after_content_tables req r res now (s : t) :
  (dom (active_generations (after_content req r res now s))
     = dom (active_generations s) /\
   completed_books (after_content req r res now s) = completed_books s)
  \/
  (id req ∈ dom (active_generations s) /\
   dom (active_generations (after_content req r res now s))
     = dom (active_generations s) ∖ {[id req]} /\
   dom (completed_books (after_content req r res now s))
     = {[id req]} ∪ dom (completed_books s) /\
   last (statuses_of (id req) (after_content req r res now s)) = Some COMPLETED /\
   exists cr d a c, res = BaseAgent.TaskSuccess cr d a c).
Proof.
  unfold after_content. destruct res as [cr d a c|err a f].
  - destruct (update_tables (id req) REVIEWING (Some 85)
                "Content generated, reviewing quality" now s) as [Hd1 Hc1].
    set (s1 := _update_book_status _ REVIEWING _ _ _ s) in *.
    destruct (update_tables (id req) COMPLETED (Some 100)
                "Book generation completed" now s1) as [Hd2 Hc2].
    pose proof (update_of_present_job (id req) COMPLETED (Some 100)
                  "Book generation completed" now s1) as Hlog.
    set (s2 := _update_book_status _ COMPLETED _ _ _ s1) in *.
    destruct (active_generations s2 !! id req) as [g|] eqn:Hg.
    + right. simpl.
      assert (Hin : id req ∈ dom (active_generations s)).
      { rewrite <- Hd1, <- Hd2. apply elem_of_dom_2 in Hg. exact Hg. }
      split; [exact Hin|].
      split; [rewrite dom_delete_L, Hd2, Hd1; reflexivity|].
      split; [rewrite dom_insert_L, Hc2, Hc1; reflexivity|].
      split; [|exists cr, d, a, c; reflexivity].
      assert (Hin1 : is_Some (active_generations s1 !! id req)).
      { apply elem_of_dom. rewrite Hd1. exact Hin. }
      destruct Hin1 as [g1 Hg1].
      destruct (Hlog g1 Hg1) as (_ & _ & _ & _ & _ & _ & Hl).
      unfold statuses_of. simpl. rewrite Hl.
      rewrite List.filter_app, map_app. simpl. rewrite String.eqb_refl. simpl.
      apply last_snoc.
    + left. destruct (on_exception_tables (id req)
                        ("'" ++ id req ++ "'")%string now s2) as [Hd3 Hc3].
      rewrite Hd3, Hc3, Hd2, Hc2, Hd1, Hc1. split; reflexivity.
  - left. apply on_exception_tables.
Qed.

Lemma delete_book_tables book_id (s : t) :
  dom (active_generations (snd (delete_book book_id s)))
    = dom (active_generations s) ∖ {[book_id]} /\
  dom (completed_books (snd (delete_book book_id s))) ⊆ dom (completed_books s) /\
  (book_id ∉ dom (active_generations s) ->
   book_id ∉ dom (completed_books (snd (delete_book book_id s)))) /\
  (forall other, other <> book_id ->
     active_generations (snd (delete_book book_id s)) !! other
       = active_generations s !! other /\
     completed_books (snd (delete_book book_id s)) !! other
       = completed_books s !! other) /\
  fst (delete_book book_id s)
    = holds (active_generations s) book_id || holds (completed_books s) book_id.
Proof.
  unfold delete_book, holds.
  destruct (active_generations s !! book_id) as [g|] eqn:Hg; simpl.
  - rewrite dom_delete_L. repeat split; try set_solver.
    + intros Hn. exfalso. apply Hn. apply elem_of_dom_2 in Hg. exact Hg.
    + apply lookup_delete_ne. congruence.
  - apply not_elem_of_dom in Hg.
    destruct (completed_books s !! book_id) as [b|] eqn:Hb; simpl.
    + rewrite dom_delete_L. repeat split; try set_solver.
      apply lookup_delete_ne. congruence.
    + apply not_elem_of_dom in Hb. repeat split; try set_solver.
Qed.

Lemma cancel_generation_tables book_id (s : t) :
  dom (active_generations (snd (cancel_generation book_id s)))
    = dom (active_generations s) /\
  completed_books (snd (cancel_generation book_id s)) = completed_books s.
Proof.
  unfold cancel_generation.
  destruct (active_generations s !! book_id) as [g|] eqn:Hg; simpl;
    [|split; reflexivity].
  split; [|reflexivity]. rewrite dom_insert_L.
  apply elem_of_dom_2 in Hg. set_solver.
Qed.

(** *** Runs of the orchestrator *)

Lemma task_ids_insert sys k req st st' :
  tasks sys !! k = Some (mkTask req st) ->
  map (fun tk => id (task_request tk)) (<[k := mkTask req st']> (tasks sys))
  = task_ids sys.
Proof.
  intros Hk. unfold task_ids.
  change (map (fun tk => id (task_request tk)) (<[k := mkTask req st']> (tasks sys)))
    with ((fun tk => id (task_request tk)) <$> <[k := mkTask req st']> (tasks sys)).
  rewrite list_fmap_insert. simpl.
  apply list_insert_id. rewrite list_lookup_fmap, Hk. reflexivity.
Qed.

(** The ids of the tasks after a step: a submission appends its id, no other
    step changes them. *)
Lemma task_ids_step sys ev :
  task_ids (apply_event sys ev)
  = task_ids sys ++ submitted [ev].
Proof.
  destruct ev as [req now|k res now|k res now|book_id|book_id]; simpl;
    try (rewrite app_nil_r; reflexivity).
  - unfold task_ids. simpl. rewrite map_app. reflexivity.
  - rewrite app_nil_r.
    destruct (tasks sys !! k) as [[req [| |]]|] eqn:Hk; try reflexivity.
    unfold task_ids at 1. simpl. exact (task_ids_insert _ _ _ _ _ Hk).
  - rewrite app_nil_r.
    destruct (tasks sys !! k) as [[req [|r|]]|] eqn:Hk; try reflexivity.
    unfold task_ids at 1. simpl. exact (task_ids_insert _ _ _ _ _ Hk).
Qed.

(** The invariant is kept by every step whose submission, if it is one,
    brings a new id. *)
Lemma store_ok_step sys ev :
  store_ok sys ->
  (forall x, x ∈ submitted [ev] -> x ∉ task_ids sys) ->
  store_ok (apply_event sys ev).
Proof.
  intros [Hdisj Hids] Hfresh. unfold store_ok.
  rewrite task_ids_step.
  destruct ev as [req now|k res now|k res now|book_id|book_id]; simpl.
  - destruct (start_generation_tables req now (svc sys)) as [Hd Hc].
    rewrite Hd, Hc.
    assert (Hnew : id req ∉ dom (completed_books (svc sys))).
    { intros Hin. apply (Hfresh (id req)); [simpl; apply list_elem_of_here|].
      apply Hids. right. exact Hin. }
    split; [set_solver|].
    intros b Hb. rewrite elem_of_app, list_elem_of_singleton.
    rewrite elem_of_union, elem_of_singleton in Hb.
    destruct Hb as [[->|Hb]|Hb]; [right; reflexivity|left|left]; apply Hids; tauto.
  - rewrite app_nil_r.
    destruct (tasks sys !! k) as [[req [| |]]|] eqn:Hk; try (split; assumption).
    simpl. destruct (after_research_tables req res now (svc sys)) as [Hd Hc].
    rewrite Hd, Hc. split; assumption.
  - rewrite app_nil_r.
    destruct (tasks sys !! k) as [[req [|r|]]|] eqn:Hk; try (split; assumption).
    simpl. destruct (after_content_tables req r res now (svc sys))
      as [[Hd Hc]|(Hin & Hd & Hc & _)].
    + rewrite Hd, Hc. split; assumption.
    + rewrite Hd, Hc. split; [set_solver|].
      intros b Hb. apply Hids.
      rewrite elem_of_difference, elem_of_union, elem_of_singleton in Hb.
      destruct Hb as [[Hb _]|[->|Hb]]; tauto.
  - rewrite app_nil_r.
    destruct (delete_book_tables book_id (svc sys)) as (Hd & Hc & _).
    rewrite Hd. split; [set_solver|].
    intros b Hb. apply Hids. set_solver.
  - rewrite app_nil_r.
    destruct (cancel_generation_tables book_id (svc sys)) as [Hd Hc].
    rewrite Hd, Hc. split; assumption.
Qed.

(** Every step that puts an id into the completed table is the move at the
    end of that job's successful pipeline. *)
Lemma every_step_moves_at_success book_id sys ev :
  move_at_success book_id sys ev (apply_event sys ev).
Proof.
  unfold move_at_success, enters_completed. intros Hent.
  apply andb_true_iff in Hent as [Hbefore Hafter].
  apply negb_true_iff, holds_not_dom in Hbefore. apply holds_dom in Hafter.
  destruct ev as [req now|k res now|k res now|b|b]; simpl in *.
  - destruct (start_generation_tables req now (svc sys)) as [_ Hc].
    rewrite Hc in Hafter. contradiction.
  - destruct (tasks sys !! k) as [[req [| |]]|] eqn:Hk; try contradiction.
    simpl in Hafter.
    destruct (after_research_tables req res now (svc sys)) as [_ Hc].
    rewrite Hc in Hafter. contradiction.
  - destruct (tasks sys !! k) as [[req [|r|]]|] eqn:Hk; try contradiction.
    simpl in *.
    destruct (after_content_tables req r res now (svc sys))
      as [[_ Hc]|(Hin & Hd & Hc & Hlast & cr & d & a & c & ->)].
    + rewrite Hc in Hafter. contradiction.
    + rewrite Hc in Hafter.
      assert (Hid : id req = book_id) by set_solver. subst book_id.
      split; [apply holds_dom; exact Hin|].
      split; [apply holds_not_dom; rewrite Hd; set_solver|].
      split; [exact Hlast|].
      exists k, req, cr, d, a, c, now, r. repeat split. exact Hk.
  - destruct (delete_book_tables b (svc sys)) as (_ & Hc & _). set_solver.
  - destruct (cancel_generation_tables b (svc sys)) as [_ Hc].
    rewrite Hc in Hafter. contradiction.
Qed.

Lemma every_step_intro P events :
  (forall sys ev, P sys ev (apply_event sys ev)) ->
  forall sys, every_step P events sys.
Proof.
  intros HP. induction events as [|ev rest IH]; intros sys; simpl; [exact I|].
  split; [apply HP|apply IH].
Qed.

(** A task that has run to its end stays so. *)
Lemma finished_step book_id sys ev :
  finished book_id sys -> finished book_id (apply_event sys ev).
Proof.
  intros (k & tk & Hk & Hid & Hst).
  assert (Hkeep : forall k0 req st st',
            tasks sys !! k0 = Some (mkTask req st) -> st <> Finished ->
            <[k0 := mkTask req st']> (tasks sys) !! k = Some tk).
  { intros k0 req st st' Hk0 Hne. rewrite list_lookup_insert_ne; [exact Hk|].
    intros ->. rewrite Hk in Hk0. injection Hk0 as ->. simpl in Hst. congruence. }
  destruct ev as [req now|k0 res now|k0 res now|b|b]; simpl.
  - exists k, tk. repeat split; try assumption. simpl.
    apply lookup_app_l_Some. exact Hk.
  - destruct (tasks sys !! k0) as [[req [| |]]|] eqn:Hk0;
      try (exists k, tk; repeat split; assumption).
    exists k, tk. repeat split; try assumption. simpl.
    apply (Hkeep k0 req AwaitingResearch); [exact Hk0|discriminate].
  - destruct (tasks sys !! k0) as [[req [|r|]]|] eqn:Hk0;
      try (exists k, tk; repeat split; assumption).
    exists k, tk. repeat split; try assumption. simpl.
    apply (Hkeep k0 req (AwaitingContent r)); [exact Hk0|discriminate].
  - exists k, tk. repeat split; assumption.
  - exists k, tk. repeat split; assumption.
Qed.

(** With job ids that are never reused, a run keeps the invariant and puts
    each id into the completed table at most once, and never again once the
    job's task has ended. *)
Lemma run_store_ok book_id events :
  forall sys,
    store_ok sys ->
    NoDup (task_ids sys ++ submitted events) ->
    store_ok (run events sys) /\
    (completions book_id events sys <= 1)%nat /\
    (finished book_id sys -> completions book_id events sys = 0%nat).
Proof.
  induction events as [|ev rest IH]; intros sys Hok Hnd.
  - simpl. split; [exact Hok|]. split; [lia|reflexivity].
  - assert (Hsplit : submitted (ev :: rest) = submitted [ev] ++ submitted rest).
    { unfold submitted. simpl. destruct ev; reflexivity. }
    rewrite Hsplit, app_assoc in Hnd.
    assert (Hnd' : NoDup (task_ids (apply_event sys ev) ++ submitted rest))
      by (rewrite task_ids_step; exact Hnd).
    assert (Hfresh : forall x, x ∈ submitted [ev] -> x ∉ task_ids sys).
    { apply NoDup_app in Hnd as [Hnd _]. apply NoDup_app in Hnd as (_ & Hnd & _).
      intros x Hx Hin. exact (Hnd x Hin Hx). }
    pose proof (store_ok_step sys ev Hok Hfresh) as Hok'.
    destruct (IH (apply_event sys ev) Hok' Hnd') as (Hres & Hle & Hfin).
    simpl. split; [exact Hres|].
    destruct (enters_completed book_id sys (apply_event sys ev)) eqn:Hent.
    + destruct (every_step_moves_at_success book_id sys ev Hent)
        as (_ & _ & _ & k & req & cr & d & a & c & now & r & -> & Hk & Hid).
      assert (Hdone : finished book_id (apply_event sys (ContentReturns k
                        (BaseAgent.TaskSuccess cr d a c) now))).
      { exists k, (mkTask req Finished). simpl. rewrite Hk. simpl.
        repeat split; [|exact Hid].
        apply list_lookup_insert_eq. apply lookup_lt_Some in Hk. exact Hk. }
      rewrite (Hfin Hdone). split; [lia|].
      intros (k' & tk' & Hk' & Hid' & Hst').
      exfalso.
      assert (Hnd0 : NoDup (task_ids sys)).
      { apply NoDup_app in Hnd as [Hnd _]. apply NoDup_app in Hnd as [Hnd _].
        exact Hnd. }
      assert (Hkk : k = k').
      { apply (NoDup_lookup (task_ids sys) k k' book_id Hnd0); unfold task_ids.
        - change (map (fun tk => id (task_request tk)) (tasks sys))
            with ((fun tk => id (task_request tk)) <$> tasks sys).
          rewrite list_lookup_fmap, Hk. simpl. congruence.
        - change (map (fun tk => id (task_request tk)) (tasks sys))
            with ((fun tk => id (task_request tk)) <$> tasks sys).
          rewrite list_lookup_fmap, Hk'. simpl. congruence. }
      subst k'. rewrite Hk in Hk'. injection Hk' as <-. discriminate.
    + simpl. split; [exact Hle|].
      intros Hf. apply Hfin, finished_step, Hf.
Qed.

Lemma completions_reach book_id events :
  forall sys,
    holds (completed_books (svc sys)) book_id = false ->
    holds (completed_books (svc (run events sys))) book_id = true ->
    (1 <= completions book_id events sys)%nat.
Proof.
  induction events as [|ev rest IH]; intros sys Hb Ha; simpl in *.
  - congruence.
  - destruct (enters_completed book_id sys (apply_event sys ev)) eqn:Hent; [lia|].
    simpl. apply IH; [|exact Ha].
    unfold enters_completed in Hent. rewrite Hb in Hent. simpl in Hent. exact Hent.
Qed.

(** The run of [sample_events]: job-1, cancelled on the way, is completed
    and held by the completed table only; job-2 is held by neither. *)
Example sample_run_tables :
  let s := svc (run sample_events initial) in
  (holds (active_generations s) "job-1", holds (completed_books s) "job-1",
   holds (active_generations s) "job-2", holds (completed_books s) "job-2",
   statuses_of "job-1" s, statuses_of "job-2" s)
  = (false, true, false, false,
     [PENDING; RESEARCHING; GENERATING_OUTLINE; CANCELLED; REVIEWING; COMPLETED],
     [PENDING; RESEARCHING; FAILED]).
Proof. vm_compute. reflexivity. Qed.

(** Uniqueness of the ids is needed: an id handed to [generate_book_async]
    again after its job has completed is held by both tables. *)
Example reused_id_in_both_tables :
  let s := svc (run reuse_events initial) in
  holds (active_generations s) "job-1" && holds (completed_books s) "job-1" = true.
Proof. vm_compute. reflexivity. Qed.

(** *** The statuses a run writes *)

Lemma statuses_of_log book_id (s s' : t) b l :
  status_log s' = status_log s ++ map (pair b) l ->
  statuses_of book_id s'
  = statuses_of book_id s ++ (if decide (b = book_id) then l else []).
Proof.
  intros Hlog. unfold statuses_of. rewrite Hlog, List.filter_app, map_app.
  clear Hlog. f_equal. destruct (decide (b = book_id)) as [->|Hne].
  - induction l as [|x l IH]; simpl; [reflexivity|].
    rewrite String.eqb_refl. simpl. rewrite IH. reflexivity.
  - apply String.eqb_neq in Hne.
    induction l as [|x l IH]; simpl; [reflexivity|]. rewrite Hne. exact IH.
Qed.

Lemma pipeline_statuses_log book_id (s s' : t) b l :
  status_log s' = status_log s ++ map (pair b) l ->
  pipeline_statuses book_id s'
  = pipeline_statuses book_id s
    ++ (if decide (b = book_id)
        then List.filter (fun st => negb (bool_decide (st = CANCELLED))) l
        else []).
Proof.
  intros Hlog. unfold pipeline_statuses.
  rewrite (statuses_of_log book_id s s' b l Hlog), List.filter_app.
  destruct (decide (b = book_id)); reflexivity.
Qed.

Lemma update_log book_id new_status new_progress msg now (s : t) :
  status_log (_update_book_status book_id new_status new_progress msg now s)
  = status_log s
    ++ map (pair book_id)
         (if holds (active_generations s) book_id then [new_status] else []).
Proof.
  unfold _update_book_status, holds.
  destruct (active_generations s !! book_id); simpl; [reflexivity|].
  rewrite app_nil_r. reflexivity.
Qed.

Lemma on_exception_log book_id e now (s : t) :
  status_log (on_exception book_id e now s)
  = status_log s
    ++ map (pair book_id)
         (if holds (active_generations s) book_id then [FAILED] else []).
Proof.
  unfold on_exception.
  rewrite <- (update_log book_id FAILED None ("Generation failed: " ++ e)%string now s).
  destruct (active_generations (_update_book_status _ _ _ _ _ s) !! book_id);
    reflexivity.
Qed.

Lemma start_generation_log req now (s : t) :
  status_log (start_generation req now s)
  = status_log s ++ map (pair (id req)) [PENDING; RESEARCHING].
Proof.
  destruct (start_generation_spec req now s) as (_ & _ & _ & _ & _ & _ & Hlog).
  exact Hlog.
Qed.

Lemma after_research_log req res now (s : t) :
  status_log (after_research req res now s)
  = status_log s
    ++ map (pair (id req))
         (if holds (active_generations s) (id req)
          then [if BaseAgent.success res then GENERATING_OUTLINE else FAILED]
          else []).
Proof.
  unfold after_research. destruct res; simpl.
  - apply update_log.
  - apply on_exception_log.
Qed.

Lemma holds_update book_id new_status new_progress msg now (s : t) b :
  holds (active_generations
           (_update_book_status book_id new_status new_progress msg now s)) b
  = holds (active_generations s) b.
Proof.
  destruct (update_tables book_id new_status new_progress msg now s) as [Hd _].
  destruct (holds (active_generations s) b) eqn:Hb.
  - apply holds_dom. rewrite Hd. apply holds_dom. exact Hb.
  - apply holds_not_dom. rewrite Hd. apply holds_not_dom. exact Hb.
Qed.

Lemma after_content_log req r res now (s : t) :
  status_log (after_content req r res now s)
  = status_log s
    ++ map (pair (id req))
         (if holds (active_generations s) (id req)
          then (if BaseAgent.success res then [REVIEWING; COMPLETED] else [FAILED])
          else []).
Proof.
  unfold after_content. destruct res as [cr d a c|err a f]; simpl.
  - pose proof (update_log (id req) REVIEWING (Some 85)
                  "Content generated, reviewing quality" now s) as H1.
    pose proof (holds_update (id req) REVIEWING (Some 85)
                  "Content generated, reviewing quality" now s (id req)) as Hh1.
    set (s1 := _update_book_status _ REVIEWING _ _ _ s) in *.
    pose proof (update_log (id req) COMPLETED (Some 100)
                  "Book generation completed" now s1) as H2.
    pose proof (holds_update (id req) COMPLETED (Some 100)
                  "Book generation completed" now s1 (id req)) as Hh2.
    set (s2 := _update_book_status _ COMPLETED _ _ _ s1) in *.
    rewrite Hh1 in H2. rewrite Hh1 in Hh2.
    unfold holds in Hh2 at 1.
    destruct (active_generations s2 !! id req) as [g|] eqn:Hg.
    + simpl. rewrite H2, H1, <- Hh2. simpl. rewrite <- app_assoc. reflexivity.
    + rewrite on_exception_log. unfold holds at 1. rewrite Hg.
      rewrite H2, H1, <- Hh2. simpl. rewrite !app_nil_r. reflexivity.
  - apply on_exception_log.
Qed.

Lemma cancel_generation_log book_id (s : t) :
  status_log (snd (cancel_generation book_id s))
  = status_log s
    ++ map (pair book_id)
         (if holds (active_generations s) book_id then [CANCELLED] else []).
Proof.
  unfold cancel_generation, holds.
  destruct (active_generations s !! book_id); simpl; [reflexivity|].
  rewrite app_nil_r. reflexivity.
Qed.

Lemma delete_book_log book_id (s : t) :
  status_log (snd (delete_book book_id s)) = status_log s.
Proof.
  unfold delete_book.
  destruct (active_generations s !! book_id); [reflexivity|].
  destruct (completed_books s !! book_id); reflexivity.
Qed.

Lemma stage_statuses_frame book_id sys sys' st :
  pipeline_statuses book_id (svc sys') = pipeline_statuses book_id (svc sys) ->
  (book_id ∈ dom (active_generations (svc sys')) ->
   book_id ∈ dom (active_generations (svc sys))) ->
  stage_statuses book_id sys st -> stage_statuses book_id sys' st.
Proof.
  unfold stage_statuses. intros Hl Hd. rewrite Hl.
  destruct st; [tauto| |tauto]. intros [H1 H2]. split; [|exact H2].
  intros Hin. apply H1, Hd, Hin.
Qed.

Lemma task_id_listed sys k tk :
  tasks sys !! k = Some tk -> id (task_request tk) ∈ task_ids sys.
Proof.
  intros Hk. unfold task_ids.
  apply (list_elem_of_fmap_2 (fun tk => id (task_request tk))).
  apply list_elem_of_lookup. exists k. exact Hk.
Qed.

Lemma task_unique sys k k' tk tk' :
  NoDup (task_ids sys) ->
  tasks sys !! k = Some tk -> tasks sys !! k' = Some tk' ->
  id (task_request tk) = id (task_request tk') -> k = k'.
Proof.
  intros Hnd Hk Hk' Hid.
  apply (NoDup_lookup (task_ids sys) k k' (id (task_request tk)) Hnd); unfold task_ids;
    change (map (fun tk => id (task_request tk)) (tasks sys))
      with ((fun tk => id (task_request tk)) <$> tasks sys);
    rewrite list_lookup_fmap.
  - rewrite Hk. reflexivity.
  - rewrite Hk'. simpl. congruence.
Qed.

(** In a path list: decided by looking. *)
Ltac in_paths :=
  unfold pipeline_paths;
  repeat first [apply list_elem_of_here | apply list_elem_of_further].

(** A step for a task of another job, or a client's call, leaves the
    statuses of [book_id] as they are. *)
Lemma statuses_ok_frame book_id sys sys' :
  statuses_ok book_id sys ->
  statuses_of book_id (svc sys') = statuses_of book_id (svc sys)
  \/ (pipeline_statuses book_id (svc sys') = pipeline_statuses book_id (svc sys)
      /\ book_id ∈ task_ids sys) ->
  (book_id ∈ dom (active_generations (svc sys')) ->
   book_id ∈ dom (active_generations (svc sys))) ->
  (forall x, x ∈ task_ids sys -> x ∈ task_ids sys') ->
  (forall k tk, tasks sys' !! k = Some tk -> id (task_request tk) = book_id ->
                exists st, tasks sys !! k = Some (mkTask (task_request tk) st)
                           /\ (st = task_stage tk)) ->
  statuses_ok book_id sys'.
Proof.
  intros [H0 H1] Hlog Hdom Hids Htasks.
  assert (Hp : pipeline_statuses book_id (svc sys')
               = pipeline_statuses book_id (svc sys)).
  { destruct Hlog as [Hlog|[Hlog _]]; [|exact Hlog].
    unfold pipeline_statuses. rewrite Hlog. reflexivity. }
  split.
  - intros Hnot. destruct Hlog as [Hlog|[_ Hin]].
    + rewrite Hlog. apply H0. intros Hin. apply Hnot, Hids, Hin.
    + exfalso. apply Hnot, Hids, Hin.
  - intros k tk Hk Hid.
    destruct (Htasks k tk Hk Hid) as (st & Hold & ->).
    apply (stage_statuses_frame book_id sys sys' _ Hp Hdom).
    exact (H1 k _ Hold Hid).
Qed.


(** The invariant of the statuses is kept by every step. *)
Lemma statuses_ok_step book_id sys ev :
  store_ok sys -> NoDup (task_ids sys) ->
  (forall x, x ∈ submitted [ev] -> x ∉ task_ids sys) ->
  statuses_ok book_id sys ->
  statuses_ok book_id (apply_event sys ev).
Proof.
  intros [Hdisj Hstored] Hnd Hfresh Hok.
  pose proof Hok as [H0 H1].
  destruct ev as [req now|k res now|k res now|b|b].
  - (* Submit *)
    simpl. destruct (start_generation_tables req now (svc sys)) as [Hd _].
    pose proof (start_generation_log req now (svc sys)) as Hlog.
    assert (Hnew : id req ∉ task_ids sys)
      by (apply Hfresh; simpl; apply list_elem_of_here).
    destruct (decide (id req = book_id)) as [Heq|Hne].
    + subst book_id. split.
      * intros Hnot. exfalso. apply Hnot. unfold task_ids. simpl.
        rewrite map_app. apply elem_of_app. right. apply list_elem_of_here.
      * intros k tk Hk Hid. simpl in Hk.
        apply lookup_app_Some in Hk as [Hk|[_ Hk]].
        { exfalso. apply Hnew. rewrite <- Hid. exact (task_id_listed _ _ _ Hk). }
        destruct (k - length (tasks sys))%nat; [|discriminate].
        injection Hk as <-. simpl. unfold pipeline_statuses.
        rewrite (statuses_of_log _ _ _ _ _ Hlog), (H0 Hnew).
        rewrite decide_True by reflexivity. reflexivity.
    + apply (statuses_ok_frame book_id sys _ Hok).
      * left. simpl. rewrite (statuses_of_log _ _ _ _ _ Hlog).
        rewrite decide_False by exact Hne. apply app_nil_r.
      * simpl. rewrite Hd. set_solver.
      * intros x Hx. unfold task_ids. simpl. rewrite map_app.
        apply elem_of_app. left. exact Hx.
      * intros k tk Hk Hid. simpl in Hk.
        apply lookup_app_Some in Hk as [Hk|[_ Hk]].
        { exists (task_stage tk). destruct tk; split; [exact Hk|reflexivity]. }
        destruct (k - length (tasks sys))%nat; [|discriminate].
        injection Hk as <-. simpl in Hid. contradiction.
  - (* ResearchReturns *)
    simpl. destruct (tasks sys !! k) as [[req [|r0|]]|] eqn:Hk; try exact Hok.
    destruct (after_research_tables req res now (svc sys)) as [Hd _].
    pose proof (after_research_log req res now (svc sys)) as Hlog.
    pose proof (task_ids_insert sys k req AwaitingResearch
                  (match res with
                   | BaseAgent.TaskSuccess r _ _ _ => AwaitingContent r
                   | BaseAgent.TaskFailure _ _ _ => Finished
                   end) Hk) as Hids.
    destruct (decide (id req = book_id)) as [Heq|Hne].
    + subst book_id. split.
      * intros Hnot. exfalso. apply Hnot. unfold task_ids. simpl.
        rewrite Hids. exact (task_id_listed _ _ _ Hk).
      * intros k' tk' Hk' Hid'. simpl in Hk'.
        destruct (decide (k' = k)) as [->|Hkk].
        -- rewrite list_lookup_insert_eq in Hk' by (apply lookup_lt_Some in Hk; exact Hk).
           injection Hk' as <-. simpl.
           pose proof (H1 k _ Hk eq_refl) as Hold. simpl in Hold.
           unfold stage_statuses. simpl svc.
           rewrite (pipeline_statuses_log _ _ _ _ _ Hlog), Hold.
           rewrite decide_True by reflexivity. rewrite Hd.
           destruct (holds (active_generations (svc sys)) (id req)) eqn:Hh.
           ++ destruct res; simpl.
              ** split; [intros _; reflexivity|right; reflexivity].
              ** split; [in_paths|discriminate].
           ++ apply holds_not_dom in Hh. destruct res; simpl.
              ** split; [intros Hin; contradiction|left; reflexivity].
              ** split; [in_paths|discriminate].
        -- rewrite list_lookup_insert_ne in Hk' by congruence.
           exfalso. apply Hkk. symmetry.
           apply (task_unique sys k k' _ _ Hnd Hk Hk'). simpl. congruence.
    + apply (statuses_ok_frame book_id sys _ Hok).
      * left. simpl. rewrite (statuses_of_log _ _ _ _ _ Hlog).
        rewrite decide_False by exact Hne. apply app_nil_r.
      * simpl. rewrite Hd. tauto.
      * intros x Hx. unfold task_ids. simpl. rewrite Hids. exact Hx.
      * intros k' tk' Hk' Hid'. simpl in Hk'.
        destruct (decide (k' = k)) as [->|Hkk].
        -- rewrite list_lookup_insert_eq in Hk' by (apply lookup_lt_Some in Hk; exact Hk).
           injection Hk' as <-. simpl in Hid'. contradiction.
        -- rewrite list_lookup_insert_ne in Hk' by congruence.
           exists (task_stage tk'). destruct tk'; split; [exact Hk'|reflexivity].
  - (* ContentReturns *)
    simpl. destruct (tasks sys !! k) as [[req [|r|]]|] eqn:Hk; try exact Hok.
    pose proof (after_content_log req r res now (svc sys)) as Hlog.
    pose proof (task_ids_insert sys k req (AwaitingContent r) Finished Hk) as Hids.
    assert (Hdom : forall x,
              x ∈ dom (active_generations (after_content req r res now (svc sys))) ->
              x ∈ dom (active_generations (svc sys))).
    { intros x. destruct (after_content_tables req r res now (svc sys))
        as [[Hd _]|(_ & Hd & _)]; rewrite Hd; set_solver. }
    destruct (decide (id req = book_id)) as [Heq|Hne].
    + subst book_id. split.
      * intros Hnot. exfalso. apply Hnot. unfold task_ids. simpl.
        rewrite Hids. exact (task_id_listed _ _ _ Hk).
      * intros k' tk' Hk' Hid'. simpl in Hk'.
        destruct (decide (k' = k)) as [->|Hkk].
        -- rewrite list_lookup_insert_eq in Hk' by (apply lookup_lt_Some in Hk; exact Hk).
           injection Hk' as <-. simpl.
           pose proof (H1 k _ Hk eq_refl) as [Hact Hold]. simpl in Hact, Hold.
           unfold stage_statuses. simpl svc.
           rewrite (pipeline_statuses_log _ _ _ _ _ Hlog).
           rewrite decide_True by reflexivity.
           destruct (holds (active_generations (svc sys)) (id req)) eqn:Hh.
           ++ apply holds_dom in Hh. rewrite (Hact Hh).
              destruct res; simpl; (split; [in_paths|discriminate]).
           ++ simpl. rewrite app_nil_r.
              destruct Hold as [->| ->]; (split; [in_paths|discriminate]).
        -- rewrite list_lookup_insert_ne in Hk' by congruence.
           exfalso. apply Hkk. symmetry.
           apply (task_unique sys k k' _ _ Hnd Hk Hk'). simpl. congruence.
    + apply (statuses_ok_frame book_id sys _ Hok).
      * left. simpl. rewrite (statuses_of_log _ _ _ _ _ Hlog).
        rewrite decide_False by exact Hne. apply app_nil_r.
      * simpl. apply Hdom.
      * intros x Hx. unfold task_ids. simpl. rewrite Hids. exact Hx.
      * intros k' tk' Hk' Hid'. simpl in Hk'.
        destruct (decide (k' = k)) as [->|Hkk].
        -- rewrite list_lookup_insert_eq in Hk' by (apply lookup_lt_Some in Hk; exact Hk).
           injection Hk' as <-. simpl in Hid'. contradiction.
        -- rewrite list_lookup_insert_ne in Hk' by congruence.
           exists (task_stage tk'). destruct tk'; split; [exact Hk'|reflexivity].
  - (* Delete *)
    apply (statuses_ok_frame book_id sys _ Hok).
    + left. simpl. unfold statuses_of. rewrite delete_book_log. reflexivity.
    + simpl. destruct (delete_book_tables b (svc sys)) as (Hd & _).
      rewrite Hd. set_solver.
    + intros x Hx. exact Hx.
    + intros k tk Hk Hid. exists (task_stage tk).
      destruct tk; split; [exact Hk|reflexivity].
  - (* Cancel *)
    pose proof (cancel_generation_log b (svc sys)) as Hlog.
    destruct (cancel_generation_tables b (svc sys)) as [Hd _].
    apply (statuses_ok_frame book_id sys _ Hok).
    + destruct (decide (b = book_id)) as [->|Hne].
      * destruct (holds (active_generations (svc sys)) book_id) eqn:Hh.
        -- right. split.
           ++ simpl. rewrite (pipeline_statuses_log _ _ _ _ _ Hlog).
              rewrite decide_True by reflexivity. simpl. apply app_nil_r.
           ++ apply Hstored. left. apply holds_dom. exact Hh.
        -- left. simpl. rewrite (statuses_of_log _ _ _ _ _ Hlog).
           rewrite decide_True by reflexivity. apply app_nil_r.
      * left. simpl. rewrite (statuses_of_log _ _ _ _ _ Hlog).
        rewrite decide_False by exact Hne. apply app_nil_r.
    + simpl. rewrite Hd. tauto.
    + intros x Hx. exact Hx.
    + intros k tk Hk Hid. exists (task_stage tk).
      destruct tk; split; [exact Hk|reflexivity].
Qed.

Lemma run_statuses_ok book_id events :
  forall sys,
    store_ok sys ->
    NoDup (task_ids sys ++ submitted events) ->
    statuses_ok book_id sys ->
    statuses_ok book_id (run events sys).
Proof.
  induction events as [|ev rest IH]; intros sys Hok Hnd Hst; [exact Hst|].
  assert (Hsplit : submitted (ev :: rest) = submitted [ev] ++ submitted rest).
  { unfold submitted. simpl. destruct ev; reflexivity. }
  rewrite Hsplit, app_assoc in Hnd.
  assert (Hnd' : NoDup (task_ids (apply_event sys ev) ++ submitted rest))
    by (rewrite task_ids_step; exact Hnd).
  apply NoDup_app in Hnd as [Hnd _]. apply NoDup_app in Hnd as (Hnd0 & Hnd & _).
  assert (Hfresh : forall x, x ∈ submitted [ev] -> x ∉ task_ids sys).
  { intros x Hx Hin. exact (Hnd x Hin Hx). }
  simpl. apply IH.
  - apply store_ok_step; assumption.
  - exact Hnd'.
  - apply statuses_ok_step; assumption.
Qed.

Lemma statuses_ok_paths book_id sys :
  statuses_ok book_id sys ->
  pipeline_statuses book_id (svc sys) ∈ pipeline_paths.
Proof.
  intros [H0 H1].
  destruct (decide (book_id ∈ task_ids sys)) as [Hin|Hout].
  - unfold task_ids in Hin.
    apply (list_elem_of_fmap (fun tk => id (task_request tk))) in Hin
      as (tk & Hid & Htk).
    apply list_elem_of_lookup in Htk as [k Hk].
    pose proof (H1 k tk Hk (eq_sym Hid)) as Hst. unfold stage_statuses in Hst.
    destruct (task_stage tk).
    + rewrite Hst. in_paths.
    + destruct Hst as [_ [-> | ->]]; in_paths.
    + exact (proj1 Hst).
  - unfold pipeline_statuses. rewrite (H0 Hout). in_paths.
Qed.

(** *** The move to the completed table *)

(** What a step appends to the history of status writes; Completed is
    written only by the successful return of the Content agent to a pipeline
    whose entry is still in the active table. *)
Lemma step_log sys ev :
  exists b l,
    status_log (svc (apply_event sys ev)) = status_log (svc sys) ++ map (pair b) l /\
    (COMPLETED ∈ l ->
     exists k req cr d a c now r,
       ev = ContentReturns k (BaseAgent.TaskSuccess cr d a c) now /\
       tasks sys !! k = Some (mkTask req (AwaitingContent r)) /\
       id req = b /\
       holds (active_generations (svc sys)) b = true).
Proof.
  assert (Hnone : exists b l,
            status_log (svc sys) = status_log (svc sys) ++ map (pair b) l /\
            (COMPLETED ∈ l ->
             exists k req cr d a c now r,
               ev = ContentReturns k (BaseAgent.TaskSuccess cr d a c) now /\
               tasks sys !! k = Some (mkTask req (AwaitingContent r)) /\
               id req = b /\
               holds (active_generations (svc sys)) b = true)).
  { exists "", []. split; [rewrite app_nil_r; reflexivity|].
    intros H. apply elem_of_nil in H. contradiction. }
  destruct ev as [req now|k res now|k res now|b|b]; simpl.
  - eexists _, _. split; [apply start_generation_log|].
    rewrite !elem_of_cons, elem_of_nil. intros [H|[H|[]]]; discriminate.
  - destruct (tasks sys !! k) as [[req [| |]]|] eqn:Hk; try exact Hnone.
    simpl. eexists _, _. split; [apply after_research_log|].
    destruct (holds _ _); [|intros H; apply elem_of_nil in H; contradiction].
    rewrite elem_of_cons, elem_of_nil.
    destruct (BaseAgent.success res); intros [H|[]]; discriminate.
  - destruct (tasks sys !! k) as [[req [|r|]]|] eqn:Hk; try exact Hnone.
    simpl. eexists _, _. split; [apply after_content_log|].
    destruct (holds (active_generations (svc sys)) (id req)) eqn:Hh;
      [|intros H; apply elem_of_nil in H; contradiction].
    destruct res as [cr d a c|err a f]; simpl.
    + intros _. exists k, req, cr, d, a, c, now, r. repeat split; assumption.
    + rewrite elem_of_cons, elem_of_nil. intros [H|[]]; discriminate.
  - exists b, []. rewrite delete_book_log, app_nil_r. split; [reflexivity|].
    intros H. apply elem_of_nil in H. contradiction.
  - eexists _, _. split; [apply cancel_generation_log|].
    destruct (holds _ _); [|intros H; apply elem_of_nil in H; contradiction].
    rewrite elem_of_cons, elem_of_nil. intros [H|[]]; discriminate.
Qed.

(** The successful return of the Content agent finds the entry, sets it
    Completed and moves it. *)
Lemma after_content_success req r cr d a c now (s : t) :
  holds (active_generations s) (id req) = true ->
  let s' := after_content req r (BaseAgent.TaskSuccess cr d a c) now s in
  holds (active_generations s') (id req) = false /\
  holds (completed_books s') (id req) = true /\
  option_map bd_book_content (completed_books s' !! id req) = Some (book_content cr) /\
  COMPLETED ∈ statuses_of (id req) s'.
Proof.
  intros Hh s'.
  assert (Hst : COMPLETED ∈ statuses_of (id req) s').
  { pose proof (after_content_log req r (BaseAgent.TaskSuccess cr d a c) now s) as Hlog.
    fold s' in Hlog. rewrite Hh in Hlog. cbn [BaseAgent.success] in Hlog.
    rewrite (statuses_of_log (id req) s s' (id req) [REVIEWING; COMPLETED] Hlog).
    rewrite decide_True by reflexivity. rewrite elem_of_app. right.
    apply list_elem_of_further, list_elem_of_here. }
  split; [|split; [|split; [|exact Hst]]]; clear Hst; subst s';
    unfold holds in Hh;
    (destruct (active_generations s !! id req) as [g|] eqn:Hg; [|discriminate]);
    unfold after_content;
    destruct (update_of_present_job (id req) REVIEWING (Some 85)
                "Content generated, reviewing quality" now s g Hg) as (g1 & Hg1 & _);
    match type of Hg1 with
    | active_generations ?st !! _ = _ => generalize dependent st; intros s1 Hg1
    end;
    destruct (update_of_present_job (id req) COMPLETED (Some 100)
                "Book generation completed" now s1 g1 Hg1) as (g2 & Hg2 & _);
    match type of Hg2 with
    | active_generations ?st !! _ = _ => generalize dependent st; intros s2 Hg2
    end;
    cbn zeta; rewrite Hg2; unfold holds; simpl;
    rewrite ?lookup_delete_eq, ?lookup_insert_eq; reflexivity.
Qed.

Lemma success_moves_step book_id sys ev :
  store_ok sys -> success_moves book_id sys ev (apply_event sys ev).
Proof.
  intros [Hdisj _] k req cr d a c now r -> Hk <- Hh.
  assert (Hstep : svc (apply_event sys
                         (ContentReturns k (BaseAgent.TaskSuccess cr d a c) now))
                  = after_content req r (BaseAgent.TaskSuccess cr d a c) now (svc sys))
    by (simpl; rewrite Hk; reflexivity).
  destruct (after_content_success req r cr d a c now (svc sys) Hh)
    as (Ha & Hc & Hbook & Hst).
  unfold enters_completed, reached_completed. rewrite Hstep.
  split; [|split; [exact Ha|split; [exact Hbook|]]].
  - rewrite Hc, andb_true_r.
    apply negb_true_iff, holds_not_dom. apply holds_dom in Hh. set_solver.
  - apply bool_decide_eq_true_2. exact Hst.
Qed.

(** A step writes Completed for a job exactly when it moves the job's
    record. *)
Lemma completed_written_step book_id sys ev :
  store_ok sys ->
  (COMPLETED ∈ statuses_of book_id (svc (apply_event sys ev))
   <-> COMPLETED ∈ statuses_of book_id (svc sys)
       \/ enters_completed book_id sys (apply_event sys ev) = true).
Proof.
  intros Hok. destruct (step_log sys ev) as (b & l & Hlog & Hwho). split.
  - rewrite (statuses_of_log book_id _ _ b l Hlog), elem_of_app.
    intros [H|H]; [left; exact H|right].
    destruct (decide (b = book_id)) as [->|Hne];
      [|apply elem_of_nil in H; contradiction].
    destruct (Hwho H) as (k & req & cr & d & a & c & now & r & Hev & Hk & Hid & Hh).
    apply (success_moves_step book_id sys ev Hok k req cr d a c now r Hev Hk Hid Hh).
  - intros [H|H].
    + rewrite (statuses_of_log book_id _ _ b l Hlog), elem_of_app. left. exact H.
    + destruct (every_step_moves_at_success book_id sys ev H)
        as (Hact & _ & _ & k & req & cr & d & a & c & now & r & Hev & Hk & Hid).
      destruct (success_moves_step book_id sys ev Hok k req cr d a c now r
                  Hev Hk Hid Hact) as (_ & _ & _ & Hst).
      unfold reached_completed in Hst. apply bool_decide_eq_true_1 in Hst. exact Hst.
Qed.

(** With job ids that are never reused, Completed has been written for a
    job exactly when one step of the run has moved its record, and every
    successful return to a pipeline whose entry is still active moves it. *)
Lemma run_moves book_id events :
  forall sys,
    store_ok sys ->
    NoDup (task_ids sys ++ submitted events) ->
    (COMPLETED ∈ statuses_of book_id (svc (run events sys))
     <-> COMPLETED ∈ statuses_of book_id (svc sys)
         \/ (1 <= completions book_id events sys)%nat) /\
    every_step (success_moves book_id) events sys.
Proof.
  induction events as [|ev rest IH]; intros sys Hok Hnd.
  - simpl. split; [|exact I]. split; [tauto|intros [H|H]; [exact H|lia]].
  - assert (Hsplit : submitted (ev :: rest) = submitted [ev] ++ submitted rest).
    { unfold submitted. simpl. destruct ev; reflexivity. }
    rewrite Hsplit, app_assoc in Hnd.
    assert (Hnd' : NoDup (task_ids (apply_event sys ev) ++ submitted rest))
      by (rewrite task_ids_step; exact Hnd).
    assert (Hfresh : forall x, x ∈ submitted [ev] -> x ∉ task_ids sys).
    { apply NoDup_app in Hnd as [Hnd _]. apply NoDup_app in Hnd as (_ & Hnd & _).
      intros x Hx Hin. exact (Hnd x Hin Hx). }
    pose proof (store_ok_step sys ev Hok Hfresh) as Hok'.
    destruct (IH (apply_event sys ev) Hok' Hnd') as [Hiff Hall].
    simpl. split; [|split; [apply success_moves_step, Hok|exact Hall]].
    rewrite Hiff, (completed_written_step book_id sys ev Hok).
    destruct (enters_completed book_id sys (apply_event sys ev)); simpl.
    + split; [intros _; right; lia|intros _; left; right; reflexivity].
    + split; [intros [[H|H]|H]; [left; exact H|discriminate|right; exact H]
             |intros [H|H]; [left; left; exact H|right; exact H]].
Qed.

(** C6 (as amended).  With job ids that are not reused (the HTTP layer draws
    each with uuid4), at every state a run of the orchestrator reaches no
    job id is in both tables.  A job's record is moved to the completed
    table exactly once when the job reaches its terminal success (the status
    Completed is written for it), and never otherwise, also when the job is
    deleted afterwards: each step that puts the id into the completed table
    is the successful return of the Content agent to the job's own pipeline
    (entry found in the active table, set Completed, removed from it), and
    each such return with the entry still active moves the record.
    [delete_book] removes the id from the table that holds it, reports
    whether there was one, and touches no other entry. *)
Theorem job_store_invariant (events : list event) (book_id : string) :
  NoDup (submitted events) ->
  let sys := run events initial in
  let s' := snd (delete_book book_id (svc sys)) in
  holds (active_generations (svc sys)) book_id
    && holds (completed_books (svc sys)) book_id = false /\
  completions book_id events initial
  = (if reached_completed book_id (svc sys) then 1 else 0)%nat /\
  every_step (move_at_success book_id) events initial /\
  every_step (success_moves book_id) events initial /\
  fst (delete_book book_id (svc sys))
    = holds (active_generations (svc sys)) book_id
      || holds (completed_books (svc sys)) book_id /\
  holds (active_generations s') book_id = false /\
  holds (completed_books s') book_id = false /\
  forall other, other <> book_id ->
    active_generations s' !! other = active_generations (svc sys) !! other /\
    completed_books s' !! other = completed_books (svc sys) !! other.
Proof.
  intros Hnd sys s'.
  assert (Hinit : store_ok initial).
  { split; simpl; [set_solver|]. intros b [Hb|Hb]; set_solver. }
  destruct (run_store_ok book_id events initial Hinit Hnd) as ([Hdisj _] & Hle & _).
  destruct (run_moves book_id events initial Hinit Hnd) as [Hiff Hmoves].
  fold sys in Hdisj, Hiff.
  destruct (delete_book_tables book_id (svc sys)) as (Hda & Hdc & Hdn & Hother & Hfound).
  fold s' in Hda, Hdc, Hdn, Hother.
  split.
  { destruct (holds (active_generations (svc sys)) book_id) eqn:Ha; [|reflexivity].
    simpl. apply holds_not_dom. apply holds_dom in Ha. set_solver. }
  split.
  { unfold reached_completed. case_bool_decide as Hc.
    - apply Hiff in Hc as [Hc|Hc]; [|lia].
      simpl in Hc. apply elem_of_nil in Hc. contradiction.
    - destruct (completions book_id events initial) as [|n] eqn:Hn; [reflexivity|].
      exfalso. apply Hc, Hiff. right. lia. }
  split; [apply every_step_intro; intros; apply every_step_moves_at_success|].
  split; [exact Hmoves|].
  split; [exact Hfound|].
  split; [apply holds_not_dom; rewrite Hda; set_solver|].
  split; [|exact Hother].
  apply holds_not_dom.
  destruct (decide (book_id ∈ dom (active_generations (svc sys)))) as [Hin|Hout].
  - set_solver.
  - apply Hdn, Hout.
Qed.

Lemma job_store_invariant_witness :
  holds (active_generations (svc (run sample_events initial))) "job-1"
    && holds (completed_books (svc (run sample_events initial))) "job-1" = false /\
  completions "job-1" sample_events initial = 1%nat /\
  completions "job-2" sample_events initial = 0%nat /\
  every_step (move_at_success "job-1") sample_events initial /\
  every_step (success_moves "job-1") sample_events initial.
Proof.
  assert (Hnd : NoDup (submitted sample_events)).
  { apply (bool_decide_unpack _). vm_compute. exact I. }
  destruct (job_store_invariant sample_events "job-1" Hnd) as (H1 & H2 & H3 & H4 & _).
  split; [exact H1|]. split; [exact H2|]. split; [reflexivity|].
  split; [exact H3|exact H4].
Defined.

(** C6, the statement as written fails: [generate_book_async] does not
    check the id it is given, and an id handed to it again after the first
    job has completed is held by both tables. *)
Lemma reused_job_id_held_by_both_tables : ~ one_table_per_job.
Proof.
  intros H. specialize (H reuse_events "job-1"). vm_compute in H. discriminate.
Qed.

(** A job that completes and is deleted afterwards has been moved once. *)
Example completed_then_deleted_moved_once :
  let events := firstn 3 reuse_events ++ [Delete "job-1"] in
  completions "job-1" events initial = 1%nat /\
  holds (completed_books (svc (run events initial))) "job-1" = false /\
  reached_completed "job-1" (svc (run events initial)) = true.
Proof. vm_compute. repeat split. Qed.

(** C1 (as amended).  In every run of the orchestrator, whatever jobs,
    cancel and delete requests are interleaved (job ids not reused), the
    statuses the pipeline writes for a job are one of the forward paths
    Pending, Researching, [GeneratingOutline, [Reviewing, Completed]] with
    Failed possibly ending it early: the sequence is strictly forward, and a
    job whose status reaches Completed has been given exactly Pending,
    Researching, GeneratingOutline, Reviewing, Completed, in that order.
    WritingContent is never written. *)
Theorem pipeline_statuses_forward (events : list event) (book_id : string) :
  NoDup (submitted events) ->
  let s := svc (run events initial) in
  let written := pipeline_statuses book_id s in
  written ∈ pipeline_paths /\
  strictly_forward written = true /\
  (WRITING_CONTENT ∉ statuses_of book_id s) /\
  (written = [PENDING; RESEARCHING; GENERATING_OUTLINE; REVIEWING; COMPLETED]
   \/ COMPLETED ∉ written).
Proof.
  intros Hnd s written.
  assert (Hinit : store_ok initial).
  { split; simpl; [set_solver|]. intros b [Hb|Hb]; set_solver. }
  assert (Hst : statuses_ok book_id initial).
  { split; [reflexivity|]. intros k tk Hk. simpl in Hk.
    rewrite lookup_nil in Hk. discriminate. }
  pose proof (statuses_ok_paths book_id _
                (run_statuses_ok book_id events initial Hinit Hnd Hst)) as Hpaths.
  fold s in Hpaths. fold written in Hpaths.
  split; [exact Hpaths|].
  assert (Hnowc : WRITING_CONTENT ∉ written).
  { unfold pipeline_paths in Hpaths.
    repeat (apply elem_of_cons in Hpaths as [->|Hpaths];
            [intros Hin;
             repeat (apply elem_of_cons in Hin as [Hin|Hin]; [discriminate|]);
             apply elem_of_nil in Hin; exact Hin|]).
    apply elem_of_nil in Hpaths. contradiction. }
  split; [|split].
  - unfold pipeline_paths in Hpaths.
    repeat (apply elem_of_cons in Hpaths as [->|Hpaths]; [reflexivity|]).
    apply elem_of_nil in Hpaths. contradiction.
  - intros Hin. apply Hnowc. unfold written, pipeline_statuses.
    apply list_elem_of_In, filter_In. split; [apply list_elem_of_In, Hin|reflexivity].
  - unfold pipeline_paths in Hpaths.
    repeat (apply elem_of_cons in Hpaths as [->|Hpaths];
            [first [left; reflexivity
                   |right; intros Hin;
                    repeat (apply elem_of_cons in Hin as [Hin|Hin]; [discriminate|]);
                    apply elem_of_nil in Hin; exact Hin]|]).
    apply elem_of_nil in Hpaths. contradiction.
Qed.

Lemma pipeline_statuses_forward_witness :
  pipeline_statuses "job-1" (svc (run sample_events initial))
    = [PENDING; RESEARCHING; GENERATING_OUTLINE; REVIEWING; COMPLETED] /\
  strictly_forward (pipeline_statuses "job-1" (svc (run sample_events initial)))
    = true /\
  (WRITING_CONTENT ∉ statuses_of "job-1" (svc (run sample_events initial))).
Proof.
  assert (Hnd : NoDup (submitted sample_events)).
  { apply (bool_decide_unpack _). vm_compute. exact I. }
  destruct (pipeline_statuses_forward sample_events "job-1" Hnd)
    as (_ & Hfwd & Hnowc & Hfull).
  split; [|split; [exact Hfwd|exact Hnowc]].
  destruct Hfull as [Hfull|Hnot]; [exact Hfull|].
  exfalso. apply Hnot. vm_compute.
  do 4 apply list_elem_of_further. apply list_elem_of_here.
Defined.

End BookGenerationServiceFacts.

(** ** The Research agent *)

Section ResearchAgentFacts.
Import ResearchAgent.

(** A Research agent starts as a base agent with its own configuration. *)
Lemma research_init_reachable name now : BaseAgent.reachable (init name now).
Proof.
  exact (BaseAgent.reach_init name RESEARCH
           (Some (BaseAgent.config (init name now))) now).
Qed.



(** An answer without a section of more than 50 characters yields no
    snippet at all. *)
Example parsed_sources_can_be_empty :
  _parse_simulated_research "I could not find any sources." = [].
Proof. reflexivity. Qed.






Example sample_gathers_two_snippets :
  option_map (fun l => map source l)
    (match _conduct_web_research LLMService.sample_settings sample_world with
     | inl l => Some l | inr _ => None end)
  = Some ["llm_simulation"; "llm_simulation"].
Proof. vm_compute. reflexivity. Qed.

End ResearchAgentFacts.

(** ** More on the provider registry *)

Section LLMServiceMore.
Import LLMService.

Lemma dict_get_set_eq {V} k (v : V) d : dict_get (dict_set k v d) k = Some v.
Proof.
  induction d as [|[k' v'] d IH]; simpl.
  - rewrite decide_True by reflexivity. reflexivity.
  - destruct (decide (k' = k)) as [->|Hne]; simpl.
    + rewrite decide_True by reflexivity. reflexivity.
    + rewrite decide_False by exact Hne. exact IH.
Qed.

Lemma dict_get_set_ne {V} k k' (v : V) d :
  k <> k' -> dict_get (dict_set k v d) k' = dict_get d k'.
Proof.
  intros Hne. induction d as [|[k0 v0] d IH]; simpl.
  - rewrite decide_False by exact Hne. reflexivity.
  - destruct (decide (k0 = k)) as [->|Hne0]; simpl.
    + rewrite !decide_False by exact Hne. reflexivity.
    + destruct (decide (k0 = k')); [reflexivity|exact IH].
Qed.

Lemma dict_set_keys_elem {V} k (v : V) d x :
  x ∈ map fst (dict_set k v d) <-> x = k \/ x ∈ map fst d.
Proof.
  induction d as [|[k' v'] d IH]; simpl.
  - rewrite list_elem_of_singleton, elem_of_nil. tauto.
  - destruct (decide (k' = k)) as [->|Hne]; simpl; rewrite !elem_of_cons.
    + tauto.
    + rewrite IH. tauto.
Qed.

Lemma dict_set_NoDup {V} k (v : V) d :
  NoDup (map fst d) -> NoDup (map fst (dict_set k v d)).
Proof.
  induction d as [|[k' v'] d IH]; simpl; intros Hnd.
  - apply NoDup_singleton.
  - apply NoDup_cons in Hnd as [Hk Hnd].
    destruct (decide (k' = k)) as [->|Hne]; simpl.
    + apply NoDup_cons. split; assumption.
    + apply NoDup_cons. split; [|exact (IH Hnd)].
      rewrite dict_set_keys_elem. intros [->|Hin]; [congruence|contradiction].
Qed.

Lemma dict_get_Some_key {V} (d : list (LLMProvider * V)) k v :
  dict_get d k = Some v -> k ∈ map fst d.
Proof.
  induction d as [|[k' v'] d IH]; simpl; [discriminate|].
  destruct (decide (k' = k)) as [->|Hne]; intros H.
  - apply list_elem_of_here.
  - apply list_elem_of_further, IH, H.
Qed.

Lemma dict_get_None_key {V} (d : list (LLMProvider * V)) k :
  dict_get d k = None <-> k ∉ map fst d.
Proof.
  induction d as [|[k' v'] d IH]; simpl.
  - split; [intros _; apply not_elem_of_nil|reflexivity].
  - rewrite not_elem_of_cons. destruct (decide (k' = k)) as [->|Hne].
    + split; [discriminate|intros [H _]; congruence].
    + rewrite IH. split; [intros H; split; [congruence|exact H]|tauto].
Qed.

Lemma available_healthy svc p :
  NoDup (map fst (provider_health svc)) ->
  (p ∈ get_available_providers svc <-> dict_get (provider_health svc) p = Some true).
Proof.
  unfold get_available_providers.
  induction (provider_health svc) as [|[k h] d IH]; simpl; intros Hnd.
  - rewrite elem_of_nil. split; [tauto|discriminate].
  - apply NoDup_cons in Hnd as [Hk Hnd]. specialize (IH Hnd).
    destruct (decide (k = p)) as [->|Hne].
    + destruct h; simpl.
      * split; [reflexivity|intros _; apply list_elem_of_here].
      * split; [|discriminate]. intros Hin. apply IH, dict_get_Some_key in Hin.
        contradiction.
    + destruct h; simpl; [rewrite elem_of_cons|]; rewrite IH; [|tauto].
      split; [intros [?|?]; [congruence|assumption]|tauto].
Qed.

(** *** Well-formedness is kept *)

Lemma wf_set_handle svc p c :
  wf svc ->
  wf {| providers := dict_set p c (providers svc);
        provider_health := provider_health svc |}.
Proof.
  intros (Hp & Hh & Hreg). split; [|split]; simpl.
  - apply dict_set_NoDup, Hp.
  - exact Hh.
  - intros q Hq. destruct (decide (p = q)) as [->|Hne].
    + rewrite dict_get_set_eq. eexists; reflexivity.
    + rewrite dict_get_set_ne by exact Hne. apply Hreg, Hq.
Qed.

Lemma wf_set_unhealthy svc p :
  wf svc ->
  wf {| providers := providers svc;
        provider_health := dict_set p false (provider_health svc) |}.
Proof.
  intros (Hp & Hh & Hreg). split; [|split]; simpl.
  - exact Hp.
  - apply dict_set_NoDup, Hh.
  - intros q Hq. destruct (decide (p = q)) as [->|Hne].
    + rewrite dict_get_set_eq in Hq. discriminate.
    + rewrite dict_get_set_ne in Hq by exact Hne. apply Hreg, Hq.
Qed.

Lemma wf_set_both svc p c :
  wf svc ->
  wf {| providers := dict_set p c (providers svc);
        provider_health := dict_set p true (provider_health svc) |}.
Proof.
  intros (Hp & Hh & Hreg). split; [|split]; simpl.
  - apply dict_set_NoDup, Hp.
  - apply dict_set_NoDup, Hh.
  - intros q Hq. destruct (decide (p = q)) as [->|Hne].
    + rewrite dict_get_set_eq. eexists; reflexivity.
    + rewrite dict_get_set_ne by exact Hne.
      rewrite dict_get_set_ne in Hq by exact Hne. apply Hreg, Hq.
Qed.

Lemma wf_reinitialize settings lib p svc :
  wf svc -> wf (_reinitialize_provider settings lib p svc).
Proof.
  intros Hwf. unfold _reinitialize_provider.
  destruct p; try exact Hwf.
  - destruct (truthy_str _); [|exact Hwf].
    destruct (construct lib _); [|exact Hwf]. apply wf_set_both, Hwf.
  - destruct (truthy_str _); [|exact Hwf].
    destruct (construct lib _); [|exact Hwf]. apply wf_set_both, Hwf.
Qed.

Lemma wf_on_failure settings lib p svc :
  wf svc -> wf (on_failure settings lib p svc).
Proof. intros Hwf. apply wf_reinitialize, wf_set_unhealthy, Hwf. Qed.

Lemma wf_try_providers settings lib messages temperature max_tokens ps :
  forall last_error svc log,
    wf svc ->
    wf (service (try_providers settings lib messages temperature max_tokens ps
                   last_error svc log)).
Proof.
  induction ps as [|p ps IH]; intros last_error svc log Hwf; simpl; [exact Hwf|].
  destruct (dict_get (providers svc) p) as [c|].
  - destruct (ainvoke lib _ messages); simpl.
    + apply wf_set_handle, Hwf.
    + apply IH, wf_on_failure, wf_set_handle, Hwf.
  - apply IH, wf_on_failure, Hwf.
Qed.

Lemma wf_set_health svc p h :
  wf svc ->
  (h = true -> is_Some (dict_get (providers svc) p)) ->
  wf {| providers := providers svc;
        provider_health := dict_set p h (provider_health svc) |}.
Proof.
  intros (Hp & Hh & Hreg) Hhandle. split; [|split]; simpl.
  - exact Hp.
  - apply dict_set_NoDup, Hh.
  - intros q Hq. destruct (decide (p = q)) as [->|Hne].
    + rewrite dict_get_set_eq in Hq. injection Hq as ->. apply Hhandle. reflexivity.
    + rewrite dict_get_set_ne in Hq by exact Hne. apply Hreg, Hq.
Qed.

Lemma probe_all_providers lib l svc : providers (probe_all lib l svc) = providers svc.
Proof.
  unfold probe_all. revert svc. induction l as [|pc l IH]; intros svc; simpl;
    [reflexivity|]. rewrite IH. reflexivity.
Qed.

Lemma wf_probe_all lib l svc :
  wf svc ->
  (forall p, p ∈ map fst l -> is_Some (dict_get (providers svc) p)) ->
  wf (probe_all lib l svc).
Proof.
  unfold probe_all. revert svc.
  induction l as [|[p c] l IH]; intros svc Hwf Hl; simpl; [exact Hwf|].
  apply IH.
  - apply wf_set_health; [exact Hwf|]. intros _. apply Hl. simpl. apply list_elem_of_here.
  - intros q Hq. simpl. apply Hl. simpl. apply list_elem_of_further, Hq.
Qed.

Lemma probe_all_health lib l svc p :
  NoDup (map fst l) ->
  dict_get (provider_health (probe_all lib l svc)) p
  = match dict_get l p with
    | Some c => Some (match ainvoke lib c [HumanMessage "Hello"] with
                      | inl _ => true | inr _ => false end)
    | None => dict_get (provider_health svc) p
    end.
Proof.
  unfold probe_all. revert svc.
  induction l as [|[q c] l IH]; intros svc Hnd; simpl; [reflexivity|].
  apply NoDup_cons in Hnd as [Hq Hnd]. rewrite (IH _ Hnd). simpl in *.
  destruct (decide (q = p)) as [->|Hne].
  - apply dict_get_None_key in Hq. rewrite Hq. apply dict_get_set_eq.
  - destruct (dict_get l p); [reflexivity|]. apply dict_get_set_ne, Hne.
Qed.

Lemma dict_get_key_Some {V} (d : list (LLMProvider * V)) k :
  k ∈ map fst d -> is_Some (dict_get d k).
Proof.
  intros Hin. destruct (dict_get d k) eqn:Hg; [eexists; reflexivity|].
  apply dict_get_None_key in Hg. contradiction.
Qed.

Lemma wf_health_check lib svc : wf svc -> wf (snd (health_check lib svc)).
Proof.
  intros Hwf. change (snd (health_check lib svc)) with (probe_all lib (providers svc) svc).
  apply wf_probe_all; [exact Hwf|]. intros p Hp. apply dict_get_key_Some, Hp.
Qed.

Lemma wf_initialize settings lib svc :
  _initialize_providers settings lib = Some svc -> wf svc.
Proof.
  unfold _initialize_providers, init_one. simpl.
  destruct (truthy_str (OPENAI_API_KEY settings));
    destruct (truthy_str (ANTHROPIC_API_KEY settings));
    try destruct (construct lib (ChatOpenAI_init settings));
    try destruct (construct lib (ChatAnthropic_init settings));
    simpl; intros [= <-];
    (split; [|split]; simpl;
     [repeat (apply NoDup_cons; split;
              [rewrite ?elem_of_cons, ?elem_of_nil; intuition discriminate|]);
      apply NoDup_nil; exact I
     |repeat (apply NoDup_cons; split;
              [rewrite ?elem_of_cons, ?elem_of_nil; intuition discriminate|]);
      apply NoDup_nil; exact I
     |intros p; destruct p; simpl; intros H; try discriminate;
      eexists; reflexivity]).
Qed.

Lemma handle_kept_set svc p c q :
  is_Some (dict_get (providers svc) q) ->
  is_Some (dict_get (dict_set p c (providers svc)) q).
Proof.
  intros H. destruct (decide (p = q)) as [->|Hne].
  - rewrite dict_get_set_eq. eexists; reflexivity.
  - rewrite dict_get_set_ne by exact Hne. exact H.
Qed.

Lemma handle_kept_on_failure settings lib p svc q :
  is_Some (dict_get (providers svc) q) ->
  is_Some (dict_get (providers (on_failure settings lib p svc)) q).
Proof.
  intros H. unfold on_failure, _reinitialize_provider.
  destruct p; simpl; try exact H.
  - destruct (truthy_str _); [|exact H].
    destruct (construct lib _); [|exact H]. simpl. apply handle_kept_set, H.
  - destruct (truthy_str _); [|exact H].
    destruct (construct lib _); [|exact H]. simpl. apply handle_kept_set, H.
Qed.

(** With a handle for every provider to try, each attempt is a call: the
    providers called are the ones that failed, followed by the one that
    answered. *)
Lemma try_providers_attempts settings lib messages temperature max_tokens ps :
  forall last_error svc log,
    (forall p, p ∈ ps -> is_Some (dict_get (providers svc) p)) ->
    let r := try_providers settings lib messages temperature max_tokens ps
               last_error svc log in
    exists evs,
      events r = log ++ evs /\
      match outcome r with
      | inr _ => ev_invoked evs = ps /\ ev_failed evs = ps
      | inl c =>
          exists before p after,
            ps = before ++ p :: after /\ ev_failed evs = before /\
            ev_invoked evs = before ++ [p] /\ c_provider c = value p
      end.
Proof.
  induction ps as [|p ps IH]; intros last_error svc log Hh r.
  - exists []. subst r. simpl. rewrite app_nil_r. repeat split.
  - subst r. simpl.
    destruct (Hh p (list_elem_of_here _ _)) as [c Hc]. rewrite Hc.
    destruct (ainvoke lib (configure temperature max_tokens c) messages)
      as [res|e] eqn:Hcall.
    + exists [Invoked p (configure temperature max_tokens c)]. simpl.
      split; [reflexivity|]. exists [], p, ps. repeat split.
    + match goal with
      | |- context [try_providers _ _ _ _ _ ps ?le ?s ?l] =>
          destruct (IH le s l) as (evs & Hev & Hout)
      end.
      { intros q Hq. apply handle_kept_on_failure. simpl.
        apply handle_kept_set, Hh, list_elem_of_further, Hq. }
      cbn zeta in Hev, Hout.
      exists ([Invoked p (configure temperature max_tokens c); Failed p e] ++ evs).
      split; [rewrite Hev, <- app_assoc; reflexivity|].
      rewrite ev_invoked_app, ev_failed_app. simpl.
      destruct (outcome _) as [cmp|err].
      * destruct Hout as (before & q & after & Hps & Hf & Hi & Hc').
        exists (p :: before), q, after. simpl.
        repeat split; try congruence.
      * destruct Hout as [Hi Hf]. split; congruence.
Qed.

Lemma add_missing_NoDup (l acc : list LLMProvider) :
  NoDup acc ->
  NoDup (fold_left (fun acc provider =>
                      if bool_decide (provider ∈ acc) then acc else acc ++ [provider])
                   l acc).
Proof.
  revert acc. induction l as [|x l IH]; intros acc Hnd; simpl; [exact Hnd|].
  apply IH. case_bool_decide as Hx; [exact Hnd|].
  apply NoDup_app. split; [exact Hnd|]. split.
  - intros y Hy Hy'. apply list_elem_of_singleton in Hy'. subst y. contradiction.
  - apply NoDup_singleton.
Qed.

Lemma providers_to_try_NoDup preferred_provider svc :
  NoDup (providers_to_try preferred_provider svc).
Proof.
  unfold providers_to_try. apply add_missing_NoDup.
  destruct preferred_provider as [p|]; [|apply NoDup_nil; exact I].
  destruct (bool_decide _); [apply NoDup_singleton|apply NoDup_nil; exact I].
Qed.

(** The preferred provider, when it is marked healthy, is the first to be
    tried. *)
Lemma providers_to_try_head p svc :
  p ∈ get_available_providers svc ->
  exists rest, providers_to_try (Some p) svc = p :: rest.
Proof.
  intros Hp. unfold providers_to_try.
  rewrite bool_decide_eq_true_2 by exact Hp.
  generalize (get_available_providers svc) as l. intros l.
  assert (Hgen : forall acc, exists rest,
            fold_left (fun acc provider =>
                         if bool_decide (provider ∈ acc) then acc
                         else acc ++ [provider]) l (p :: acc) = p :: rest).
  { induction l as [|x l IH]; intros acc; simpl; [eexists; reflexivity|].
    destruct (bool_decide (x ∈ p :: acc)); [apply IH|].
    apply (IH (acc ++ [x])). }
  apply (Hgen []).
Qed.

(** *** A handle, once registered, stays; no provider is ever added *)

Lemma handle_kept_try_providers settings lib messages temperature max_tokens ps q :
  forall last_error svc log,
    is_Some (dict_get (providers svc) q) ->
    is_Some (dict_get (providers (service
      (try_providers settings lib messages temperature max_tokens ps
         last_error svc log))) q).
Proof.
  induction ps as [|p ps IH]; intros last_error svc log H; simpl; [exact H|].
  destruct (dict_get (providers svc) p) as [c|].
  - destruct (ainvoke lib _ messages); simpl.
    + apply handle_kept_set, H.
    + apply IH, handle_kept_on_failure. simpl. apply handle_kept_set, H.
  - apply IH, handle_kept_on_failure, H.
Qed.

Lemma known_by_on_failure settings lib p svc q :
  known_by (on_failure settings lib p svc) q -> q = p \/ known_by svc q.
Proof.
  unfold on_failure, _reinitialize_provider, known_by.
  destruct p; simpl;
    repeat match goal with
           | |- context [if ?b then _ else _] => destruct b; simpl
           end;
    rewrite ?dict_set_keys_elem; tauto.
Qed.

Lemma known_by_try_providers settings lib messages temperature max_tokens ps q :
  forall last_error svc log,
    known_by (service (try_providers settings lib messages temperature max_tokens
                         ps last_error svc log)) q ->
    q ∈ ps \/ known_by svc q.
Proof.
  induction ps as [|p ps IH]; intros last_error svc log; simpl; [tauto|].
  rewrite elem_of_cons.
  destruct (dict_get (providers svc) p) as [c|].
  - destruct (ainvoke lib _ messages); simpl.
    + unfold known_by. simpl. rewrite dict_set_keys_elem. tauto.
    + intros H. apply IH in H as [H|H]; [tauto|].
      apply known_by_on_failure in H as [H|H]; [tauto|].
      unfold known_by in *. simpl in H. rewrite dict_set_keys_elem in H. tauto.
  - intros H. apply IH in H as [H|H]; [tauto|].
    apply known_by_on_failure in H. tauto.
Qed.

Lemma available_known svc p : p ∈ get_available_providers svc -> known_by svc p.
Proof.
  unfold get_available_providers, known_by. intros H. left.
  apply list_elem_of_fmap in H as ([k h] & -> & Hin).
  apply list_elem_of_In, filter_In in Hin as [Hin _].
  apply list_elem_of_fmap. exists (k, h). split; [reflexivity|].
  apply list_elem_of_In, Hin.
Qed.

Lemma known_by_generate settings lib prompt system_message preferred_provider
  temperature max_tokens svc q :
  known_by (service (generate_completion settings lib prompt system_message
                       preferred_provider temperature max_tokens svc)) q ->
  known_by svc q.
Proof.
  unfold generate_completion. intros H.
  apply known_by_try_providers in H as [H|H]; [|exact H].
  apply available_known. apply providers_to_try_available in H. exact H.
Qed.

Lemma known_by_probe_all lib l svc q :
  known_by (probe_all lib l svc) q -> q ∈ map fst l \/ known_by svc q.
Proof.
  unfold probe_all. revert svc.
  induction l as [|[p c] l IH]; intros svc; simpl; [tauto|].
  intros H. apply IH in H as [H|H]; [rewrite elem_of_cons; tauto|].
  unfold known_by in *. simpl in H. rewrite dict_set_keys_elem in H.
  rewrite elem_of_cons. tauto.
Qed.

Lemma known_by_health_check lib svc q :
  known_by (snd (health_check lib svc)) q -> known_by svc q.
Proof.
  change (snd (health_check lib svc)) with (probe_all lib (providers svc) svc).
  intros H. apply known_by_probe_all in H as [H|H]; [|exact H]. right. exact H.
Qed.

Lemma only_two_initialize settings lib svc :
  _initialize_providers settings lib = Some svc -> only_two svc.
Proof.
  unfold _initialize_providers, init_one, only_two, known_by. simpl.
  destruct (truthy_str (OPENAI_API_KEY settings));
    destruct (truthy_str (ANTHROPIC_API_KEY settings));
    try destruct (construct lib (ChatOpenAI_init settings));
    try destruct (construct lib (ChatAnthropic_init settings));
    simpl; intros [= <-] p; simpl;
    rewrite ?elem_of_cons, ?elem_of_nil; tauto.
Qed.

Lemma reachable_wf settings svc : reachable settings svc -> wf svc.
Proof.
  induction 1 as [lib svc Hinit|lib pr sm pp te mt svc _ IH|lib svc _ IH].
  - eapply wf_initialize, Hinit.
  - apply wf_try_providers, IH.
  - apply wf_health_check, IH.
Qed.

Lemma reachable_only_two settings svc : reachable settings svc -> only_two svc.
Proof.
  induction 1 as [lib svc Hinit|lib pr sm pp te mt svc _ IH|lib svc _ IH].
  - eapply only_two_initialize, Hinit.
  - intros q Hq. apply IH. eapply known_by_generate, Hq.
  - intros q Hq. apply IH. eapply known_by_health_check, Hq.
Qed.

Lemma reachable_has_handle settings svc :
  reachable settings svc -> exists p, is_Some (dict_get (providers svc) p).
Proof.
  induction 1 as [lib svc Hinit|lib pr sm pp te mt svc _ [p IH]|lib svc _ [p IH]].
  - unfold _initialize_providers in Hinit. cbn zeta in Hinit.
    destruct (providers _) as [|[p c] l] eqn:Hp; [discriminate|].
    injection Hinit as <-. exists p. rewrite Hp. simpl.
    rewrite decide_True by reflexivity. eexists; reflexivity.
  - exists p. apply handle_kept_try_providers, IH.
  - exists p.
    change (snd (health_check lib svc)) with (probe_all lib (providers svc) svc).
    rewrite probe_all_providers. exact IH.
Qed.

Lemma sample_service_probed_reachable :
  reachable sample_settings sample_service_probed.
Proof.
  apply reach_health_check, (reach_init _ (lib_with_down [])). reflexivity.
Qed.

(** X1.  In every state of the service object each table has one entry per
    provider, every provider marked healthy has a handle, at least one
    handle is registered, and no table has an entry for a provider other
    than OpenAI and Anthropic. *)
Theorem reachable_service_invariant settings svc :
  reachable settings svc ->
  wf svc /\ providers svc <> [] /\ only_two svc.
Proof.
  intros H. split; [|split].
  - apply (reachable_wf _ _ H).
  - destruct (reachable_has_handle _ _ H) as [p [c Hc]].
    intros Hnil. rewrite Hnil in Hc. discriminate.
  - apply (reachable_only_two _ _ H).
Qed.

Lemma reachable_service_invariant_witness :
  reachable sample_settings sample_service_probed /\
  (wf sample_service_probed /\ providers sample_service_probed <> [] /\
   only_two sample_service_probed).
Proof.
  split; [exact sample_service_probed_reachable|].
  apply (reachable_service_invariant sample_settings).
  exact sample_service_probed_reachable.
Defined.

(** *** The attempts of one call *)

Lemma wf_healthy_handle svc p :
  wf svc -> p ∈ get_available_providers svc ->
  is_Some (dict_get (providers svc) p).
Proof.
  intros (Hp & Hh & Hreg) Hin. apply Hreg, available_healthy; assumption.
Qed.

(** X2.  In a call of [generate_completion] every healthy provider is called
    at most once; the providers called are the ones that failed followed by
    the one that answered, and a call that fails has called every provider
    that was healthy at its start, in order. *)
Theorem generate_completion_attempts settings lib prompt system_message
  preferred_provider temperature max_tokens svc :
  reachable settings svc ->
  let r := generate_completion settings lib prompt system_message
             preferred_provider temperature max_tokens svc in
  NoDup (invoked_providers r) /\
  match outcome r with
  | inr _ =>
      invoked_providers r = providers_to_try preferred_provider svc /\
      failed_providers r = providers_to_try preferred_provider svc
  | inl c =>
      exists p, invoked_providers r = failed_providers r ++ [p] /\
                c_provider c = value p /\
                exists after, providers_to_try preferred_provider svc
                              = invoked_providers r ++ after
  end.
Proof.
  intros Hreach r. apply reachable_wf in Hreach.
  destruct (try_providers_attempts settings lib (build_messages prompt system_message)
              temperature max_tokens (providers_to_try preferred_provider svc)
              None svc [])
    as (evs & Hev & Hout).
  { intros p Hp. apply wf_healthy_handle; [exact Hreach|].
    apply providers_to_try_available in Hp. exact Hp. }
  cbn zeta in Hev, Hout. simpl in Hev.
  pose proof (providers_to_try_NoDup preferred_provider svc) as Hnd.
  subst r. unfold invoked_providers, failed_providers, generate_completion.
  rewrite Hev. destruct (outcome _) as [c|e].
  - destruct Hout as (before & p & after & Hps & Hf & Hi & Hc).
    rewrite Hps in Hnd. rewrite Hi, Hf. split.
    + replace (before ++ p :: after) with ((before ++ [p]) ++ after) in Hnd
        by (rewrite <- app_assoc; reflexivity).
      apply NoDup_app in Hnd as [Hnd _]. exact Hnd.
    + exists p. split; [reflexivity|]. split; [exact Hc|].
      exists after. rewrite Hps, <- app_assoc. reflexivity.
  - destruct Hout as [Hi Hf]. rewrite Hi, Hf. split; [exact Hnd|]. split; reflexivity.
Qed.

Lemma generate_completion_attempts_witness :
  reachable sample_settings sample_service /\
  NoDup (invoked_providers sample_prior_call).
Proof.
  assert (H : reachable sample_settings sample_service).
  { apply (reach_init _ (lib_with_down [])). reflexivity. }
  split; [exact H|].
  apply (generate_completion_attempts sample_settings (lib_with_down [OPENAI])
           "Create a detailed research plan"
           (Some "You are a professional researcher.")
           (Some OPENAI) (Some (3 # 10)) (Some 6000) sample_service H).
Defined.

(** *** [health_check] *)

Lemma healthy_le_registered svc :
  wf svc ->
  (length (List.filter snd (provider_health svc)) <= length (providers svc))%nat.
Proof.
  intros Hwf.
  rewrite <- (length_map fst (List.filter snd (provider_health svc))).
  rewrite <- (length_map fst (providers svc)).
  apply submseteq_length, NoDup_submseteq.
  - destruct Hwf as (_ & Hh & _). revert Hh.
    induction (provider_health svc) as [|[k h] d IH]; simpl; intros Hnd.
    + apply NoDup_nil. exact I.
    + apply NoDup_cons in Hnd as [Hk Hnd]. destruct h; simpl; [|apply IH, Hnd].
      apply NoDup_cons. split; [|apply IH, Hnd].
      intros Hin. apply Hk.
      apply list_elem_of_fmap in Hin as ([k' h'] & -> & Hin').
      apply list_elem_of_In, filter_In in Hin' as [Hin' _].
      apply list_elem_of_fmap. exists (k', h'). split; [reflexivity|].
      apply list_elem_of_In, Hin'.
  - intros p Hp. destruct (wf_healthy_handle svc p Hwf Hp) as [c Hc].
    eapply dict_get_Some_key, Hc.
Qed.

(** X3.  [health_check] leaves the handles as they are and sets the health of
    each registered provider to the outcome of its probe; the health of a
    provider without a handle is not touched, and the summary counts satisfy
    healthy_count <= total_count. *)
Theorem health_check_refreshes settings lib svc :
  reachable settings svc ->
  let counts := fst (health_check lib svc) in
  let svc' := snd (health_check lib svc) in
  providers svc' = providers svc /\
  (forall p c, dict_get (providers svc) p = Some c ->
     dict_get (provider_health svc') p
     = Some (match ainvoke lib c [HumanMessage "Hello"] with
             | inl _ => true | inr _ => false end)) /\
  (forall p, dict_get (providers svc) p = None ->
     dict_get (provider_health svc') p = dict_get (provider_health svc) p) /\
  0 <= fst counts <= snd counts /\
  snd counts = Z.of_nat (length (providers svc)).
Proof.
  intros Hreach counts svc'. apply reachable_wf in Hreach.
  assert (Hwf' : wf svc') by apply wf_health_check, Hreach.
  assert (Hsvc' : svc' = probe_all lib (providers svc) svc) by reflexivity.
  assert (Hp : providers svc' = providers svc)
    by (rewrite Hsvc'; apply probe_all_providers).
  split; [exact Hp|]. split; [|split; [|split]].
  - intros p c Hc. rewrite Hsvc', probe_all_health by apply Hreach.
    rewrite Hc. reflexivity.
  - intros p Hc. rewrite Hsvc', probe_all_health by apply Hreach.
    rewrite Hc. reflexivity.
  - change (fst counts) with (Z.of_nat (length (List.filter snd (provider_health svc')))).
    change (snd counts) with (Z.of_nat (length (providers svc'))).
    pose proof (healthy_le_registered svc' Hwf'). lia.
  - change (snd counts) with (Z.of_nat (length (providers svc'))).
    rewrite Hp. reflexivity.
Qed.

Lemma health_check_refreshes_witness :
  reachable sample_settings sample_service /\
  providers (snd (health_check sample_openai_down sample_service))
  = providers sample_service.
Proof.
  assert (H : reachable sample_settings sample_service).
  { apply (reach_init _ (lib_with_down [])). reflexivity. }
  split; [exact H|].
  apply (health_check_refreshes sample_settings sample_openai_down sample_service H).
Defined.

(** *** What a failed attempt leaves behind *)

Lemma on_failure_untouched settings lib p svc q :
  q <> p ->
  dict_get (providers (on_failure settings lib p svc)) q = dict_get (providers svc) q /\
  dict_get (provider_health (on_failure settings lib p svc)) q
  = dict_get (provider_health svc) q.
Proof.
  intros Hne. unfold on_failure, _reinitialize_provider.
  destruct p; simpl;
    repeat match goal with
           | |- context [if ?b then _ else _] => destruct b; simpl
           end;
    rewrite ?dict_get_set_ne by congruence; split; reflexivity.
Qed.

Lemma try_providers_untouched settings lib messages temperature max_tokens ps q :
  q ∉ ps ->
  forall last_error svc log,
    let r := try_providers settings lib messages temperature max_tokens ps
               last_error svc log in
    dict_get (providers (service r)) q = dict_get (providers svc) q /\
    dict_get (provider_health (service r)) q = dict_get (provider_health svc) q.
Proof.
  induction ps as [|p ps IH]; intros Hq last_error svc log; simpl; [split; reflexivity|].
  apply not_elem_of_cons in Hq as [Hne Hq]. specialize (IH Hq).
  destruct (dict_get (providers svc) p) as [c|].
  - destruct (ainvoke lib _ messages); simpl.
    + rewrite dict_get_set_ne by congruence. split; reflexivity.
    + match goal with
      | |- context [try_providers _ _ _ _ _ ps ?le ?s ?l] =>
          destruct (IH le s l) as [-> ->]
      end.
      destruct (on_failure_untouched settings lib p
                  {| providers := dict_set p (configure temperature max_tokens c)
                                    (providers svc);
                     provider_health := provider_health svc |} q Hne) as [-> ->].
      simpl. rewrite dict_get_set_ne by congruence. split; reflexivity.
  - match goal with
    | |- context [try_providers _ _ _ _ _ ps ?le ?s ?l] =>
        destruct (IH le s l) as [-> ->]
    end.
    apply on_failure_untouched, Hne.
Qed.

Lemma on_failure_openai settings lib svc :
  truthy_str (OPENAI_API_KEY settings) = true ->
  construct lib (ChatOpenAI_reinit settings) = true ->
  dict_get (providers (on_failure settings lib OPENAI svc)) OPENAI
  = Some (ChatOpenAI_reinit settings) /\
  dict_get (provider_health (on_failure settings lib OPENAI svc)) OPENAI = Some true.
Proof.
  intros Hk Hc. unfold on_failure, _reinitialize_provider. rewrite Hk, Hc. simpl.
  rewrite !dict_get_set_eq. split; reflexivity.
Qed.

Lemma try_providers_rebuilds_openai settings lib messages temperature max_tokens ps :
  truthy_str (OPENAI_API_KEY settings) = true ->
  construct lib (ChatOpenAI_reinit settings) = true ->
  NoDup ps ->
  forall last_error svc log,
    let r := try_providers settings lib messages temperature max_tokens ps
               last_error svc log in
    OPENAI ∉ ev_failed log ->
    OPENAI ∈ ev_failed (events r) ->
    dict_get (providers (service r)) OPENAI = Some (ChatOpenAI_reinit settings) /\
    dict_get (provider_health (service r)) OPENAI = Some true.
Proof.
  intros Hk Hc. induction ps as [|p ps IH]; intros Hnd last_error svc log; simpl.
  - intros H1 H2. contradiction.
  - apply NoDup_cons in Hnd as [Hp Hnd]. specialize (IH Hnd).
    destruct (dict_get (providers svc) p) as [c|].
    + destruct (ainvoke lib _ messages) as [res|e]; simpl.
      * intros H1 H2. rewrite ev_failed_app in H2. simpl in H2.
        rewrite app_nil_r in H2. contradiction.
      * destruct (decide (p = OPENAI)) as [->|Hne].
        -- intros _ _.
           match goal with
           | |- context [try_providers _ _ _ _ _ ps ?le ?s ?l] =>
               destruct (try_providers_untouched settings lib messages temperature
                           max_tokens ps OPENAI Hp le s l) as [-> ->]
           end.
           apply on_failure_openai; assumption.
        -- intros H1. apply IH. rewrite ev_failed_app. simpl.
           rewrite elem_of_app, elem_of_cons, elem_of_nil. intros [?|[?|[]]];
             [contradiction|congruence].
    + destruct (decide (p = OPENAI)) as [->|Hne].
      * intros _ _.
        match goal with
        | |- context [try_providers _ _ _ _ _ ps ?le ?s ?l] =>
            destruct (try_providers_untouched settings lib messages temperature
                        max_tokens ps OPENAI Hp le s l) as [-> ->]
        end.
        apply on_failure_openai; assumption.
      * intros H1. apply IH. rewrite ev_failed_app. simpl.
        rewrite elem_of_app, elem_of_cons, elem_of_nil. intros [?|[?|[]]];
          [contradiction|congruence].
Qed.

(** X4.  When the OpenAI call of a request fails (key configured, constructor
    working), the request leaves OpenAI marked healthy with a freshly built
    handle: the handle has neither the configured base URL nor the 30 s
    timeout of the start-up handle, and the default temperature and token
    limit instead of the request's. *)
Theorem failed_openai_handle_is_rebuilt settings lib prompt system_message
  preferred_provider temperature max_tokens svc :
  truthy_str (OPENAI_API_KEY settings) = true ->
  construct lib (ChatOpenAI_reinit settings) = true ->
  let r := generate_completion settings lib prompt system_message
             preferred_provider temperature max_tokens svc in
  OPENAI ∈ failed_providers r ->
  is_healthy (service r) OPENAI = true /\
  exists c, dict_get (providers (service r)) OPENAI = Some c /\
            cl_base_url c = None /\ cl_timeout c = None /\
            cl_temperature c = 7 # 10 /\ cl_max_tokens c = 4000 /\
            cl_model c = OPENAI_MODEL settings.
Proof.
  intros Hk Hc r Hfail.
  destruct (try_providers_rebuilds_openai settings lib
              (build_messages prompt system_message) temperature max_tokens
              (providers_to_try preferred_provider svc) Hk Hc
              (providers_to_try_NoDup preferred_provider svc) None svc [])
    as [Hh Hs].
  - simpl. apply not_elem_of_nil.
  - exact Hfail.
  - split.
    + unfold is_healthy. subst r. unfold generate_completion. rewrite Hs. reflexivity.
    + exists (ChatOpenAI_reinit settings). split; [exact Hh|]. repeat split.
Qed.

Lemma failed_openai_handle_is_rebuilt_witness :
  is_healthy (service sample_prior_call) OPENAI = true /\
  exists c, dict_get (providers (service sample_prior_call)) OPENAI = Some c /\
            cl_base_url c = None /\ cl_timeout c = None /\
            cl_temperature c = 7 # 10 /\ cl_max_tokens c = 4000 /\
            cl_model c = OPENAI_MODEL sample_settings.
Proof.
  apply (failed_openai_handle_is_rebuilt sample_settings (lib_with_down [OPENAI])
           "Create a detailed research plan"
           (Some "You are a professional researcher.")
           (Some OPENAI) (Some (3 # 10)) (Some 6000) sample_service).
  - reflexivity.
  - reflexivity.
  - vm_compute. apply list_elem_of_here.
Defined.

(** *** [get_provider] *)

Lemma is_healthy_available svc p :
  NoDup (map fst (provider_health svc)) ->
  (is_healthy svc p = true <-> p ∈ get_available_providers svc).
Proof.
  intros Hnd. rewrite (available_healthy svc p Hnd). unfold is_healthy.
  destruct (dict_get (provider_health svc) p) as [[]|]; simpl;
    split; congruence.
Qed.

(** X5.  In every state of the service [get_provider] fails only when no
    provider is marked healthy; otherwise it returns a provider that is
    marked healthy together with its registered handle: the preferred one
    when that is healthy, else OpenAI when that is healthy. *)
Theorem get_provider_returns_healthy settings preferred_provider svc :
  reachable settings svc ->
  match get_provider preferred_provider svc with
  | None => get_available_providers svc = []
  | Some (p, c) =>
      is_healthy svc p = true /\
      dict_get (providers svc) p = Some c /\
      (forall q, preferred_provider = Some q -> is_healthy svc q = true -> p = q) /\
      ((forall q, preferred_provider = Some q -> is_healthy svc q = false) ->
       is_healthy svc OPENAI = true -> p = OPENAI)
  end.
Proof.
  intros Hreach. apply reachable_wf in Hreach.
  pose proof Hreach as (_ & Hnd & _).
  assert (Hpick : forall p, p ∈ get_available_providers svc ->
            exists c, dict_get (providers svc) p = Some c).
  { intros p Hp. apply (wf_healthy_handle svc p Hreach Hp). }
  assert (Hav : forall p, is_healthy svc p = true <-> p ∈ get_available_providers svc).
  { intros p. apply is_healthy_available, Hnd. }
  unfold get_provider. cbn zeta.
  destruct (get_available_providers svc) as [|a l] eqn:Hl; [reflexivity|].
  rewrite <- Hl in *.
  set (fallback := match List.filter _ _ with [] => _ | _ :: _ => _ end).
  assert (Hfb :
    match fallback with
    | None => False
    | Some (p, c) =>
        is_healthy svc p = true /\ dict_get (providers svc) p = Some c /\
        (is_healthy svc OPENAI = true -> p = OPENAI)
    end).
  { subst fallback. destruct (List.filter _ _) as [|q qs] eqn:Hf.
    - exfalso.
      assert (Ha : a ∈ get_available_providers svc)
        by (rewrite Hl; apply list_elem_of_here).
      assert (Hin : In a (List.filter
                (fun q => bool_decide (q ∈ get_available_providers svc))
                [OPENAI; ANTHROPIC; HUGGINGFACE; LOCAL])).
      { apply filter_In. split; [destruct a; simpl; tauto|].
        apply bool_decide_eq_true_2, Ha. }
      rewrite Hf in Hin. destruct Hin.
    - assert (Hq : q ∈ get_available_providers svc).
      { assert (Hin : In q (q :: qs)) by (left; reflexivity).
        rewrite <- Hf in Hin. apply filter_In in Hin as [_ Hin].
        apply bool_decide_eq_true_1 in Hin. exact Hin. }
      destruct (Hpick q Hq) as [c Hc]. rewrite Hc. simpl.
      split; [apply Hav, Hq|]. split; [exact Hc|].
      intros Ho. apply Hav in Ho. simpl in Hf.
      rewrite (bool_decide_eq_true_2 _ Ho) in Hf. congruence. }
  destruct preferred_provider as [pp|].
  - case_bool_decide as Hpp.
    + destruct (Hpick pp Hpp) as [c Hc]. rewrite Hc. simpl.
      split; [apply Hav, Hpp|]. split; [exact Hc|]. split.
      * intros q [= <-] _. reflexivity.
      * intros Hno _. apply Hav in Hpp. rewrite (Hno pp eq_refl) in Hpp. discriminate.
    + destruct fallback as [[p c]|]; [|contradiction].
      destruct Hfb as (Hh & Hc & Ho). cbv beta iota.
      split; [exact Hh|]. split; [exact Hc|]. split.
      * intros q [= <-] Hq. apply Hav in Hq. contradiction.
      * intros _. exact Ho.
  - destruct fallback as [[p c]|]; [|contradiction].
    destruct Hfb as (Hh & Hc & Ho). cbv beta iota.
    split; [exact Hh|]. split; [exact Hc|]. split.
    + intros q [=].
    + intros _. exact Ho.
Qed.

Lemma get_provider_returns_healthy_witness :
  reachable sample_settings sample_service_probed /\
  match get_provider (Some OPENAI) sample_service_probed with
  | None => get_available_providers sample_service_probed = []
  | Some (p, c) =>
      is_healthy sample_service_probed p = true /\
      dict_get (providers sample_service_probed) p = Some c /\
      (forall q, Some OPENAI = Some q ->
                 is_healthy sample_service_probed q = true -> p = q) /\
      ((forall q, Some OPENAI = Some q ->
                  is_healthy sample_service_probed q = false) ->
       is_healthy sample_service_probed OPENAI = true -> p = OPENAI)
  end.
Proof.
  split; [exact sample_service_probed_reachable|].
  apply (get_provider_returns_healthy sample_settings (Some OPENAI)
           sample_service_probed sample_service_probed_reachable).
Defined.

(** *** The settings of a request stay on the handle *)

Lemma value_inj p q : value p = value q -> p = q.
Proof. destruct p, q; simpl; intros H; try reflexivity; discriminate. Qed.

Lemma try_providers_answering_handle settings lib messages temperature max_tokens ps :
  NoDup ps ->
  forall last_error svc log c,
    let r := try_providers settings lib messages temperature max_tokens ps
               last_error svc log in
    (forall q, q ∈ ps -> dict_get (provider_health svc) q = Some true) ->
    outcome r = inl c ->
    exists p c0,
      c_provider c = value p /\
      dict_get (providers (service r)) p
      = Some (configure temperature max_tokens c0) /\
      dict_get (provider_health (service r)) p = Some true.
Proof.
  induction ps as [|p ps IH]; intros Hnd last_error svc log c; simpl.
  - intros _ [=].
  - apply NoDup_cons in Hnd as [Hp Hnd]. specialize (IH Hnd). intros Hh.
    assert (Hrest : forall s,
              (forall q, q <> p -> dict_get (provider_health s) q
                                   = dict_get (provider_health svc) q) ->
              forall q, q ∈ ps -> dict_get (provider_health s) q = Some true).
    { intros s Hs q Hq. rewrite Hs; [apply Hh, list_elem_of_further, Hq|].
      intros ->. contradiction. }
    destruct (dict_get (providers svc) p) as [c0|].
    + destruct (ainvoke lib _ messages) as [res|e]; simpl.
      * intros [= <-]. exists p, c0. simpl. rewrite dict_get_set_eq.
        split; [reflexivity|]. split; [reflexivity|]. apply Hh, list_elem_of_here.
      * apply IH, Hrest. intros q Hq.
        destruct (on_failure_untouched settings lib p
                    {| providers := dict_set p (configure temperature max_tokens c0)
                                      (providers svc);
                       provider_health := provider_health svc |} q Hq) as [_ ->].
        reflexivity.
    + apply IH, Hrest. intros q Hq.
      destruct (on_failure_untouched settings lib p svc q Hq) as [_ ->].
      reflexivity.
Qed.

(** X6.  The temperature and the token limit passed to a request are written
    on the stored handle of the provider that answers, and stay there: a
    later request to that provider that passes neither is sent with the
    earlier request's values, not with the defaults of the start-up handle. *)
Theorem request_settings_persist settings lib1 lib2 prompt1 system_message1
  preferred_provider1 temperature max_tokens prompt2 system_message2 svc c1 p :
  reachable settings svc ->
  let r1 := generate_completion settings lib1 prompt1 system_message1
              preferred_provider1 (Some temperature) (Some max_tokens) svc in
  outcome r1 = inl c1 ->
  c_provider c1 = value p ->
  let r2 := generate_completion settings lib2 prompt2 system_message2
              (Some p) None None (service r1) in
  exists c, head (events r2) = Some (Invoked p c) /\
            cl_temperature c = temperature /\ cl_max_tokens c = max_tokens.
Proof.
  intros Hreach r1 Hout Hprov r2.
  pose proof (reachable_wf _ _ Hreach) as Hwf.
  pose proof Hwf as (_ & Hnd & _).
  destruct (try_providers_answering_handle settings lib1
              (build_messages prompt1 system_message1)
              (Some temperature) (Some max_tokens)
              (providers_to_try preferred_provider1 svc)
              (providers_to_try_NoDup preferred_provider1 svc) None svc [] c1)
    as (p' & c0 & Hp' & Hhandle & Hhealth).
  { intros q Hq. apply providers_to_try_available in Hq.
    apply available_healthy in Hq; assumption. }
  { exact Hout. }
  assert (p' = p) as -> by (apply value_inj; congruence).
  fold (generate_completion settings lib1 prompt1 system_message1
          preferred_provider1 (Some temperature) (Some max_tokens) svc) in Hhandle, Hhealth.
  fold r1 in Hhandle, Hhealth.
  assert (Hwf1 : wf (service r1)) by apply wf_try_providers, Hwf.
  assert (Hav : p ∈ get_available_providers (service r1)).
  { apply available_healthy; [apply Hwf1|exact Hhealth]. }
  destruct (providers_to_try_head p (service r1) Hav) as [rest Hrest].
  exists (configure None None (configure (Some temperature) (Some max_tokens) c0)).
  split; [|split; reflexivity].
  subst r2. unfold generate_completion. rewrite Hrest. simpl. rewrite Hhandle.
  destruct (ainvoke lib2 _ _) as [res|e]; [reflexivity|].
  match goal with
  | |- context [try_providers ?a ?b ?c ?d ?e ?f ?g ?h ?i] =>
      destruct (try_providers_spec a b c d e f g h i) as (evs & -> & _)
  end.
  reflexivity.
Qed.

Lemma request_settings_persist_witness :
  reachable sample_settings sample_service /\
  exists c1,
    outcome (generate_completion sample_settings (lib_with_down [])
               "Outline the book" None None (Some (3 # 10)) (Some 6000)
               sample_service) = inl c1 /\
    c_provider c1 = value OPENAI /\
    exists c,
      head (events (generate_completion sample_settings (lib_with_down [])
                      "Write chapter 1" None (Some OPENAI) None None
                      (service (generate_completion sample_settings
                                  (lib_with_down []) "Outline the book" None None
                                  (Some (3 # 10)) (Some 6000) sample_service))))
      = Some (Invoked OPENAI c) /\
      cl_temperature c = 3 # 10 /\ cl_max_tokens c = 6000.
Proof.
  assert (H : reachable sample_settings sample_service).
  { apply (reach_init _ (lib_with_down [])). reflexivity. }
  split; [exact H|].
  eexists. split; [reflexivity|]. split; [reflexivity|].
  eapply (request_settings_persist sample_settings (lib_with_down [])
           (lib_with_down []) "Outline the book" None None (3 # 10) 6000
           "Write chapter 1" None sample_service _ OPENAI H);
    reflexivity.
Defined.

End LLMServiceMore.

(** ** More on the task-execution contract *)

Section BaseAgentMore.
Import BaseAgent.

Lemma apply_updates_snoc us u a :
  apply_updates (us ++ [u]) a = update_progress (fst u) (snd u) (apply_updates us a).
Proof. unfold apply_updates. rewrite fold_left_app. reflexivity. Qed.

(** The progress reports of [process_task] change the progress and the
    activity stamp only, and the last one wins. *)
Lemma apply_updates_fields us a :
  let a' := apply_updates us a in
  name a' = name a /\ state a' = state a /\ current_task a' = current_task a /\
  error_message a' = error_message a /\ metrics a' = metrics a /\
  current_task_progress a'
  = match last us with
    | Some u => Z.max 0 (Z.min 100 (fst u))
    | None => current_task_progress a
    end /\
  last_activity a'
  = match last us with
    | Some u => Some (snd u)
    | None => last_activity a
    end.
Proof.
  induction us as [|u us IH] using rev_ind; cbn zeta.
  - repeat split.
  - rewrite apply_updates_snoc, last_snoc. cbn zeta in IH.
    destruct IH as (H1 & H2 & H3 & H4 & H5 & _). simpl. repeat split; assumption.
Qed.

(** X7.  When [process_task] returns, the success branch of [execute_task]
    cannot fail on a reachable agent, in whatever state the agent is by then
    (other executions may have used the shared agent in the meantime): the
    response carries the result and the duration measured from this task's
    own start; the agent becomes IDLE with no current task and progress 100,
    has one more completed task and the completion time recorded; the error
    message and [last_activity] are left as they are at that moment, neither
    cleared nor stamped.  In an execution that nothing interrupts the error
    message is therefore [None] and [last_activity] is the time of the last
    progress report, or of the start of the task. *)
Theorem execute_task_success {R} (result : R) t0 t1 a :
  reachable a ->
  (let r := task_end (inl result) t0 t1 a in
   fst r = TaskSuccess result (total_seconds (t1 - t0)) (name a) t1 /\
   state (snd r) = IDLE /\ current_task (snd r) = None /\
   current_task_progress (snd r) = 100 /\
   error_message (snd r) = error_message a /\
   last_activity (snd r) = last_activity a /\
   tasks_completed (metrics (snd r)) = tasks_completed (metrics a) + 1 /\
   tasks_failed (metrics (snd r)) = tasks_failed (metrics a) /\
   last_task_completed (metrics (snd r)) = Some t1) /\
  (forall task_id (run : process_run R),
     outcome run = inl result ->
     let a' := snd (execute_task task_id run t0 t1 a) in
     fst (execute_task task_id run t0 t1 a)
     = TaskSuccess result (total_seconds (t1 - t0)) (name a) t1 /\
     state a' = IDLE /\ current_task a' = None /\
     current_task_progress a' = 100 /\ error_message a' = None /\
     last_activity a'
     = Some (match last (progress_updates run) with
             | Some u => snd u
             | None => t0
             end) /\
     tasks_completed (metrics a') = tasks_completed (metrics a) + 1 /\
     tasks_failed (metrics a') = tasks_failed (metrics a) /\
     last_task_completed (metrics a') = Some t1).
Proof.
  intros Hreach.
  assert (Hend : forall a1 : t,
            metrics_ok a1 ->
            let r := task_end (inl result) t0 t1 a1 in
            fst r = TaskSuccess result (total_seconds (t1 - t0)) (name a1) t1 /\
            state (snd r) = IDLE /\ current_task (snd r) = None /\
            current_task_progress (snd r) = 100 /\
            error_message (snd r) = error_message a1 /\
            last_activity (snd r) = last_activity a1 /\
            tasks_completed (metrics (snd r)) = tasks_completed (metrics a1) + 1 /\
            tasks_failed (metrics (snd r)) = tasks_failed (metrics a1) /\
            last_task_completed (metrics (snd r)) = Some t1).
  { intros a1 (Hc0 & Hf0 & _ & _). unfold task_end, task_succeed.
    assert (Hne : (tasks_completed (metrics a1) + 1 + tasks_failed (metrics a1) =? 0)
                  = false) by (apply Z.eqb_neq; lia).
    destruct (average_task_duration (metrics a1)) as [avg|]; rewrite Hne; simpl;
      repeat split; reflexivity. }
  split; [apply Hend, metrics_ok_reachable, Hreach|].
  intros task_id run Hout a'. subst a'. unfold execute_task. rewrite Hout.
  set (a1 := apply_updates (progress_updates run) (task_begin task_id t0 a)).
  assert (Hok : metrics_ok a1).
  { apply metrics_ok_apply_updates, metrics_ok_task_begin, metrics_ok_reachable, Hreach. }
  destruct (apply_updates_fields (progress_updates run) (task_begin task_id t0 a))
    as (Hn & Hs & Hc & He & Hm & Hp & Hl).
  fold a1 in Hn, Hs, Hc, He, Hm, Hp, Hl. simpl in Hn, He, Hm, Hl.
  destruct (Hend a1 Hok) as (H1 & H2 & H3 & H4 & H5 & H6 & H7 & H8 & H9).
  rewrite H1, H2, H3, H4, H5, H6, H7, H8, H9, Hn, He, Hm, Hl.
  repeat split; try reflexivity.
  destruct (last (progress_updates run)); reflexivity.
Qed.

Lemma execute_task_success_witness :
  reachable sample_agent /\
  error_message (snd (task_end (inl tt) 20000000 40000000 sample_agent))
  = Some "provider down" /\
  error_message (snd (execute_task "job-research" (mkRun [(40, 25000000)] (inl tt))
                        20000000 40000000 sample_agent)) = None.
Proof.
  assert (H : reachable sample_agent).
  { apply reachable_run_tasks, reach_init. }
  split; [exact H|].
  destruct (execute_task_success tt 20000000 40000000 sample_agent H) as [Hend Hrun].
  split.
  - destruct Hend as (_ & _ & _ & _ & He & _). rewrite He. reflexivity.
  - destruct (Hrun "job-research" (mkRun [(40, 25000000)] (inl tt)) eq_refl)
      as (_ & _ & _ & _ & He & _). exact He.
Defined.

(** X8.  When [process_task] raises, the handler of [execute_task] answers
    with a failure response carrying the text of the exception and puts the
    agent in ERROR with that text as error message; it counts the failure
    and leaves alone the completed counter, the average duration, the time
    of the last completion, the current task, the progress and
    [last_activity], whatever they are at that moment on a shared agent.  In
    an execution that nothing interrupts the failed task is therefore still
    the current task and the progress is where the last report put it (0
    without reports). *)
Theorem execute_task_failure {R} (msg : string) t0 t1 a :
  (let r := task_end (R:=R) (inr msg) t0 t1 a in
   fst r = TaskFailure msg (name a) t1 /\
   state (snd r) = ERROR /\ error_message (snd r) = Some msg /\
   current_task (snd r) = current_task a /\
   current_task_progress (snd r) = current_task_progress a /\
   last_activity (snd r) = last_activity a /\
   tasks_failed (metrics (snd r)) = tasks_failed (metrics a) + 1 /\
   tasks_completed (metrics (snd r)) = tasks_completed (metrics a) /\
   average_task_duration (metrics (snd r)) = average_task_duration (metrics a) /\
   last_task_completed (metrics (snd r)) = last_task_completed (metrics a)) /\
  (forall task_id (run : process_run R),
     outcome run = inr msg ->
     let a' := snd (execute_task task_id run t0 t1 a) in
     fst (execute_task task_id run t0 t1 a) = TaskFailure msg (name a) t1 /\
     state a' = ERROR /\ current_task a' = Some task_id /\
     error_message a' = Some msg /\
     current_task_progress a'
     = match last (progress_updates run) with
       | Some u => Z.max 0 (Z.min 100 (fst u))
       | None => 0
       end /\
     tasks_failed (metrics a') = tasks_failed (metrics a) + 1 /\
     tasks_completed (metrics a') = tasks_completed (metrics a) /\
     average_task_duration (metrics a') = average_task_duration (metrics a) /\
     last_task_completed (metrics a') = last_task_completed (metrics a)).
Proof.
  split; [repeat split|].
  intros task_id run Hout a'. subst a'. unfold execute_task. rewrite Hout.
  destruct (apply_updates_fields (progress_updates run) (task_begin task_id t0 a))
    as (Hn & Hs & Hc & He & Hm & Hp & Hl).
  unfold task_end, task_fail. simpl.
  rewrite Hn, Hc, Hm, Hp. simpl. repeat split; reflexivity.
Qed.

Lemma execute_task_failure_witness :
  current_task (snd (task_end (R:=unit) (inr "provider down") 10000000 11000000
                       sample_agent))
  = current_task sample_agent /\
  current_task (snd (execute_task (R:=unit) "job-content"
                       (mkRun [(10, 10500000); (70, 10800000)] (inr "provider down"))
                       10000000 11000000 sample_agent))
  = Some "job-content".
Proof.
  destruct (execute_task_failure (R:=unit) "provider down" 10000000 11000000
              sample_agent) as [Hend Hrun].
  split.
  - destruct Hend as (_ & _ & _ & Hc & _). exact Hc.
  - destruct (Hrun "job-content"
                (mkRun [(10, 10500000); (70, 10800000)] (inr "provider down")) eq_refl)
      as (_ & _ & Hc & _). exact Hc.
Defined.

(** X9.  As long as no task fails, the stored average duration is the
    arithmetic mean of the durations of the tasks executed so far. *)
Theorem average_duration_without_failures {R} (execs : list (task_exec R)) nm ty cfg now :
  execs <> [] ->
  Forall (fun e => succeeded e = true) execs ->
  let m := metrics (run_tasks execs (init nm ty cfg now)) in
  tasks_failed m = 0 /\
  exists avg,
    average_task_duration m = Some avg /\
    (avg == mean (map exec_duration execs))%Q.
Proof.
  intros Hne Hall m.
  pose proof (average_sum_without_failures execs nm ty cfg now Hall) as H.
  cbn zeta in H. destruct H as (Hf & _ & Havg). fold m in Hf, Havg.
  split; [exact Hf|].
  destruct (average_task_duration m) as [avg|]; [|contradiction].
  exists avg. split; [reflexivity|].
  unfold mean. rewrite length_map, <- Havg. field.
  change 0%Q with (inject_Z 0). rewrite inject_Z_injective.
  destruct execs; [contradiction|]. simpl length. lia.
Qed.

Lemma average_duration_without_failures_witness :
  exists avg,
    average_task_duration
      (metrics (run_tasks [mkExec "job-1" (mkRun [] (inl tt)) 0 10000000;
                           mkExec "job-2" (mkRun [] (inl tt)) 20000000 40000000]
                  (init "research-agent" RESEARCH None 0))) = Some avg /\
    (avg == mean [total_seconds 10000000; total_seconds 20000000])%Q.
Proof.
  apply (average_duration_without_failures
           [mkExec "job-1" (mkRun [] (inl tt)) 0 10000000;
            mkExec "job-2" (mkRun [] (inl tt)) 20000000 40000000]
           "research-agent" RESEARCH None 0).
  - discriminate.
  - repeat constructor.
Defined.

(** *** Requests of an agent to the provider registry *)




End BaseAgentMore.

(** ** More on the Research agent *)

Section ResearchAgentMore.
Import ResearchAgent.

(** X11.  A task without a topic (missing or empty) is refused before
    anything is asked of the model or of a search backend: the execution
    answers with the failure "Topic is required for research", whatever the
    outside would have answered, and the agent is left in ERROR with no
    progress made and one more failed task. *)
Theorem research_without_topic settings w task_id input clock t0 t1 a :
  default "" (in_topic input) = "" ->
  let r := execute settings w task_id input clock t0 t1 a in
  fst r = BaseAgent.TaskFailure "Topic is required for research" (BaseAgent.name a) t1 /\
  BaseAgent.state (snd r) = ERROR /\
  BaseAgent.current_task (snd r) = Some task_id /\
  BaseAgent.current_task_progress (snd r) = 0 /\
  BaseAgent.error_message (snd r) = Some "Topic is required for research" /\
  tasks_failed (BaseAgent.metrics (snd r)) = tasks_failed (BaseAgent.metrics a) + 1 /\
  tasks_completed (BaseAgent.metrics (snd r)) = tasks_completed (BaseAgent.metrics a).
Proof.
  intros Htopic r. subst r. unfold execute, process_task. rewrite Htopic. simpl.
  repeat split.
Qed.

Lemma research_without_topic_witness :
  fst (execute LLMService.sample_settings sample_world "job-1-research"
         {| in_task_type := None; in_topic := None; in_depth := None |}
         sample_clock 0 5000000 (init "research-agent" 0))
  = BaseAgent.TaskFailure "Topic is required for research" "research-agent" 5000000.
Proof.
  apply (research_without_topic LLMService.sample_settings sample_world
           "job-1-research"
           {| in_task_type := None; in_topic := None; in_depth := None |}
           sample_clock 0 5000000 (init "research-agent" 0) eq_refl).
Defined.

Lemma quality_score_by_count w web_results o :
  _organize_findings w web_results = inl o ->
  (_calculate_quality_score o
   == if 10 <=? Z.of_nat (length web_results) then 9 # 10
      else if 5 <=? Z.of_nat (length web_results) then 7 # 10 else 6 # 10)%Q.
Proof.
  unfold _organize_findings. destruct (organize_answer w); [|discriminate].
  intros [= <-]. unfold _calculate_quality_score. simpl.
  destruct (10 <=? Z.of_nat (length web_results)) eqn:H10.
  - vm_compute. reflexivity.
  - destruct (5 <=? Z.of_nat (length web_results)); vm_compute; reflexivity.
Qed.

(** X12.  The bundle of a successful research task: at most 8 key findings,
    5 statistics, 3 quotes and 5 trends; the counts and the score of the
    result are those of the bundle; and the quality score depends only on
    the number of gathered snippets: 0.9 from ten on, 0.7 from five on,
    0.6 below (1.0 and 0.8 are never produced). *)
Theorem research_result_bounds settings w input clock result :
  BaseAgent.outcome (process_task settings w input clock) = inl result ->
  let d := research_data result in
  (length (key_findings d) <= 8)%nat /\ (length (statistics d) <= 5)%nat /\
  (length (expert_quotes d) <= 3)%nat /\ (length (trends d) <= 5)%nat /\
  key_findings_count result = Z.of_nat (length (key_findings d)) /\
  (research_quality_score result == quality_score d)%Q /\
  topic d = default "" (in_topic input) /\ topic d <> "" /\
  exists web_results,
    _conduct_web_research settings w = inl web_results /\
    (quality_score d
     == if 10 <=? Z.of_nat (length web_results) then 9 # 10
        else if 5 <=? Z.of_nat (length web_results) then 7 # 10 else 6 # 10)%Q.
Proof.
  unfold process_task.
  destruct (String.eqb_spec (default "" (in_topic input)) "") as [|Hne];
    [discriminate|].
  destruct (plan_answer w); [|discriminate].
  destruct (_conduct_web_research settings w) as [web|]; [|discriminate].
  destruct (_organize_findings w web) as [organized|] eqn:Horg; [|discriminate].
  simpl. intros [= <-]. simpl.
  unfold _extract_key_findings, _extract_statistics, _extract_quotes, _extract_trends.
  repeat split; try apply firstn_le_length; try reflexivity; try exact Hne.
  exists web. split; [reflexivity|]. apply (quality_score_by_count w web), Horg.
Qed.

Lemma research_result_bounds_witness :
  exists result,
    BaseAgent.outcome (process_task LLMService.sample_settings sample_world
                         sample_input sample_clock) = inl result /\
    (length (key_findings (research_data result)) <= 8)%nat.
Proof.
  eexists. split; [vm_compute; reflexivity|].
  eapply (research_result_bounds LLMService.sample_settings sample_world
            sample_input sample_clock).
  vm_compute. reflexivity.
Defined.

(** X13.  With a Serper key configured neither Tavily nor the simulation is
    consulted, also when Serper returned nothing: the run of [process_task]
    is the same in any two worlds that agree on the plan, on Serper's
    results and on the synthesis, and at most 15 snippets are gathered. *)
Theorem serper_has_priority settings w w' input clock :
  truthy_str (SERPER_API_KEY settings) = true ->
  plan_answer w = plan_answer w' ->
  organize_answer w = organize_answer w' ->
  serper_results w = serper_results w' ->
  process_task settings w input clock = process_task settings w' input clock /\
  exists web_results,
    _conduct_web_research settings w = inl web_results /\
    (length web_results <= 15)%nat /\
    Forall (fun e => e ∈ serper_results w) web_results.
Proof.
  intros Hkey Hplan Horg Hserper. split.
  - unfold process_task, _conduct_web_research, _organize_findings.
    rewrite Hkey, Hplan, Horg, Hserper. reflexivity.
  - unfold _conduct_web_research. rewrite Hkey. eexists. split; [reflexivity|].
    split; [apply firstn_le_length|].
    apply Forall_forall. intros e He.
    apply elem_of_take in He as (i & Hi & _). eapply list_elem_of_lookup_2, Hi.
Qed.

Lemma serper_has_priority_witness :
  process_task sample_serper_settings sample_world sample_input sample_clock
  = process_task sample_serper_settings sample_world_offline sample_input sample_clock.
Proof.
  apply (serper_has_priority sample_serper_settings sample_world sample_world_offline
           sample_input sample_clock); reflexivity.
Defined.

(** *** Which lines become key findings and trends *)

Lemma section_items_origin opening closing lines f :
  f ∈ section_items opening closing lines ->
  exists before header between line after,
    lines = before ++ header :: between ++ line :: after /\
    PyStr.contains opening (PyStr.lower header) = true /\
    Forall (fun l => PyStr.contains opening (PyStr.lower l) = false /\
                     PyStr.contains_any closing (PyStr.lower l) = false)
           (between ++ [line]) /\
    PyStr.startswith (PyStr.strip line) "-" = true /\
    f = item_text line.
Proof.
  unfold section_items.
  set (step := fun (st : bool * list string) (line : string) => _).
  set (quiet := fun l : string => PyStr.contains opening (PyStr.lower l) = false /\
                                  PyStr.contains_any closing (PyStr.lower l) = false).
  set (P := fun (ls : list string) (x : string) =>
              exists before header between line after,
                ls = before ++ header :: between ++ line :: after /\
                PyStr.contains opening (PyStr.lower header) = true /\
                Forall quiet (between ++ [line]) /\
                PyStr.startswith (PyStr.strip line) "-" = true /\
                x = item_text line).
  assert (Hinv :
    (fst (fold_left step lines (false, [])) = true ->
     exists before header between,
       lines = before ++ header :: between /\
       PyStr.contains opening (PyStr.lower header) = true /\
       Forall quiet between) /\
    (forall x, x ∈ snd (fold_left step lines (false, [])) -> P lines x)).
  { clear f. induction lines as [|l lines IH] using rev_ind.
    - simpl. split; [discriminate|]. intros x Hx. apply elem_of_nil in Hx. contradiction.
    - rewrite fold_left_app. simpl.
      destruct (fold_left step lines (false, [])) as [b acc]. simpl in IH.
      destruct IH as [IHb IHacc].
      assert (Hold : forall x, x ∈ acc -> P (lines ++ [l]) x).
      { intros x Hx.
        destruct (IHacc x Hx) as (be & h & bt & ln & af & -> & Hh & Hq & Hs & ->).
        exists be, h, bt, ln, (af ++ [l]). split; [|auto].
        rewrite <- !app_assoc. simpl. rewrite <- app_assoc. reflexivity. }
      unfold step. cbv beta iota.
      destruct (PyStr.contains opening (PyStr.lower l)) eqn:Ho; simpl.
      + split; [|exact Hold]. intros _. exists lines, l, []. repeat split.
        * exact Ho.
        * constructor.
      + destruct (PyStr.contains_any closing (PyStr.lower l)) eqn:Hc; simpl.
        * split; [discriminate|exact Hold].
        * assert (Hb : b = true ->
                   exists before header between,
                     lines ++ [l] = before ++ header :: between /\
                     PyStr.contains opening (PyStr.lower header) = true /\
                     Forall quiet between).
          { intros Hb. destruct (IHb Hb) as (be & h & bt & -> & Hh & Hq).
            exists be, h, (bt ++ [l]). split; [|split; [exact Hh|]].
            - rewrite <- app_assoc. reflexivity.
            - apply Forall_app. split; [exact Hq|].
              constructor; [split; assumption|constructor]. }
          destruct (b && PyStr.startswith (PyStr.strip l) "-") eqn:Hs; simpl.
          -- apply andb_true_iff in Hs as [-> Hs]. split; [exact Hb|].
             intros x Hx. apply elem_of_app in Hx as [Hx|Hx]; [apply Hold, Hx|].
             apply list_elem_of_singleton in Hx. subst x.
             destruct (IHb eq_refl) as (be & h & bt & -> & Hh & Hq).
             exists be, h, bt, l, []. split; [|split; [exact Hh|split; [|split]]].
             ++ rewrite <- app_assoc. reflexivity.
             ++ apply Forall_app. split; [exact Hq|].
                constructor; [split; assumption|constructor].
             ++ exact Hs.
             ++ reflexivity.
          -- split; [exact Hb|exact Hold]. }
  intros Hf. exact (proj2 Hinv f Hf).
Qed.

(** X14.  A key finding is the text of a dashed line that comes after a line
    containing "key finding", with no line in between (the item included)
    that mentions a further heading word: "statistics", "expert", "trends"
    or "research", in any letter case.  So a finding whose own text
    mentions research is not collected, and it closes the section. *)
Theorem key_findings_origin content f :
  f ∈ _extract_key_findings content ->
  exists before header between line after,
    PyStr.split PyStr.newline content
      = before ++ header :: between ++ line :: after /\
    PyStr.contains "key finding" (PyStr.lower header) = true /\
    Forall (fun l =>
              PyStr.contains "key finding" (PyStr.lower l) = false /\
              PyStr.contains_any ["statistics"; "expert"; "trends"; "research"]
                (PyStr.lower l) = false)
           (between ++ [line]) /\
    PyStr.startswith (PyStr.strip line) "-" = true /\
    f = item_text line.
Proof.
  unfold _extract_key_findings. intros Hf.
  apply elem_of_take in Hf as (i & Hi & _).
  apply list_elem_of_lookup_2 in Hi.
  apply (section_items_origin _ _ _ _ Hi).
Qed.

Lemma key_findings_origin_witness :
  exists before header between line after,
    PyStr.split PyStr.newline sample_findings
      = before ++ header :: between ++ line :: after /\
    PyStr.contains "key finding" (PyStr.lower header) = true /\
    Forall (fun l =>
              PyStr.contains "key finding" (PyStr.lower l) = false /\
              PyStr.contains_any ["statistics"; "expert"; "trends"; "research"]
                (PyStr.lower l) = false)
           (between ++ [line]) /\
    PyStr.startswith (PyStr.strip line) "-" = true /\
    "Soil health drives yield" = item_text line.
Proof.
  apply (key_findings_origin sample_findings "Soil health drives yield").
  vm_compute. apply list_elem_of_here.
Defined.

(** The same finding worded with the word "research" is dropped, and the
    findings below it with it. *)
Example finding_mentioning_research_is_dropped :
  _extract_key_findings
    ("Key Findings:" ++ PyStr.newline ++ "- Research shows soil health drives yield"
     ++ PyStr.newline ++ "- Compost improves soil")%string = [].
Proof. vm_compute. reflexivity. Qed.

End ResearchAgentMore.

(** ** The Content agent: table of contents and outline *)

Section ContentAgentMore.
Import ContentAgent.

Lemma toc_fold chs :
  forall acc page,
    exists new final,
      fold_left
        (fun st ch =>
           let '(acc, page) := st in
           (acc ++ [("Chapter " ++ pretty (chapter_number ch) ++ ": "
                     ++ ch_title ch, page + 1)%string],
            page + 1 + Z.max 1 (ch_word_count ch / 250)))
        chs (acc, page) = (acc ++ new, final) /\
      length new = length chs /\
      page <= final /\
      (forall i ch, chs !! i = Some ch ->
         exists p, new !! i
                   = Some (("Chapter " ++ pretty (chapter_number ch) ++ ": "
                            ++ ch_title ch)%string, p)) /\
      (forall i p, map snd new !! i = Some p -> page < p < final) /\
      (forall i p q, map snd new !! i = Some p -> map snd new !! S i = Some q ->
                     p < q).
Proof.
  induction chs as [|ch chs IH]; intros acc page; simpl.
  - exists [], page. rewrite app_nil_r.
    split; [reflexivity|]. split; [reflexivity|]. split; [lia|].
    split; [|split]; intros; simpl in *; discriminate.
  - match goal with
    | |- context [fold_left _ chs (?a, ?p)] =>
        destruct (IH a p) as (new & final & -> & Hlen & Hle & Hch & Hrange & Hadj)
    end.
    eexists (_ :: new), final. rewrite <- app_assoc. simpl.
    split; [reflexivity|]. split; [simpl; congruence|].
    assert (Hmax : 1 <= Z.max 1 (ch_word_count ch / 250)) by lia.
    split; [lia|]. split; [|split].
    + intros [|i] c Hc; simpl in Hc.
      * injection Hc as <-. eexists. reflexivity.
      * apply (Hch i c Hc).
    + intros [|i] p Hp; simpl in Hp.
      * injection Hp as <-. lia.
      * specialize (Hrange i p Hp). lia.
    + intros [|i] p q Hp Hq; simpl in Hp, Hq.
      * injection Hp as <-. specialize (Hrange 0%nat q Hq). lia.
      * apply (Hadj i p q Hp Hq).
Qed.

(** X15.  The table of contents has one entry per chapter between
    "Introduction" on page 1 and "Conclusion"; the chapter entries carry the
    chapters' numbers and titles in order; and the page numbers increase
    strictly from entry to entry, whatever the word counts. *)
Theorem toc_shape intro chs :
  let toc := _generate_toc intro chs in
  length toc = (length chs + 2)%nat /\
  head toc = Some ("Introduction", 1) /\
  (exists p, last toc = Some ("Conclusion", p)) /\
  (forall i ch, chs !! i = Some ch ->
     exists p, toc !! S i
               = Some (("Chapter " ++ pretty (chapter_number ch) ++ ": "
                        ++ ch_title ch)%string, p)) /\
  (forall i p q, map snd toc !! i = Some p -> map snd toc !! S i = Some q -> p < q).
Proof.
  unfold _generate_toc.
  set (start := Z.max 1 (PyStr.count_words intro / 250)).
  destruct (toc_fold chs [("Introduction", 1)] start)
    as (new & final & -> & Hlen & Hle & Hch & Hrange & Hadj).
  cbn zeta. simpl.
  assert (Hstart : 1 <= start) by (unfold start; lia).
  split; [rewrite length_app; simpl; lia|].
  split; [reflexivity|].
  split; [exists (final + 1); change (("Introduction", 1) :: new ++ [("Conclusion", final + 1)])
            with ((("Introduction", 1) :: new) ++ [("Conclusion", final + 1)]);
          apply last_snoc|].
  split.
  - intros i ch Hi. destruct (Hch i ch Hi) as [p Hp]. exists p. simpl.
    apply lookup_app_l_Some. exact Hp.
  - rewrite map_app. simpl.
    assert (Hl : length (map snd new) = length new) by apply length_map.
    intros [|i] p q Hp Hq; simpl in Hp, Hq.
    + injection Hp as <-.
      destruct (map snd new) as [|x l] eqn:Hm; simpl in Hq.
      * injection Hq as <-. lia.
      * injection Hq as <-. specialize (Hrange 0%nat x eq_refl). lia.
    + destruct (decide (S i < length (map snd new))%nat) as [Hlt|Hge].
      * rewrite lookup_app_l in Hp by lia. rewrite lookup_app_l in Hq by lia.
        apply (Hadj i p q Hp Hq).
      * destruct (decide (i < length (map snd new))%nat) as [Hlt'|Hge'].
        -- rewrite lookup_app_l in Hp by lia.
           rewrite lookup_app_r in Hq by lia.
           replace (S i - length (map snd new))%nat with 0%nat in Hq by lia.
           simpl in Hq. injection Hq as <-. specialize (Hrange i p Hp). lia.
        -- rewrite lookup_app_r in Hq by lia.
           destruct (S i - length (map snd new))%nat as [|k] eqn:Hk; [lia|].
           simpl in Hq. rewrite lookup_nil in Hq. discriminate.
Qed.

(** *** [_parse_outline] *)

Lemma contains_eq needle s :
  PyStr.contains needle s
  = String.prefix needle s
    || match s with
       | EmptyString => false
       | String _ s' => PyStr.contains needle s'
       end.
Proof. destruct s; reflexivity. Qed.

Lemma prefix_contains needle s :
  String.prefix needle s = true -> PyStr.contains needle s = true.
Proof. intros H. rewrite contains_eq, H. reflexivity. Qed.

Lemma contains_tail c needle s :
  PyStr.contains (String c needle) s = true -> PyStr.contains needle s = true.
Proof.
  induction s as [|c' s IH]; rewrite (contains_eq (String c needle)).
  - simpl. discriminate.
  - intros H. rewrite (contains_eq needle). apply orb_true_iff. right.
    apply orb_true_iff in H as [H|H].
    + apply prefix_contains. cbn [String.prefix] in H.
      destruct (Ascii.ascii_dec c c'); [exact H|discriminate].
    + apply IH, H.
Qed.





Lemma lower_char_colon c : PyStr.lower_char c = ":"%char -> c = ":"%char.
Proof.
  destruct c as [[] [] [] [] [] [] [] []]; vm_compute; intros H;
    try reflexivity; discriminate.
Qed.

(** The guards of [_parse_outline] make sure that the line has a colon, so
    that taking what follows it does not fail. *)
Lemma after_colon_guarded needle s :
  PyStr.contains (needle ++ ":") (PyStr.lower s) = true ->
  is_Some (after_colon s).
Proof.
  intros H.
  assert (Hc : PyStr.contains ":" (PyStr.lower s) = true).
  { induction needle as [|c needle IH]; [exact H|].
    apply IH. simpl in H. apply contains_tail in H. exact H. }
  clear H. induction s as [|c s IH].
  - simpl in Hc. discriminate.
  - simpl after_colon. destruct (Ascii.eqb_spec c ":"%char) as [->|Hne];
      [eexists; reflexivity|].
    apply IH. cbn [PyStr.lower] in Hc. rewrite contains_eq in Hc.
    apply orb_true_iff in Hc as [Hc|Hc]; [|exact Hc].
    exfalso. apply Hne, lower_char_colon.
    cbn [String.prefix] in Hc.
    destruct (Ascii.ascii_dec ":"%char (PyStr.lower_char c)); [congruence|discriminate].
Qed.




(** On the sample outline: the title is the subtitle's text, and the line
    "2. Water: how much and when" is a chapter titled by what follows its
    colon. *)
Example parse_outline_sample :
  let o := _parse_outline sample_outline_text "Gardening" in
  po_title o = "Soil, Water and Light" /\ po_subtitle o = "" /\
  map co_title (po_chapters o) = ["Soil"; "how much and when"] /\
  map co_key_points (po_chapters o) = [["Why soil structure matters"]; []].
Proof. vm_compute. repeat split. Qed.

End ContentAgentMore.

(** ** What clients of the orchestrator can observe *)

Section BookGenerationServiceMore.
Import BookGenerationService.

Lemma visible_update book_id new_status new_progress msg now (s : t) :
  entries_visible s ->
  (forall g, active_generations s !! book_id = Some g ->
     visible {| request := request g; status := new_status;
                progress := default (progress g) new_progress;
                current_stage := msg; started_at := started_at g;
                estimated_completion := estimated_completion g;
                stages_completed := stages_completed g; errors := errors g;
                updated_at := Some now; error := error g;
                message := message g |}) ->
  entries_visible (_update_book_status book_id new_status new_progress msg now s).
Proof.
  intros Hs Hnew. unfold _update_book_status.
  destruct (active_generations s !! book_id) as [g|] eqn:Hg; [|exact Hs].
  intros b g' Hb. simpl in Hb.
  destruct (decide (book_id = b)) as [->|Hne].
  - rewrite lookup_insert_eq in Hb. injection Hb as <-. apply Hnew. reflexivity.
  - rewrite lookup_insert_ne in Hb by exact Hne. apply (Hs b g' Hb).
Qed.

Lemma visible_on_exception book_id e now (s : t) :
  entries_visible s -> entries_visible (on_exception book_id e now s).
Proof.
  intros Hs. unfold on_exception, _update_book_status.
  destruct (active_generations s !! book_id) as [g|] eqn:Hg; simpl.
  - rewrite lookup_insert_eq. simpl. intros b g' Hb. simpl in Hb.
    destruct (decide (book_id = b)) as [->|Hne].
    + rewrite lookup_insert_eq in Hb. injection Hb as <-.
      right. right. left. simpl. split; [reflexivity|]. split; [|eexists; reflexivity].
      destruct (Hs b g Hg) as [[_ H]|[[_ H]|[(_ & H & _)|[_ H]]]]; tauto.
    + rewrite !lookup_insert_ne in Hb by exact Hne. apply (Hs b g' Hb).
  - rewrite Hg. exact Hs.
Qed.

Lemma visible_start_generation req now (s : t) :
  entries_visible s -> entries_visible (start_generation req now s).
Proof.
  intros Hs. unfold start_generation, _update_book_status. simpl.
  rewrite lookup_insert_eq. simpl. intros b g' Hb. simpl in Hb.
  destruct (decide (id req = b)) as [<-|Hne].
  - rewrite lookup_insert_eq in Hb. injection Hb as <-. left. split; reflexivity.
  - rewrite !lookup_insert_ne in Hb by exact Hne. apply (Hs b g' Hb).
Qed.

Lemma visible_after_research req res now (s : t) :
  entries_visible s -> entries_visible (after_research req res now s).
Proof.
  intros Hs. unfold after_research. destruct res.
  - apply visible_update; [exact Hs|]. intros g _. right. left. split; reflexivity.
  - apply visible_on_exception, Hs.
Qed.

Lemma update_lookup_ne book_id new_status new_progress msg now (s : t) b :
  book_id <> b ->
  active_generations (_update_book_status book_id new_status new_progress msg now s) !! b
  = active_generations s !! b.
Proof.
  intros Hne. unfold _update_book_status.
  destruct (active_generations s !! book_id); [|reflexivity].
  simpl. apply lookup_insert_ne, Hne.
Qed.

Lemma update_absent book_id new_status new_progress msg now (s : t) :
  active_generations s !! book_id = None ->
  _update_book_status book_id new_status new_progress msg now s = s.
Proof. intros H. unfold _update_book_status. rewrite H. reflexivity. Qed.

Lemma visible_after_content req r res now (s : t) :
  entries_visible s -> entries_visible (after_content req r res now s).
Proof.
  intros Hs. unfold after_content. destruct res as [cr d a c|err a f];
    [|apply visible_on_exception, Hs].
  destruct (active_generations s !! id req) as [g|] eqn:Hg.
  - destruct (update_of_present_job (id req) REVIEWING (Some 85)
                "Content generated, reviewing quality" now s g Hg)
      as (g1 & Hg1 & _).
    destruct (update_of_present_job (id req) COMPLETED (Some 100)
                "Book generation completed" now _ g1 Hg1)
      as (g2 & Hg2 & _).
    cbn zeta. rewrite Hg2. intros b g' Hb. simpl in Hb.
    destruct (decide (id req = b)) as [<-|Hne].
    + rewrite lookup_delete_eq in Hb. discriminate.
    + rewrite lookup_delete_ne, !update_lookup_ne in Hb by exact Hne.
      apply (Hs b g' Hb).
  - cbn zeta. rewrite !(update_absent _ _ _ _ _ s Hg). rewrite Hg.
    apply visible_on_exception, Hs.
Qed.

Lemma visible_delete_book book_id (s : t) :
  entries_visible s -> entries_visible (snd (delete_book book_id s)).
Proof.
  intros Hs. unfold delete_book.
  destruct (active_generations s !! book_id) as [g|] eqn:Hg; simpl.
  - intros b g' Hb. simpl in Hb.
    destruct (decide (book_id = b)) as [->|Hne].
    + rewrite lookup_delete_eq in Hb. discriminate.
    + rewrite lookup_delete_ne in Hb by exact Hne. apply (Hs b g' Hb).
  - destruct (completed_books s !! book_id); exact Hs.
Qed.

Lemma visible_cancel_generation book_id (s : t) :
  entries_visible s -> entries_visible (snd (cancel_generation book_id s)).
Proof.
  intros Hs. unfold cancel_generation.
  destruct (active_generations s !! book_id) as [g|] eqn:Hg; simpl; [|exact Hs].
  intros b g' Hb. simpl in Hb.
  destruct (decide (book_id = b)) as [->|Hne].
  - rewrite lookup_insert_eq in Hb. injection Hb as <-.
    right. right. right. simpl. split; [reflexivity|].
    destruct (Hs b g Hg) as [[_ H]|[[_ H]|[(_ & H & _)|[_ H]]]]; tauto.
  - rewrite lookup_insert_ne in Hb by exact Hne. apply (Hs b g' Hb).
Qed.

Lemma visible_step sys ev :
  entries_visible (svc sys) -> entries_visible (svc (apply_event sys ev)).
Proof.
  intros Hs. destruct ev as [req now|k res now|k res now|book_id|book_id]; simpl.
  - apply visible_start_generation, Hs.
  - destruct (tasks sys !! k) as [[req [| |]]|]; try exact Hs.
    apply visible_after_research, Hs.
  - destruct (tasks sys !! k) as [[req [|r|]]|]; try exact Hs.
    apply visible_after_content, Hs.
  - apply visible_delete_book, Hs.
  - apply visible_cancel_generation, Hs.
Qed.

Lemma visible_run events sys :
  entries_visible (svc sys) -> entries_visible (svc (run events sys)).
Proof.
  revert sys. induction events as [|ev events IH]; intros sys Hs; simpl; [exact Hs|].
  apply IH, visible_step, Hs.
Qed.

(** X18.  Whatever the jobs, cancellations and deletions so far, a client
    that asks for a job never sees a validation error, and sees one of:
    not found; a running job that is Researching at 5%, GeneratingOutline
    at 30%, Failed or Cancelled at 5% or 30%; or Completed at 100%.  The
    statuses Pending, WritingContent and Reviewing and the progress values
    0 and 85 are never observable.  A Failed job carries its error. *)
Theorem get_book_observable events book_id :
  let s := svc (run events initial) in
  match get_book book_id s with
  | ValidationError => False
  | NotFound =>
      holds (active_generations s) book_id = false /\
      holds (completed_books s) book_id = false
  | Found r =>
      rsp_id r = book_id /\
      ((holds (active_generations s) book_id = true /\
        (rsp_status r, rsp_progress r)
          ∈ [(RESEARCHING, 5); (GENERATING_OUTLINE, 30); (FAILED, 5); (FAILED, 30);
             (CANCELLED, 5); (CANCELLED, 30)] /\
        rsp_completed_at r = None /\ is_Some (rsp_started_at r) /\
        (rsp_status r = FAILED -> is_Some (rsp_error_message r)))
       \/
       (holds (active_generations s) book_id = false /\
        holds (completed_books s) book_id = true /\
        rsp_status r = COMPLETED /\ rsp_progress r = 100 /\
        is_Some (rsp_completed_at r) /\ rsp_started_at r = None /\
        rsp_error_message r = None))
  end.
Proof.
  intros s.
  assert (Hvis : entries_visible s).
  { apply visible_run. intros b g Hb. simpl in Hb. rewrite lookup_empty in Hb.
    discriminate. }
  unfold get_book, holds.
  destruct (active_generations s !! book_id) as [g|] eqn:Hg.
  - specialize (Hvis book_id g Hg).
    assert (Hp : progress g = 5 \/ progress g = 30).
    { destruct Hvis as [[_ H]|[[_ H]|[(_ & H & _)|[_ H]]]]; tauto. }
    assert (Hok : (0 <=? progress g) && (progress g <=? 100) = true).
    { apply andb_true_iff. split; [apply Z.leb_le|apply Z.leb_le]; lia. }
    rewrite Hok. simpl. split; [reflexivity|]. left.
    split; [reflexivity|]. split; [|split; [reflexivity|split; [eexists; reflexivity|]]].
    + destruct Hvis as [[-> ->]|[[-> ->]|[(-> & [->| ->] & _)|[-> [->| ->]]]]];
        rewrite ?elem_of_cons; tauto.
    + intros Hf.
      destruct Hvis as [[H _]|[[H _]|[(_ & _ & H)|[H _]]]];
        try congruence; exact H.
  - destruct (completed_books s !! book_id) as [b|] eqn:Hb.
    + simpl. split; [reflexivity|]. right. repeat split. eexists; reflexivity.
    + split; reflexivity.
Qed.

(** *** Cancelling does not stop a job *)

(** X19.  [cancel_generation] only relabels the entry: the running pipeline
    does not look at the label.  After a cancellation the return of the
    Research agent puts the job back to GeneratingOutline, and the
    successful return of the Content agent completes the job and stores the
    book. *)
Theorem cancel_does_not_stop_job req research cr d a c now s g :
  active_generations s !! id req = Some g ->
  let s1 := snd (cancel_generation (id req) s) in
  fst (cancel_generation (id req) s) = true /\
  book_status (id req) s1 = Some CANCELLED /\
  (forall r d' a' c' now',
     book_status (id req)
       (after_research req (BaseAgent.TaskSuccess r d' a' c') now' s1)
     = Some GENERATING_OUTLINE) /\
  let s2 := after_content req research (BaseAgent.TaskSuccess cr d a c) now s1 in
  book_status (id req) s2 = Some COMPLETED /\
  get_book_content (id req) s2 = Some (book_content cr) /\
  active_generations s2 !! id req = None.
Proof.
  intros Hg. unfold cancel_generation. rewrite Hg. simpl.
  split; [reflexivity|]. split.
  - unfold book_status. simpl. rewrite lookup_insert_eq. reflexivity.
  - split.
    + intros r d' a' c' now'. unfold book_status, after_research, _update_book_status.
      simpl. rewrite lookup_insert_eq. simpl. rewrite lookup_insert_eq. reflexivity.
    + unfold book_status, get_book_content, after_content, _update_book_status.
      simpl. rewrite lookup_insert_eq. simpl. rewrite lookup_insert_eq. simpl.
      rewrite lookup_insert_eq. simpl. rewrite lookup_delete_eq, lookup_insert_eq.
      repeat split.
Qed.

Lemma cancel_does_not_stop_job_witness :
  let s := start_generation (sample_request "job-1") 0 init in
  book_status "job-1"
    (after_content (sample_request "job-1") sample_research
       (BaseAgent.TaskSuccess sample_content 1 "content-agent" 4) 4
       (snd (cancel_generation "job-1" s)))
  = Some COMPLETED.
Proof.
  destruct (start_generation_spec (sample_request "job-1") 0 init) as (g & Hg & _).
  apply (cancel_does_not_stop_job (sample_request "job-1") sample_research
           sample_content 1 "content-agent" 4 4
           (start_generation (sample_request "job-1") 0 init) g Hg).
Defined.

(** *** A job that has left both tables *)

Lemma absent_step sys ev book_id :
  book_id ∉ submitted [ev] ->
  book_id ∉ dom (active_generations (svc sys)) ->
  book_id ∉ dom (completed_books (svc sys)) ->
  (book_id ∉ dom (active_generations (svc (apply_event sys ev)))) /\
  (book_id ∉ dom (completed_books (svc (apply_event sys ev)))).
Proof.
  intros Hsub Ha Hc.
  destruct ev as [req now|k res now|k res now|b|b]; simpl.
  - destruct (start_generation_tables req now (svc sys)) as [-> ->].
    simpl in Hsub. set_solver.
  - destruct (tasks sys !! k) as [[req [| |]]|]; try (split; assumption).
    simpl. destruct (after_research_tables req res now (svc sys)) as [-> ->].
    split; assumption.
  - destruct (tasks sys !! k) as [[req [|r|]]|]; try (split; assumption).
    simpl.
    destruct (after_content_tables req r res now (svc sys))
      as [[-> ->]|(Hin & -> & -> & _)]; [split; assumption|].
    split; [set_solver|].
    assert (id req <> book_id) by (intros <-; contradiction). set_solver.
  - destruct (delete_book_tables b (svc sys)) as (-> & Hsubset & _).
    split; set_solver.
  - destruct (cancel_generation_tables b (svc sys)) as [-> ->].
    split; assumption.
Qed.

Lemma absent_run events sys book_id :
  book_id ∉ submitted events ->
  book_id ∉ dom (active_generations (svc sys)) ->
  book_id ∉ dom (completed_books (svc sys)) ->
  (book_id ∉ dom (active_generations (svc (run events sys)))) /\
  (book_id ∉ dom (completed_books (svc (run events sys)))).
Proof.
  revert sys. induction events as [|ev events IH]; intros sys Hsub Ha Hc; simpl.
  - split; assumption.
  - change (ev :: events) with ([ev] ++ events) in Hsub.
    unfold submitted in Hsub. rewrite omap_app in Hsub.
    apply not_elem_of_app in Hsub as [Hev Hrest].
    destruct (absent_step sys ev book_id Hev Ha Hc) as [Ha' Hc'].
    apply IH; assumption.
Qed.

(** X20.  A job that has left both tables (it was deleted) stays away for
    good: whatever its own pipeline, still running, and the other jobs do
    later, it never comes back into either table, and [get_book] keeps
    answering not found.  Job ids are not reused. *)
Theorem deleted_job_stays_deleted evs1 evs2 book_id :
  NoDup (submitted (evs1 ++ evs2)) ->
  book_id ∈ submitted evs1 ->
  let sys1 := run evs1 initial in
  holds (active_generations (svc sys1)) book_id = false ->
  holds (completed_books (svc sys1)) book_id = false ->
  let sys2 := run evs2 sys1 in
  holds (active_generations (svc sys2)) book_id = false /\
  holds (completed_books (svc sys2)) book_id = false /\
  get_book book_id (svc sys2) = NotFound /\
  get_book_content book_id (svc sys2) = None.
Proof.
  intros Hnd Hin sys1 Ha Hc sys2.
  unfold submitted in Hnd. rewrite omap_app in Hnd.
  apply NoDup_app in Hnd as (_ & Hdisj & _).
  apply holds_not_dom in Ha. apply holds_not_dom in Hc.
  destruct (absent_run evs2 sys1 book_id (Hdisj book_id Hin) Ha Hc) as [Ha2 Hc2].
  fold sys2 in Ha2, Hc2.
  apply not_elem_of_dom in Ha2. apply not_elem_of_dom in Hc2.
  unfold holds, get_book, get_book_content. rewrite Ha2, Hc2. repeat split.
Qed.

Lemma deleted_job_stays_deleted_witness :
  get_book "job-1"
    (svc (run [ResearchReturns 0
                 (BaseAgent.TaskSuccess sample_research 1 "research-agent" 2) 2;
               ContentReturns 0
                 (BaseAgent.TaskSuccess sample_content 1 "content-agent" 4) 4]
            (run [Submit (sample_request "job-1") 0; Delete "job-1"] initial)))
  = NotFound.
Proof.
  apply (deleted_job_stays_deleted
           [Submit (sample_request "job-1") 0; Delete "job-1"]
           [ResearchReturns 0
              (BaseAgent.TaskSuccess sample_research 1 "research-agent" 2) 2;
            ContentReturns 0
              (BaseAgent.TaskSuccess sample_content 1 "content-agent" 4) 4]
           "job-1").
  - apply (bool_decide_unpack _). vm_compute. exact I.
  - vm_compute. apply list_elem_of_here.
  - vm_compute. reflexivity.
  - vm_compute. reflexivity.
Defined.

(** *** What a finished job reports *)

Lemma update_present_entry book_id new_status new_progress msg now (s : t) g :
  active_generations s !! book_id = Some g ->
  active_generations (_update_book_status book_id new_status new_progress msg now s)
    !! book_id
  = Some {| request := request g; status := new_status;
            progress := default (progress g) new_progress;
            current_stage := msg; started_at := started_at g;
            estimated_completion := estimated_completion g;
            stages_completed := stages_completed g; errors := errors g;
            updated_at := Some now; error := error g; message := message g |} /\
  completed_books (_update_book_status book_id new_status new_progress msg now s)
  = completed_books s.
Proof.
  intros Hg. unfold _update_book_status. rewrite Hg. simpl.
  rewrite lookup_insert_eq. split; reflexivity.
Qed.

Lemma on_exception_entry book_id e now (s : t) g :
  active_generations s !! book_id = Some g ->
  active_generations (on_exception book_id e now s) !! book_id
  = Some {| request := request g; status := FAILED; progress := progress g;
            current_stage := ("Generation failed: " ++ e)%string;
            started_at := started_at g;
            estimated_completion := estimated_completion g;
            stages_completed := stages_completed g; errors := errors g;
            updated_at := Some now; error := Some e; message := message g |} /\
  completed_books (on_exception book_id e now s) = completed_books s.
Proof.
  intros Hg. unfold on_exception.
  destruct (update_present_entry book_id FAILED None
              ("Generation failed: " ++ e)%string now s g Hg) as [Hu Hc].
  rewrite Hu. simpl. rewrite lookup_insert_eq, Hc. split; reflexivity.
Qed.

Lemma start_generation_entry req now (s : t) :
  active_generations (start_generation req now s) !! id req
  = Some {| request := req; status := RESEARCHING; progress := 5;
            current_stage := "Starting research phase"; started_at := now;
            estimated_completion := now + 15 * 60 * 1000000;
            stages_completed := []; errors := [];
            updated_at := Some now; error := None; message := None |} /\
  completed_books (start_generation req now s) = completed_books s.
Proof.
  unfold start_generation.
  match goal with
  | |- context [_update_book_status ?b ?st ?p ?m ?n ?s0] =>
      destruct (update_present_entry b st p m n s0
                  {| request := req; status := PENDING; progress := 0;
                     current_stage := "initializing"; started_at := now;
                     estimated_completion := now + 15 * 60 * 1000000;
                     stages_completed := []; errors := [];
                     updated_at := None; error := None; message := None |})
        as [Hu Hc]
  end.
  { simpl. apply lookup_insert_eq. }
  rewrite Hu, Hc. split; reflexivity.
Qed.

(** X21.  A job whose research fails is reported Failed at 5%, with the
    error "Research failed: ..." and the stage message built from it; a job
    whose content generation fails is reported Failed at 30% with "Content
    generation failed: ...".  Either way the job stays in the active table
    and nothing is stored as completed. *)
Theorem failed_generation_report req research d1 a1 c1 err agent failed_at
  content_res t0 t1 t2 s :
  let after_failed_research :=
    generate_book_async req (BaseAgent.TaskFailure err agent failed_at)
      content_res t0 t1 t2 s in
  let after_failed_content :=
    generate_book_async req (BaseAgent.TaskSuccess research d1 a1 c1)
      (BaseAgent.TaskFailure err agent failed_at) t0 t1 t2 s in
  (exists r,
     get_book (id req) after_failed_research = Found r /\
     rsp_status r = FAILED /\ rsp_progress r = 5 /\
     rsp_error_message r = Some ("Research failed: " ++ err)%string /\
     rsp_message r
     = Some ("Generation failed: " ++ "Research failed: " ++ err)%string /\
     rsp_started_at r = Some t0 /\ rsp_completed_at r = None) /\
  completed_books after_failed_research = completed_books s /\
  (exists r,
     get_book (id req) after_failed_content = Found r /\
     rsp_status r = FAILED /\ rsp_progress r = 30 /\
     rsp_error_message r = Some ("Content generation failed: " ++ err)%string /\
     rsp_message r
     = Some ("Generation failed: " ++ "Content generation failed: " ++ err)%string /\
     rsp_started_at r = Some t0 /\ rsp_completed_at r = None) /\
  completed_books after_failed_content = completed_books s.
Proof.
  cbn zeta. destruct (start_generation_entry req t0 s) as [Hg0 Hc0].
  unfold generate_book_async, after_research, after_content.
  split; [|split; [|split]].
  - destruct (on_exception_entry (id req) ("Research failed: " ++ err)%string t1
                _ _ Hg0) as [Hg Hc].
    unfold get_book. rewrite Hg. simpl. eexists. repeat split.
  - destruct (on_exception_entry (id req) ("Research failed: " ++ err)%string t1
                _ _ Hg0) as [Hg Hc].
    rewrite Hc. exact Hc0.
  - destruct (update_present_entry (id req) GENERATING_OUTLINE (Some 30)
                "Research completed, generating outline" t1 _ _ Hg0) as [Hg1 Hc1].
    destruct (on_exception_entry (id req)
                ("Content generation failed: " ++ err)%string t2 _ _ Hg1) as [Hg Hc].
    unfold get_book. rewrite Hg. simpl. eexists. repeat split.
  - destruct (update_present_entry (id req) GENERATING_OUTLINE (Some 30)
                "Research completed, generating outline" t1 _ _ Hg0) as [Hg1 Hc1].
    destruct (on_exception_entry (id req)
                ("Content generation failed: " ++ err)%string t2 _ _ Hg1) as [Hg Hc].
    rewrite Hc, Hc1. exact Hc0.
Qed.

Lemma after_content_moves req research cr d a c now (s : t) g :
  active_generations s !! id req = Some g ->
  active_generations
    (after_content req research (BaseAgent.TaskSuccess cr d a c) now s) !! id req
  = None /\
  completed_books
    (after_content req research (BaseAgent.TaskSuccess cr d a c) now s) !! id req
  = Some {| bd_request := req;
            bd_research_data := ResearchAgent.research_data research;
            bd_book_content := book_content cr; bd_outline := outline cr;
            quality_score := _perform_quality_review cr;
            completed_at := now;
            generation_time := total_seconds (now - started_at g) |}.
Proof.
  intros Hg. unfold after_content.
  destruct (update_present_entry (id req) REVIEWING (Some 85)
              "Content generated, reviewing quality" now s g Hg) as [Hg2 _].
  match type of Hg2 with
  | active_generations ?st !! _ = _ => generalize dependent st; intros s2 Hg2
  end.
  destruct (update_present_entry (id req) COMPLETED (Some 100)
              "Book generation completed" now s2 _ Hg2) as [Hg3 _].
  match type of Hg3 with
  | active_generations ?st !! _ = _ => generalize dependent st; intros s3 Hg3
  end.
  cbn zeta. rewrite Hg3. simpl.
  rewrite lookup_delete_eq, lookup_insert_eq. split; reflexivity.
Qed.

(** X22.  A job that runs through is stored with the book the Content agent
    returned: [get_book_content] gives that book back, [get_book] reports
    Completed at 100% with the completion time, the stored generation time
    is the time since the job started and the stored score is that of the
    quality review.  A completed job can no longer be cancelled, and after
    [delete_book] it is not found. *)
Theorem completed_book_round_trip req research d1 a1 c1 cr d2 a2 c2 t0 t1 t2 s :
  let s' :=
    generate_book_async req (BaseAgent.TaskSuccess research d1 a1 c1)
      (BaseAgent.TaskSuccess cr d2 a2 c2) t0 t1 t2 s in
  get_book_content (id req) s' = Some (book_content cr) /\
  (exists r,
     get_book (id req) s' = Found r /\
     rsp_status r = COMPLETED /\ rsp_progress r = 100 /\
     rsp_completed_at r = Some t2 /\ rsp_topic r = req_topic req) /\
  (exists b,
     completed_books s' !! id req = Some b /\
     generation_time b = total_seconds (t2 - t0) /\
     quality_score b = _perform_quality_review cr /\
     bd_research_data b = ResearchAgent.research_data research) /\
  fst (cancel_generation (id req) s') = false /\
  fst (delete_book (id req) s') = true /\
  get_book (id req) (snd (delete_book (id req) s')) = NotFound /\
  get_book_content (id req) (snd (delete_book (id req) s')) = None.
Proof.
  cbn zeta. destruct (start_generation_entry req t0 s) as [Hg0 _].
  unfold generate_book_async, after_research.
  destruct (update_present_entry (id req) GENERATING_OUTLINE (Some 30)
              "Research completed, generating outline" t1 _ _ Hg0) as [Hg1 _].
  match type of Hg1 with
  | active_generations ?st !! _ = _ => generalize dependent st; intros s1 Hg1
  end.
  destruct (after_content_moves req research cr d2 a2 c2 t2 s1 _ Hg1) as [Ha Hc].
  match type of Ha with
  | active_generations ?st !! _ = _ => generalize dependent st; intros s' Ha Hc
  end.
  unfold get_book_content, get_book, cancel_generation, delete_book.
  rewrite Ha, Hc. simpl. rewrite Ha. simpl. rewrite lookup_delete_eq.
  split; [reflexivity|]. split; [eexists; repeat split|].
  split; [eexists; repeat split|]. repeat split.
Qed.

End BookGenerationServiceMore.

(** ** The agent coordinator *)

Section AgentCoordinatorFacts.
Import AgentCoordinator.

Lemma poll_spec clock l :
  forall k,
    map fst (snd (poll clock k l)) = map fst l /\
    length (fst (poll clock k l)) = length l /\
    (Forall (fun p => success_rate (BaseAgent.metrics (snd p)) = 0%Q
                      /\ tasks_completed (BaseAgent.metrics (snd p)) = 0
                      /\ tasks_failed (BaseAgent.metrics (snd p)) = 0) l ->
     Forall (fun p => success_rate (BaseAgent.metrics (snd p)) = 0%Q
                      /\ tasks_completed (BaseAgent.metrics (snd p)) = 0
                      /\ tasks_failed (BaseAgent.metrics (snd p)) = 0)
            (snd (poll clock k l)) /\
     Forall (fun st => counts_as_healthy st = false) (fst (poll clock k l))).
Proof.
  induction l as [|[nm a] l IH]; intros k; simpl.
  - repeat split; constructor.
  - destruct (IH (S k)) as (Hk & Hlen & Hall).
    split; [simpl; rewrite Hk; reflexivity|].
    split; [simpl; rewrite Hlen; reflexivity|].
    intros Hl. apply Forall_cons in Hl as [Ha Hl].
    destruct (Hall Hl) as [H1 H2]. simpl in Ha. destruct Ha as (Hs & Hc & Hf).
    split.
    + constructor; [|exact H1]. simpl. repeat split; assumption.
    + constructor; [|exact H2].
      unfold BaseAgent.get_status. cbn [fst].
      match goal with
      | |- context [if ?b then _ else _] => destruct b; [|reflexivity]
      end.
      unfold counts_as_healthy. cbn [health_score st_state].
      apply andb_false_iff. right. apply negb_false_iff.
      unfold BaseAgent.compute_health_score. cbn [BaseAgent.metrics BaseAgent.set_metrics
        success_rate BaseAgent.state]. rewrite Hs.
      destruct (AgentState_eqb _ ERROR); destruct (BaseAgent.stale _ _); reflexivity.
Qed.

Lemma idle_agents_map (f : string * BaseAgent.t -> string * BaseAgent.t) c :
  (forall p, fst (f p) = fst p) ->
  (forall p, success_rate (BaseAgent.metrics (snd (f p)))
             = success_rate (BaseAgent.metrics (snd p)) /\
             tasks_completed (BaseAgent.metrics (snd (f p)))
             = tasks_completed (BaseAgent.metrics (snd p)) /\
             tasks_failed (BaseAgent.metrics (snd (f p)))
             = tasks_failed (BaseAgent.metrics (snd p))) ->
  idle_agents c -> idle_agents (set_agents (map f (agents c)) c).
Proof.
  intros Hfst Hm [Hk Hall]. split; simpl.
  - rewrite <- Hk, map_map. apply map_ext. exact Hfst.
  - apply Forall_map. eapply Forall_impl; [exact Hall|].
    intros p Hp. simpl. destruct (Hm p) as (-> & -> & ->). exact Hp.
Qed.

Lemma imap_keys {A} (f : nat -> string * A -> string * A) l :
  (forall k p, fst (f k p) = fst p) -> map fst (imap f l) = map fst l.
Proof.
  revert f. induction l as [|p l IH]; intros f Hf; simpl; [reflexivity|].
  rewrite Hf. f_equal. apply IH. intros k q. apply Hf.
Qed.

Lemma imap_Forall {A} (P : A -> Prop) (f : nat -> A -> A) l :
  (forall k p, P p -> P (f k p)) -> Forall P l -> Forall P (imap f l).
Proof.
  revert f. induction l as [|p l IH]; intros f Hf Hall; simpl; [constructor|].
  apply Forall_cons in Hall as [Hp Hall]. constructor; [apply Hf, Hp|].
  apply IH; [|exact Hall]. intros k q. apply Hf.
Qed.

Lemma idle_agents_reachable c : reachable c -> idle_agents c.
Proof.
  induction 1 as [now nr nc|clock c _ IH|nm now c _ IH|nm now c _ IH|clock c _ IH
                 |outcomes c Hlen _ IH|c _ IH].
  - split; [reflexivity|]. repeat constructor.
  - destruct IH as [Hk Hall].
    destruct (poll_spec clock (agents c) 0%nat) as (Hk' & _ & Hp).
    split; simpl; [rewrite Hk'; exact Hk|apply (Hp Hall)].
  - unfold get_agent_status.
    destruct (List.find _ (agents c)) as [[nm' a]|]; [|exact IH].
    simpl. apply idle_agents_map; [| |exact IH].
    + intros p. destruct (String.eqb (fst p) nm); reflexivity.
    + intros p. destruct (String.eqb (fst p) nm); repeat split.
  - unfold reset_agent. destruct (List.find _ (agents c)) as [found|]; [|exact IH].
    simpl. apply idle_agents_map; [| |exact IH].
    + intros p. destruct (String.eqb (fst p) nm); reflexivity.
    + intros p. destruct (String.eqb (fst p) nm); repeat split.
  - destruct IH as [Hk Hall]. unfold reset_all_agents. simpl. split; simpl.
    + rewrite <- Hk. apply imap_keys. reflexivity.
    + apply imap_Forall; [|exact Hall]. intros k p Hp. exact Hp.
  - destruct IH as [Hk Hall]. clear Hlen. split; simpl.
    + rewrite <- Hk. clear. revert outcomes.
      induction (agents c) as [|[nm a] l IH]; intros [|[msg|] os]; simpl;
        try reflexivity; f_equal; apply IH.
    + clear Hk. revert outcomes Hall.
      induction (agents c) as [|[nm a] l IH]; intros [|[msg|] os] Hall; simpl;
        try exact Hall;
        apply Forall_cons in Hall as [Hp Hall];
        (constructor; [exact Hp|apply IH, Hall]).
  - exact IH.
Qed.

(** X23.  The coordinator's own agents are never given a task (the
    orchestrator works with a second pair), so their success rate stays 0
    and with it their health score: in every state the coordinator can
    reach through its own methods, [get_system_stats] counts no healthy
    agent out of two and reports the system status "critical". *)
Theorem coordinator_reports_critical c now clock :
  reachable c ->
  let stats := fst (get_system_stats now clock c) in
  ss_status stats = "critical" /\
  healthy_agents stats = 0 /\ total_agents stats = 2 /\
  active_generations stats = 0.
Proof.
  intros Hreach. destruct (idle_agents_reachable c Hreach) as [Hk Hall].
  destruct (poll_spec clock (agents c) 0%nat) as (_ & Hlen & Hp).
  destruct (Hp Hall) as [_ Hunhealthy].
  assert (Hfilter : List.filter counts_as_healthy (fst (poll clock 0 (agents c))) = []).
  { clear -Hunhealthy. induction Hunhealthy as [|st l Hst _ IH]; simpl;
      [reflexivity|]. rewrite Hst. exact IH. }
  assert (Htotal : length (agents c) = 2%nat).
  { rewrite <- (length_map fst), Hk. reflexivity. }
  cbn zeta. unfold get_system_stats. cbn [fst ss_status healthy_agents total_agents
    active_generations]. rewrite Hfilter, Htotal. repeat split.
Qed.

Lemma coordinator_reports_critical_witness :
  reachable (snd (reset_agent "research" 60000000 (init 0 1 2))) /\
  ss_status (fst (get_system_stats 120000000 (fun k => 120000000 + Z.of_nat k)
                    (snd (reset_agent "research" 60000000 (init 0 1 2)))))
  = "critical".
Proof.
  assert (H : reachable (snd (reset_agent "research" 60000000 (init 0 1 2)))).
  { apply reach_reset_agent, reach_init. }
  split; [exact H|].
  apply (coordinator_reports_critical
           (snd (reset_agent "research" 60000000 (init 0 1 2))) 120000000
           (fun k => 120000000 + Z.of_nat k) H).
Defined.

End AgentCoordinatorFacts.
